(** * Cartmin: the file-manager navigation engine

    A shallow embedding of [src/lib/constructor.js] (the request gate and
    the instance fields) and [src/lib/file-manager.js] (confirmed clicks,
    the directory reconciler, the file locator and the upload sequencer),
    followed by the properties stated about them.

    The Puppeteer driver is not part of the program.  Every call into it is
    recorded as an [event] in the [World]'s log, and whatever the remote
    page answers (click acknowledgements, network traffic, the rendered
    list, dialogs, the local file system) is read from the [World].

    Arguments are typed, so the [is.invalidType] checks cannot fail and are
    left out.  A driver call is taken to find its element; the waits the
    code bounds itself (the listing wait, the dialog wait) and
    [waitForFunction] can time out.  The two members of a [Promise.all]
    are run one after the other: the call first, because its driver work
    is issued at once, then the promise the page settles. *)

From Equations Require Import Equations.
From Stdlib Require Import String Ascii ZArith List Lia Bool Arith.
Import ListNotations.
Open Scope string_scope.

(** ** JavaScript string primitives used by the sources *)

Module JsString.

(** [s.includes(t)]: [t] occurs somewhere in [s]. *)
Fixpoint includes (s t : string) : bool :=
  String.prefix t s ||
  match s with
  | EmptyString => false
  | String _ s' => includes s' t
  end.

(** [s.startsWith(t)]. *)
Definition startsWith (s t : string) : bool := String.prefix t s.

Fixpoint lastIndexOf_from (s : string) (c : ascii) (i acc : Z) : Z :=
  match s with
  | EmptyString => acc
  | String a s' =>
      lastIndexOf_from s' c (i + 1) (if Ascii.eqb a c then i else acc)
  end.

(** [s.lastIndexOf(c)] for a one-character needle; [-1] when absent. *)
Definition lastIndexOf (s : string) (c : ascii) : Z :=
  lastIndexOf_from s c 0 (-1).

Definition clamp (s : string) (i : Z) : nat :=
  Z.to_nat (Z.min (Z.max i 0) (Z.of_nat (String.length s))).

(** [s.substring(i, j)]: both indices are clamped to [0 .. s.length] and
    swapped when out of order. *)
Definition substring (s : string) (i j : Z) : string :=
  let a := clamp s i in
  let b := clamp s j in
  String.substring (Nat.min a b) (Nat.max a b - Nat.min a b) s.

(** [s.replace(c, r)] with a string pattern of one character: only the
    first occurrence is replaced. *)
Fixpoint replace (s : string) (c : ascii) (r : string) : string :=
  match s with
  | EmptyString => EmptyString
  | String a s' =>
      if Ascii.eqb a c then r ++ s' else String a (replace s' c r)
  end.

Definition is_space (c : ascii) : bool :=
  let n := nat_of_ascii c in
  (Nat.leb 9 n && Nat.leb n 13) || Nat.eqb n 32.

Fixpoint trimStart (s : string) : string :=
  match s with
  | EmptyString => EmptyString
  | String a s' => if is_space a then trimStart s' else s
  end.

Fixpoint trimEnd (s : string) : string :=
  match s with
  | EmptyString => EmptyString
  | String a s' =>
      match trimEnd s' with
      | EmptyString => if is_space a then EmptyString else String a EmptyString
      | t => String a t
      end
  end.

(** [s.trim()] over the ASCII white space characters. *)
Definition trim (s : string) : string := trimEnd (trimStart s).

(** Number of occurrences of a character. *)
Fixpoint count (c : ascii) (s : string) : nat :=
  match s with
  | EmptyString => 0
  | String a s' => (if Ascii.eqb a c then 1 else 0) + count c s'
  end.

End JsString.

Import JsString.

(** ** Instance fields ([Cartmin.constructor]) *)

(** A driver object (Browser, Frame); [None] stands for [null]. *)
Inductive handle : Type := Handle (id : nat).

(** The entries of [version-config.json] and of the user configuration
    that the file manager code reads through [this.paths],
    [this.fileManagerSelectors] and [this.fileManagerOptions]. *)
Record Config : Type := {
  paths_fileManagerFiles : string;
  selectors_frame : string;
  selectors_closeBtn : string;
  selectors_uploadBtn : string;
  selectors_list : string;
  options_successMsg : string
}.

Record State : Type := {
  config : Config;
  browser : option handle;
  fileManagerFrame : option handle;
  blockRepetitiveXhr : bool;
  lastXhrPostData : option string;
  allowedXhrPostData : option string;
  curDirFiles : option (list string);
  curDirPath : string
}.

(** [new Cartmin(config)].  [instance] is the module variable of that
    name: [None] is [null], [Some live] the instance made by the first
    construction, in the state it is in now.  With a live instance the
    constructor returns it as it is ([if (instance) return instance]);
    otherwise the fields are initialised.  The argument checks of the
    constructor ([is.js], [version-config.json]) are not among the
    sources: [constructor] is a construction that returns. *)
Definition constructor (instance : option State) (cfg : Config) : State :=
  match instance with
  | Some live => live
  | None =>
      {| config := cfg;
         browser := None;
         fileManagerFrame := None;
         blockRepetitiveXhr := false;
         lastXhrPostData := None;
         allowedXhrPostData := None;
         curDirFiles := None;
         curDirPath := "" |}
  end.

Definition set_browser (b : option handle) (s : State) : State :=
  {| config := config s; browser := b;
     fileManagerFrame := fileManagerFrame s;
     blockRepetitiveXhr := blockRepetitiveXhr s;
     lastXhrPostData := lastXhrPostData s;
     allowedXhrPostData := allowedXhrPostData s;
     curDirFiles := curDirFiles s; curDirPath := curDirPath s |}.

Definition set_fileManagerFrame (f : option handle) (s : State) : State :=
  {| config := config s; browser := browser s;
     fileManagerFrame := f;
     blockRepetitiveXhr := blockRepetitiveXhr s;
     lastXhrPostData := lastXhrPostData s;
     allowedXhrPostData := allowedXhrPostData s;
     curDirFiles := curDirFiles s; curDirPath := curDirPath s |}.

Definition set_gate (block : bool) (last allowed : option string)
    (s : State) : State :=
  {| config := config s; browser := browser s;
     fileManagerFrame := fileManagerFrame s;
     blockRepetitiveXhr := block;
     lastXhrPostData := last;
     allowedXhrPostData := allowed;
     curDirFiles := curDirFiles s; curDirPath := curDirPath s |}.

Definition set_curDirFiles (fs : option (list string)) (s : State) : State :=
  {| config := config s; browser := browser s;
     fileManagerFrame := fileManagerFrame s;
     blockRepetitiveXhr := blockRepetitiveXhr s;
     lastXhrPostData := lastXhrPostData s;
     allowedXhrPostData := allowedXhrPostData s;
     curDirFiles := fs; curDirPath := curDirPath s |}.

Definition set_curDirPath (p : string) (s : State) : State :=
  {| config := config s; browser := browser s;
     fileManagerFrame := fileManagerFrame s;
     blockRepetitiveXhr := blockRepetitiveXhr s;
     lastXhrPostData := lastXhrPostData s;
     allowedXhrPostData := allowedXhrPostData s;
     curDirFiles := curDirFiles s; curDirPath := p |}.

(** ** The request gate ([launch]'s request handler, [allowXhr],
       [blockRepXhr]) *)

Module Gate.

Record Request : Type := {
  resourceType : string;
  url : string;
  method : string;
  postData : option string   (* [None] is [undefined] *)
}.

(** What the handler does with an intercepted request. *)
Inductive decision : Type :=
| RespondEmpty   (* [req.respond({})] *)
| Abort          (* [req.abort()] *)
| Continue.      (* [req.continue()]: the request reaches the network *)

(** The guard of the outer [if]: an XHR POST to the file-manager files
    URL. *)
Definition tracked (s : State) (req : Request) : bool :=
  String.eqb (resourceType req) "xhr" &&
  includes (url req) (paths_fileManagerFiles (config s)) &&
  String.eqb (method req) "POST".

(** [===] between [req.postData()] (a string or [undefined]) and a gate
    field (a string or [null]): [undefined] and [null] are different
    values, so only two equal strings compare equal. *)
Definition strictEq (a b : option string) : bool :=
  match a, b with
  | Some x, Some y => String.eqb x y
  | _, _ => false
  end.

Definition allowXhr (allowed : option string) (block : bool)
    (s : State) : State :=
  set_gate block None allowed s.

Definition blockRepXhr (block : bool) (s : State) : State :=
  set_gate block None (allowedXhrPostData s) s.

Definition passOn (req : Request) : decision :=
  if String.eqb (resourceType req) "image" ||
     String.eqb (resourceType req) "stylesheet"
  then Abort else Continue.

(** The [page.on('request', ...)] handler. *)
Definition onRequest (s : State) (req : Request) : decision * State :=
  if tracked s req then
    if negb (strictEq (postData req) (allowedXhrPostData s)) then
      (RespondEmpty, s)
    else
      let lastPostData := lastXhrPostData s in
      let s' := set_gate (blockRepetitiveXhr s) (allowedXhrPostData s)
                         (allowedXhrPostData s) s in
      if blockRepetitiveXhr s' && strictEq (postData req) lastPostData then
        (RespondEmpty, s')
      else (passOn req, s')
  else (passOn req, s).

(** The handler run over a sequence of requests, in order. *)
Fixpoint onRequests (s : State) (reqs : list Request)
    : list decision * State :=
  match reqs with
  | [] => ([], s)
  | req :: rest =>
      let (d, s1) := onRequest s req in
      let (ds, s2) := onRequests s1 rest in
      (d :: ds, s2)
  end.

End Gate.

Export Gate.


(** ** The remote side *)

(** Calls into the driver, in the order the program issues them. *)
Inductive event : Type :=
| WaitForSelector (selector : string) (visible : bool)
| CloseClass (selector : string)
    (* [$eval]: [className.replace('open', 'closed')] *)
| ShowOnly (selector : string)
    (* [evaluate]: hide the siblings of the element, show the element *)
| Click (selector : string) (count : nat)
    (* [frame.click(selector, { count })] alone *)
| ClickRace (selector : string) (count : nat) (deadline : Z)
    (acknowledged : bool)
    (* [Promise.all([isClickedPromise(selector), frame.click(selector,
       { count })])] and what the listener resolved to *)
| OnResponse (timeout : Z)
    (* [page.on('response', handleResponse)] with its timer *)
| UploadBtnClick (tabName : string) (index : nat)
| PageClick (selector : string)
| WaitForFunction (selector fileName : string)
| Evaluate (selector fileName : string)
| ScrollIntoView (selector : string) (index : nat)
| ClickEntry (selector : string) (index count : nat)
| FileChooser (uploadBtn : string)
    (* [Promise.all([page.waitForFileChooser(), uploadBtn.click()])] *)
| AcceptFiles (path : string)
    (* [fileChooser.accept([path])], joined with the dialog promise *)
| AcceptDialog
    (* [dialog.accept()] *)
| Launch
| BrowserClose.

(** The body the server would answer a request with, as [handleResponse]
    sees it through [res.text()] and [JSON.parse(str).map(obj =>
    obj.filename)]. *)
Inductive body : Type :=
| EmptyBody
    (* the empty string *)
| Listing (files : list string)
    (* a JSON array of objects; [files] are their [filename]s *)
| Unparsable.
    (* any other text: [JSON.parse] or [.map] throws *)

(** A request of the page together with what the server would answer. *)
Record Exchange : Type := {
  request : Request;
  reply : body
}.

(** How the promise of a listing wait ends. *)
Inductive settlement : Type :=
| Resolved (files : list string)
| Rejected
    (* the timer fires: no response settled the promise *)
| Pending.
    (* the timer is cleared and the promise is left unsettled: for ever *)

Record World : Type := {
  log : list event;
  (** what each successive acknowledgement race resolves to; past the end
      of the list the widget never acknowledges again *)
  acks : list bool;
  (** for each successive listing wait, the requests the page issues
      before the timer fires *)
  traffic : list (list Exchange);
  (** [textContent] of the rendered entries under the list selector *)
  dom : list string;
  (** [fs.existsSync] *)
  existsSync : string -> bool;
  (** for each successive upload, the message of the dialog that pops up,
      [None] when none does before the timer fires *)
  dialogs : list (option string);
  (** number of file-manager frames the page has created *)
  frames : nat
}.

Definition record (e : event) (w : World) : World :=
  {| log := log w ++ [e]; acks := acks w; traffic := traffic w;
     dom := dom w; existsSync := existsSync w; dialogs := dialogs w;
     frames := frames w |}.

Definition records (es : list event) (w : World) : World :=
  {| log := log w ++ es; acks := acks w; traffic := traffic w;
     dom := dom w; existsSync := existsSync w; dialogs := dialogs w;
     frames := frames w |}.

Definition set_acks (a : list bool) (w : World) : World :=
  {| log := log w; acks := a; traffic := traffic w;
     dom := dom w; existsSync := existsSync w; dialogs := dialogs w;
     frames := frames w |}.

Definition set_traffic (t : list (list Exchange)) (w : World) : World :=
  {| log := log w; acks := acks w; traffic := t;
     dom := dom w; existsSync := existsSync w; dialogs := dialogs w;
     frames := frames w |}.

Definition set_dialogs (d : list (option string)) (w : World) : World :=
  {| log := log w; acks := acks w; traffic := traffic w;
     dom := dom w; existsSync := existsSync w; dialogs := d;
     frames := frames w |}.

Definition set_frames (n : nat) (w : World) : World :=
  {| log := log w; acks := acks w; traffic := traffic w;
     dom := dom w; existsSync := existsSync w; dialogs := dialogs w;
     frames := n |}.

(** ** Asynchronous methods as state-passing computations *)

Inductive error : Type :=
| FileManagerClosed            (* [Error('file manager is closed')] *)
| TimeoutExceeded (ms : Z)     (* rejection [Timeout ${ms} ms is exceeded.] *)
| WaitTimeout                  (* the driver's own [TimeoutError] *)
| TypeError.                   (* a method called on [null] *)

Inductive outcome (A : Type) : Type :=
| Ok (a : A)
| Throw (e : error)
| Diverge.

Arguments Ok {A} a.
Arguments Throw {A} e.
Arguments Diverge {A}.

Definition M (A : Type) : Type := State -> World -> outcome A * State * World.

Definition ret {A : Type} (a : A) : M A := fun s w => (Ok a, s, w).

Definition bind {A B : Type} (m : M A) (k : A -> M B) : M B :=
  fun s w =>
    match m s w with
    | (Ok a, s', w') => k a s' w'
    | (Throw e, s', w') => (Throw e, s', w')
    | (Diverge, s', w') => (Diverge, s', w')
    end.

Notation "x <- m ;; k" := (bind m (fun x => k))
  (at level 61, m at next level, right associativity).
Notation "m ;; k" := (bind m (fun _ => k))
  (at level 61, right associativity).

Definition throw {A : Type} (e : error) : M A := fun s w => (Throw e, s, w).
Definition diverge {A : Type} : M A := fun s w => (Diverge, s, w).
Definition this : M State := fun s w => (Ok s, s, w).
Definition assign (f : State -> State) : M unit := fun s w => (Ok tt, f s, w).
Definition emit (e : event) : M unit := fun s w => (Ok tt, s, record e w).

(** [await Promise.all([p, c])] where [p] is a pending promise settled by
    the page and [c] an asynchronous call: the call's driver work is
    issued, the promise settles, and a rejection of [p] rejects the whole
    whatever the call is doing. *)
Definition promiseAll {A : Type} (p : M A) (c : M unit) : M A :=
  fun s w =>
    let '(rc, s1, w1) := c s w in
    let '(rp, s2, w2) := p s1 w1 in
    match rp, rc with
    | Ok a, Ok _ => (Ok a, s2, w2)
    | Ok _, Throw e => (Throw e, s2, w2)
    | Ok _, Diverge => (Diverge, s2, w2)
    | Throw e, _ => (Throw e, s2, w2)
    | Diverge, _ => (Diverge, s2, w2)
    end.

(** ** [file-manager.js] *)

Definition dquote : string := String (ascii_of_nat 34) EmptyString.

Definition getDirSelector (path : string) : string :=
  match path with
  | EmptyString => "[directory]"
  | _ => "[directory=" ++ dquote ++ path ++ dquote ++ "]"
  end.

(** The [do ... while (!isClicked)] loop of [clickDir]: one race per
    iteration, each against the 50 ms deadline of [isClickedPromise]. *)
Fixpoint clickUntilAcknowledged (selector : string) (clickCount : nat)
    (pending : list bool) : list event * list bool * bool :=
  match pending with
  | [] => ([], [], false)
  | isClicked :: rest =>
      let e := ClickRace selector clickCount 50%Z isClicked in
      if isClicked then ([e], rest, true)
      else
        let '(es, rest', done) :=
          clickUntilAcknowledged selector clickCount rest in
        (e :: es, rest', done)
  end.

Definition clickDir (path : string) (clickCount : nat) : M unit :=
  let selector := getDirSelector path in
  match path with
  | EmptyString => emit (Click selector clickCount)
  | _ =>
      emit (ShowOnly selector) ;;
      fun s w =>
        let '(es, rest, done) :=
          clickUntilAcknowledged selector clickCount (acks w) in
        ((if done then Ok tt else Diverge), s, set_acks rest (records es w))
  end.

Definition closeDir (path : string) : M unit :=
  emit (CloseClass (getDirSelector path)).

(** [path.substring(0, path.lastIndexOf('/'))] *)
Definition parent (path : string) : string :=
  substring path 0 (lastIndexOf path "/").

(** The payload the gate is armed with for a directory. *)
Definition listingPayload (path : string) : string :=
  "directory=" ++ replace path "/" "%2F".

(** [handleResponse] over the requests of one listing wait.  Each request
    first passes the request handler.  A request answered by the handler
    ([req.respond({})]) comes back with the empty body and an aborted one
    does not come back: neither settles anything.  A forwarded request
    comes back with the server's body: on the empty string the handler
    returns; otherwise it clears the timer, unsubscribes, switches
    duplicate blocking off and resolves with the parsed file names, or,
    when parsing throws inside the handler, leaves the promise with
    neither a timer nor a handler. *)
Fixpoint handleResponses (s : State) (exchanges : list Exchange)
    : settlement * State :=
  match exchanges with
  | [] => (Rejected, s)
  | ex :: rest =>
      let (d, s1) := onRequest s (request ex) in
      match d with
      | Continue =>
          if tracked s1 (request ex) &&
             strictEq (postData (request ex)) (allowedXhrPostData s1)
          then
            match reply ex with
            | EmptyBody => handleResponses s1 rest
            | Listing files => (Resolved files, blockRepXhr false s1)
            | Unparsable => (Pending, blockRepXhr false s1)
            end
          else handleResponses s1 rest
      | _ => handleResponses s1 rest
      end
  end.

(** The promise returned by [getDirFilesPromise], once pending. *)
Definition listingPromise (timeout : Z) : M (list string) :=
  fun s w =>
    let exchanges := hd [] (traffic w) in
    let w' := set_traffic (tl (traffic w)) w in
    match handleResponses s exchanges with
    | (Resolved files, s') => (Ok files, s', w')
    | (Rejected, s') => (Throw (TimeoutExceeded timeout), s', w')
    | (Pending, s') => (Diverge, s', w')
    end.

(** [getDirFilesPromise]: arms the gate and installs the response handler
    at once, and returns the pending promise. *)
Definition getDirFilesPromise (path : string) (timeout : Z)
    : M (M (list string)) :=
  assign (allowXhr (Some (listingPayload path)) true) ;;
  emit (OnResponse timeout) ;;
  ret (listingPromise timeout).

(** Truncating a non-empty path at its last [/] makes it shorter: the
    measure under which the truncation loops below terminate. *)
Lemma lastIndexOf_from_bound (s : string) (c : ascii) :
  forall i acc : Z,
    (-1 <= acc < i)%Z ->
    (-1 <= lastIndexOf_from s c i acc < i + Z.of_nat (String.length s))%Z.
Proof.
  induction s as [|a s IH]; intros i acc H; simpl String.length; simpl.
  - lia.
  - destruct (Ascii.eqb a c).
    + specialize (IH (i + 1)%Z i). lia.
    + specialize (IH (i + 1)%Z acc). lia.
Qed.

Lemma substring_length_le (n m : nat) (s : string) :
  String.length (String.substring n m s) <= m.
Proof.
  revert n m. induction s as [|a s IH]; intros [|n] [|m]; simpl; try lia.
  - specialize (IH 0 m). lia.
  - apply IH.
  - apply IH.
Qed.

Lemma parent_shorter (p : string) :
  p <> "" -> String.length (parent p) < String.length p.
Proof.
  intros Hp. unfold parent, substring.
  pose proof (lastIndexOf_from_bound p "/" 0 (-1)) as H.
  fold (lastIndexOf p "/") in H.
  eapply Nat.le_lt_trans; [apply substring_length_le|].
  destruct p; [congruence|]. unfold clamp. simpl String.length in *. lia.
Qed.

Lemma parent_empty : parent "" = "".
Proof. reflexivity. Qed.

(** The [do ... while (path)] loop of [destroyNav]: the path is truncated
    until it occurs in the cursor or is empty. *)
Equations? nearestIncluded (curDirPath path : string) : string
  by wf (String.length path) lt :=
  nearestIncluded curDirPath path
    with includes curDirPath path => {
    | true => path;
    | false with string_dec (parent path) "" => {
      | left _ => parent path;
      | right _ => nearestIncluded curDirPath (parent path) } }.
Proof.
  apply parent_shorter. intros ->. auto using parent_empty.
Qed.

(** The [while (this.curDirPath !== path)] loop of [destroyNav]. *)
Fixpoint closeUpTo (fuel : nat) (path : string) : M unit :=
  s <- this ;;
  if String.eqb (curDirPath s) path then ret tt
  else
    match fuel with
    | 0 => diverge
    | S fuel' =>
        closeDir (curDirPath s) ;;
        assign (set_curDirPath (parent (curDirPath s))) ;;
        closeUpTo fuel' path
    end.

Definition destroyNav (fuel : nat) (path : string) : M unit :=
  s <- this ;;
  let path := nearestIncluded (curDirPath s) path in
  emit (WaitForSelector (getDirSelector (curDirPath s)) true) ;;
  closeUpTo fuel path ;;
  closeDir path ;;
  assign (set_curDirPath path).

(** The [while (path !== this.curDirPath)] loop of [navInFileManager];
    [paths.unshift(path)] is the cons. *)
Fixpoint pathsDownTo (fuel : nat) (curDirPath path : string)
    (paths : list string) : option (list string) :=
  if String.eqb path curDirPath then Some paths
  else
    match fuel with
    | 0 => None
    | S fuel' => pathsDownTo fuel' curDirPath (parent path) (path :: paths)
    end.

(** The [for (const path of paths)] loop of [navInFileManager]. *)
Fixpoint openEach (paths : list string) : M unit :=
  match paths with
  | [] => ret tt
  | path :: rest =>
      emit (WaitForSelector (getDirSelector path) false) ;;
      clickDir path 2 ;;
      assign (set_curDirPath path) ;;
      openEach rest
  end.

(** [fuel] bounds the two loops whose exit depends on the cursor. *)
Definition navInFileManager (fuel : nat) (path : string) : M unit :=
  s <- this ;;
  match fileManagerFrame s with
  | None => throw FileManagerClosed
  | Some _ =>
      if String.eqb (curDirPath s) path then ret tt
      else
        assign (allowXhr None true) ;;
        destroyNav fuel path ;;
        s <- this ;;
        match pathsDownTo fuel (curDirPath s) path [] with
        | None => diverge
        | Some paths =>
            let paths := curDirPath s :: paths in
            let lastDirPath := last paths "" in
            let paths := removelast paths in
            openEach paths ;;
            emit (WaitForSelector (getDirSelector lastDirPath) false) ;;
            let clickCount :=
              if String.eqb lastDirPath "" then 2 else 1 in
            listing <- getDirFilesPromise lastDirPath 30000%Z ;;
            files <- promiseAll listing (clickDir lastDirPath clickCount) ;;
            assign (set_curDirFiles (Some files)) ;;
            assign (set_curDirPath lastDirPath)
        end
  end.

(** *** Sessions *)

(** [launch]: only the [browser] field matters here. *)
Definition launch : M unit :=
  s <- this ;;
  match browser s with
  | Some _ => ret tt
  | None => emit Launch ;; assign (set_browser (Some (Handle 0)))
  end.

Definition openFileManager (tabName : string) (index : nat) : M unit :=
  s <- this ;;
  match fileManagerFrame s with
  | Some _ => ret tt
  | None =>
      emit (UploadBtnClick tabName index) ;;
      emit (WaitForSelector (selectors_frame (config s)) false) ;;
      fun s w =>
        (Ok tt, set_fileManagerFrame (Some (Handle (frames w))) s,
         set_frames (S (frames w)) w)
  end.

Definition closeFileManager : M unit :=
  s <- this ;;
  match fileManagerFrame s with
  | None => ret tt
  | Some _ =>
      emit (WaitForSelector (selectors_closeBtn (config s)) false) ;;
      emit (PageClick (selectors_closeBtn (config s))) ;;
      assign (set_fileManagerFrame None)
  end.

(** [Cartmin.close]; the page and token fields are not modelled. *)
Definition close : M unit :=
  s <- this ;;
  match browser s with
  | None => ret tt
  | Some _ =>
      emit BrowserClose ;;
      assign (set_browser None) ;;
      assign (set_fileManagerFrame None) ;;
      assign (set_gate false None None) ;;
      assign (set_curDirFiles None)
  end.

(** *** Locating a file *)

(** The class [[^\\/\.]]. *)
Definition leafChar (c : ascii) : bool :=
  negb (Ascii.eqb c (ascii_of_nat 92)) &&
  negb (Ascii.eqb c "/") && negb (Ascii.eqb c ".").

Fixpoint allLeafChars (s : string) : bool :=
  match s with
  | EmptyString => true
  | String c s' => leafChar c && allLeafChars s'
  end.

(** The rest of [s] after its longest prefix of class characters, and
    whether that prefix is non-empty. *)
Fixpoint afterLeafChars (s : string) (some : bool) : bool * string :=
  match s with
  | EmptyString => (some, EmptyString)
  | String c s' => if leafChar c then afterLeafChars s' true else (some, s)
  end.

(** [s] as a whole is matched by [(([^\\/\.]+)\.)?([^\\/\.]+)$]: one run
    of class characters, or two runs joined by one dot. *)
Definition matchesWhole (s : string) : bool :=
  match afterLeafChars s false with
  | (true, EmptyString) => true
  | (true, String c r) =>
      Ascii.eqb c "." && allLeafChars r &&
      negb (String.eqb r EmptyString)
  | (false, _) => false
  end.

(** [fileName.match(/(([^\\/\.]+)\.)?([^\\/\.]+)$/)?.[0]]: the pattern is
    anchored at the end, so the match is the longest suffix it accepts
    (the leftmost start); [None] is [undefined]. *)
Fixpoint clearFileName (fileName : string) : option string :=
  if matchesWhole fileName then Some fileName
  else
    match fileName with
    | EmptyString => None
    | String _ rest => clearFileName rest
    end.

Fixpoint domIndexFrom (i : nat) (list : list string) (fileName : string)
    : nat :=
  match list with
  | [] => 0
  | text :: rest =>
      if startsWith (trim text) fileName then i + 1
      else domIndexFrom (S i) rest fileName
  end.

(** The page function: index + 1 of the first entry whose trimmed text
    starts with [fileName], 0 when there is none. *)
Definition getFileIndexInFileManagerDOM (list : list string)
    (fileName : string) : nat :=
  domIndexFrom 0 list fileName.

Definition getFileIndexInFileManager (fileName : string) : M Z :=
  match clearFileName fileName with
  | None => ret (-1)%Z
  | Some clearedFileName =>
      s <- this ;;
      match curDirFiles s with
      | None => throw TypeError
      | Some files =>
          match find (fun name => startsWith name clearedFileName) files with
          | None | Some EmptyString => ret (-1)%Z
          | Some _ =>
              let list := selectors_list (config s) in
              emit (WaitForFunction list clearedFileName) ;;
              fun s w =>
                match getFileIndexInFileManagerDOM (dom w) clearedFileName with
                | 0 => (Throw WaitTimeout, s, w)
                | S i =>
                    (Ok (Z.of_nat (S i) - 1)%Z, s,
                     record (Evaluate list clearedFileName) w)
                end
          end
      end
  end.

(** The element handle is stood for by its index in the list. *)
Definition getFileFromFileManager (fileName : string) : M (option nat) :=
  s <- this ;;
  match fileManagerFrame s with
  | None => throw FileManagerClosed
  | Some _ =>
      index <- getFileIndexInFileManager fileName ;;
      if Z.eqb index (-1) then ret None
      else
        emit (ScrollIntoView (selectors_list (config s)) (Z.to_nat index)) ;;
        ret (Some (Z.to_nat index))
  end.

Definition selectFileInFileManager (fileName : string) : M bool :=
  file <- getFileFromFileManager fileName ;;
  s <- this ;;
  match file with
  | Some i => emit (ClickEntry (selectors_list (config s)) i 1) ;; ret true
  | None => ret false
  end.

Definition uploadFileToPage (fileName : string) : M bool :=
  file <- getFileFromFileManager fileName ;;
  s <- this ;;
  match file with
  | Some i =>
      emit (ClickEntry (selectors_list (config s)) i 2) ;;
      assign (set_fileManagerFrame None) ;;
      ret true
  | None => ret false
  end.

(** *** Uploading files *)

(** An element of the [paths] array. *)
Inductive jsValue : Type :=
| JsString (s : string)
| JsOther.

(** Modelled from the spec: [is.js] is not among the sources.  The batch
    keeps the inputs that are existing local files, so [is.string] is
    taken to hold of the strings of the array and of nothing else. *)
Definition is_string (v : jsValue) : bool :=
  match v with
  | JsString _ => true
  | JsOther => false
  end.

(** The promise of [closeBrowserDialogPromise]: the dialog is accepted and
    its message compared with the configured success message. *)
Definition closeBrowserDialogPromise (timeout : Z) : M bool :=
  fun s w =>
    let w' := set_dialogs (tl (dialogs w)) w in
    match hd None (dialogs w) with
    | None => (Throw (TimeoutExceeded timeout), s, w')
    | Some message =>
        (Ok (includes message (options_successMsg (config s))), s,
         record AcceptDialog w')
    end.

(** The [for (const path of paths)] loop of [uploadFilesToFileManager];
    [uploaded.push(path)] appends. *)
Fixpoint uploadEach (uploadBtn : string) (paths : list jsValue)
    (uploaded : list string) : M (list string) :=
  match paths with
  | [] => ret uploaded
  | JsOther :: rest => uploadEach uploadBtn rest uploaded
  | JsString path :: rest =>
      fun s w =>
        if negb (is_string (JsString path)) || negb (existsSync w path)
        then uploadEach uploadBtn rest uploaded s w
        else
          (emit (FileChooser uploadBtn) ;;
           isUploaded <- promiseAll (closeBrowserDialogPromise 30000)
                                    (emit (AcceptFiles path)) ;;
           uploadEach uploadBtn rest
             (if isUploaded then uploaded ++ [path] else uploaded)) s w
  end.

Definition uploadFilesToFileManager (paths : list jsValue)
    : M (list string) :=
  s <- this ;;
  match fileManagerFrame s with
  | None => throw FileManagerClosed
  | Some _ =>
      let uploadBtn := selectors_uploadBtn (config s) in
      emit (WaitForSelector uploadBtn false) ;;
      uploadEach uploadBtn paths []
  end.

(** ** Reading a run *)

Definition result {A : Type} (r : outcome A * State * World) : outcome A :=
  fst (fst r).
Definition stateOf {A : Type} (r : outcome A * State * World) : State :=
  snd (fst r).
Definition worldOf {A : Type} (r : outcome A * State * World) : World :=
  snd r.

(** The selectors closed ([closeDir]), in order. *)
Fixpoint closes (es : list event) : list string :=
  match es with
  | [] => []
  | CloseClass sel :: rest => sel :: closes rest
  | _ :: rest => closes rest
  end.

(** Every click issued on a directory, acknowledged or not. *)
Fixpoint clicksIssued (es : list event) : list (string * nat) :=
  match es with
  | [] => []
  | Click sel n :: rest => (sel, n) :: clicksIssued rest
  | ClickRace sel n _ _ :: rest => (sel, n) :: clicksIssued rest
  | _ :: rest => clicksIssued rest
  end.

(** How a directory was activated: a click retried until acknowledged, or
    a single click that is not checked. *)
Inductive activation : Type :=
| Confirmed (selector : string) (count : nat)
| Unchecked (selector : string) (count : nat).

(** The activations that took effect: unchecked clicks and the
    acknowledged click of each race. *)
Fixpoint activations (es : list event) : list activation :=
  match es with
  | [] => []
  | Click sel n :: rest => Unchecked sel n :: activations rest
  | ClickRace sel n _ true :: rest => Confirmed sel n :: activations rest
  | _ :: rest => activations rest
  end.

(** [clickDir path count] as an activation. *)
Definition activationOf (path : string) (count : nat) : activation :=
  match path with
  | EmptyString => Unchecked (getDirSelector path) count
  | _ => Confirmed (getDirSelector path) count
  end.

(** The listing waits installed in a log ([page.on('response', ...)]
    with its timer), by their timeouts. *)
Fixpoint listingWaits (es : list event) : list Z :=
  match es with
  | [] => []
  | OnResponse timeout :: rest => timeout :: listingWaits rest
  | _ :: rest => listingWaits rest
  end.

(** What a run from [w] to [w'] added to the log. *)
Definition sinceLog (w w' : World) : list event :=
  skipn (List.length (log w)) (log w').

(** ** Vocabulary of the statements *)

(** The parent chain of a path: the path, its truncations, the root. *)
Equations? chain (p : string) : list string by wf (String.length p) lt :=
  chain p with string_dec p "" => {
    | left _ => [""];
    | right _ => p :: chain (parent p) }.
Proof. apply parent_shorter; assumption. Qed.

(** The members of a chain that come before [A]. *)
Fixpoint strictlyBelow (A : string) (l : list string) : list string :=
  match l with
  | [] => []
  | x :: rest => if String.eqb x A then [] else x :: strictlyBelow A rest
  end.

(** Number of acknowledgements still to come. *)
Definition trues (l : list bool) : nat := List.length (filter (fun b => b) l).

(** How the listing wait of a navigation to [path] started in [s] ends:
    the requests of the wait against the gate armed for [path]. *)
Definition listingOutcome (s : State) (w : World) (path : string)
    : settlement :=
  fst (handleResponses (allowXhr (Some (listingPayload path)) true s)
         (hd [] (traffic w))).

(** [w'] is [w] after the driver calls [es]: the log has grown by [es]
    and nothing but the pending acknowledgements has been consumed. *)
Definition evolves (w w' : World) (es : list event) : Prop :=
  log w' = (log w ++ es)%list /\
  traffic w' = traffic w /\
  dom w' = dom w /\
  existsSync w' = existsSync w /\
  dialogs w' = dialogs w /\
  frames w' = frames w.

(** The driver calls of a tear-down from the cursor to its ancestor [A]:
    the wait for the cursor's element, then one close for each directory
    of the cursor's chain below [A], deepest first, and one for [A]. *)
Definition tearDown (cursor A : string) : list event :=
  WaitForSelector (getDirSelector cursor) true
    :: map (fun x => CloseClass (getDirSelector x))
         (strictlyBelow A (chain cursor) ++ [A]).

(** The click an activation is made of. *)
Definition clickOf (a : activation) : string * nat :=
  match a with
  | Confirmed selector count => (selector, count)
  | Unchecked selector count => (selector, count)
  end.

(** Driver calls among which nothing is closed and no listing wait is
    installed, whose clicks that took effect are [acts], and whose every
    click, acknowledged or not, is the click of one of [acts]. *)
Definition clicksOnly (es : list event) (acts : list activation) : Prop :=
  closes es = [] /\ listingWaits es = [] /\ activations es = acts /\
  incl (clicksIssued es) (map clickOf acts).

(** The directories clicked by a navigation from ancestor [A] to [p]:
    [A] itself, then the chain of [p] below [A], top down. *)
Definition opened (A p : string) : list string :=
  A :: rev (strictlyBelow A (chain p)).

(** The cursor just before the target is clicked. *)
Definition beforeLast (A p : string) : string :=
  last (removelast (opened A p)) A.

(** The state a navigation to [p] leaves, by the outcome of its listing
    wait. *)
Definition settled (A p : string) (s : State) (w : World)
    : outcome unit * State :=
  let armed := allowXhr (Some (listingPayload p)) true s in
  let (got, s') := handleResponses armed (hd [] (traffic w)) in
  match got with
  | Resolved files =>
      (Ok tt,
       set_curDirPath p
         (set_curDirFiles (Some files) (set_curDirPath (beforeLast A p) s')))
  | Rejected =>
      (Throw (TimeoutExceeded 30000), set_curDirPath (beforeLast A p) s')
  | Pending => (Diverge, set_curDirPath (beforeLast A p) s')
  end.

(** The activations of a navigation that clicks [A] and then descends to
    [p]: double on all but the last, and on the last double only for the
    root. *)
Definition plannedActivations (A p : string) : list activation :=
  (map (fun x => activationOf x 2) (removelast (opened A p))
   ++ [activationOf p (if String.eqb p "" then 2 else 1)])%list.

Definition selectorOf (a : activation) : string :=
  match a with
  | Confirmed selector _ => selector
  | Unchecked selector _ => selector
  end.

(** A computation that never touches the session handle. *)
Definition keepsFrame {A : Type} (m : M A) : Prop :=
  forall (s : State) (w : World),
    fileManagerFrame (stateOf (m s w)) = fileManagerFrame s.

(** The dialog reports success. *)
Definition confirms (s : State) (d : option string) : bool :=
  match d with
  | Some message => includes message (options_successMsg (config s))
  | None => false
  end.

(** ** Concrete sessions and worlds *)

(** A sample configuration; [version-config.json] is not among the
    sources, and the theorems hold for every configuration. *)
Definition config0 : Config :=
  {| paths_fileManagerFiles := "common/filemanager/files";
     selectors_frame := "#dialog > iframe";
     selectors_closeBtn := ".ui-dialog-titlebar-close";
     selectors_uploadBtn := "#upload";
     selectors_list := "#column-right a";
     options_successMsg := "uploaded" |}.

(** A world in which every click is acknowledged at once [n] times and
    nothing else happens. *)
Definition quiet (n : nat) : World :=
  {| log := []; acks := repeat true n; traffic := []; dom := [];
     existsSync := fun _ => false; dialogs := []; frames := 0 |}.

Definition session0 : State :=
  set_fileManagerFrame (Some (Handle 0)) (constructor None config0).

Definition listingRequest (payload : string) : Request :=
  {| resourceType := "xhr";
     url := "http://shop.test/admin/index.php?route=common/filemanager/files";
     method := "POST";
     postData := Some payload |}.

(** A world that acknowledges [n] clicks at once and answers the listing
    request of each successive navigation target. *)
Definition serving (listings : list (string * list string)) (n : nat)
    : World :=
  {| log := []; acks := repeat true n;
     traffic :=
       map (fun l => [ {| request := listingRequest (listingPayload (fst l));
                          reply := Listing (snd l) |} ]) listings;
     dom := []; existsSync := fun _ => false; dialogs := []; frames := 1 |}.

Definition petsState : State :=
  set_curDirFiles (Some ["cat.png"; "dog.jpg"]) session0.

Definition petsWorld : World :=
  {| log := []; acks := []; traffic := [];
     dom := ["cat.png"; "dog.jpg"];
     existsSync := fun _ => false; dialogs := []; frames := 1 |}.

Definition uploadWorld : World :=
  {| log := []; acks := []; traffic := []; dom := [];
     existsSync := fun p => String.eqb p "/tmp/a.png" || String.eqb p "/tmp/b.png";
     dialogs := [Some "a.png uploaded"; Some "b.png uploaded"];
     frames := 1 |}.

(** ** [url.js]: the session token in a URL *)

Module Url.

(** The class [\w]: letters, digits and the underscore. *)
Definition wordChar (c : ascii) : bool :=
  let n := nat_of_ascii c in
  (Nat.leb 48 n && Nat.leb n 57) ||
  (Nat.leb 65 n && Nat.leb n 90) ||
  (Nat.leb 97 n && Nat.leb n 122) ||
  Nat.eqb n 95.

Fixpoint allWord (s : string) : bool :=
  match s with
  | EmptyString => true
  | String c s' => wordChar c && allWord s'
  end.

(** The longest prefix of word characters: what a greedy [\w*] takes. *)
Fixpoint takeWord (s : string) : string :=
  match s with
  | EmptyString => EmptyString
  | String c s' => if wordChar c then String c (takeWord s') else EmptyString
  end.

(** What follows [p] at the head of [s], when [s] starts with [p]. *)
Fixpoint afterPrefix (p s : string) : option string :=
  match p, s with
  | EmptyString, _ => Some s
  | String a p', String b s' =>
      if Ascii.eqb a b then afterPrefix p' s' else None
  | String _ _, EmptyString => None
  end.

(** [s.replace(pat, r)] with a string pattern: the first occurrence. *)
Fixpoint replaceString (s pat r : string) : string :=
  match afterPrefix pat s with
  | Some rest => r ++ rest
  | None =>
      match s with
      | EmptyString => EmptyString
      | String c s' => String c (replaceString s' pat r)
      end
  end.

(** [url.match(/token=\w*/)]: the leftmost [token=] with the word
    characters after it; [None] is [null]. *)
Fixpoint matchToken (url : string) : option string :=
  match afterPrefix "token=" url with
  | Some rest => Some ("token=" ++ takeWord rest)
  | None =>
      match url with
      | EmptyString => None
      | String _ url' => matchToken url'
      end
  end.

(** [extractToken]; indexing the [null] of a failed match is the
    [TypeError]. *)
Definition extractToken (url : string) : outcome string :=
  match matchToken url with
  | None => Throw TypeError
  | Some tokenStr => Ok (replaceString tokenStr "token=" "")
  end.

(** [url.replace(/&token=\w*$/, '')]: the leftmost [&token=] that only
    word characters separate from the end is cut off with them. *)
Fixpoint clearToken (url : string) : string :=
  let keep :=
    match url with
    | EmptyString => EmptyString
    | String c url' => String c (clearToken url')
    end in
  match afterPrefix "&token=" url with
  | Some rest => if allWord rest then EmptyString else keep
  | None => keep
  end.

Definition tokenizeUrl (url token : string) : string :=
  clearToken url ++ "&token=" ++ token.

End Url.

(** ** Vocabulary of the further statements *)

(** The request reached the network. *)
Definition forwarded (d : decision) : bool :=
  match d with
  | Continue => true
  | _ => false
  end.

(** The tracked requests of a run that were forwarded. *)
Definition forwardedTracked (s : State) (reqs : list Request)
    (ds : list decision) : list (Request * decision) :=
  filter (fun rd => tracked s (fst rd) && forwarded (snd rd))
         (combine reqs ds).

(** The strings among the elements of a [paths] array, in order. *)
Fixpoint stringsOf (paths : list jsValue) : list string :=
  match paths with
  | [] => []
  | JsString p :: rest => p :: stringsOf rest
  | JsOther :: rest => stringsOf rest
  end.

(** [l] is [l'] with some of its members left out. *)
Inductive subsequence : list string -> list string -> Prop :=
| subsequence_nil : subsequence [] []
| subsequence_skip (x : string) (l l' : list string) :
    subsequence l l' -> subsequence l (x :: l')
| subsequence_keep (x : string) (l l' : list string) :
    subsequence l l' -> subsequence (x :: l) (x :: l').

(** The file choosers opened in a log. *)
Fixpoint choosers (es : list event) : nat :=
  match es with
  | [] => 0
  | FileChooser _ :: rest => S (choosers rest)
  | _ :: rest => choosers rest
  end.

(** The strings of a [paths] array that exist locally, in order: the
    elements that pass the guard of the upload loop. *)
Definition existingFiles (w : World) (paths : list jsValue) : list string :=
  filter (existsSync w) (stringsOf paths).

(** Of [files] uploaded one by one and answered by the dialog [messages]
    in turn, those whose dialog holds the success message. *)
Definition reported (s : State) (files messages : list string)
    : list string :=
  map fst
    (filter (fun fm => includes (snd fm) (options_successMsg (config s)))
       (combine files messages)).

(** The exchange is a tracked request for the listing of [path]. *)
Definition wantedListing (s : State) (path : string) (ex : Exchange)
    : bool :=
  tracked s (request ex) &&
  strictEq (postData (request ex)) (Some (listingPayload path)).

(** The characters of [s] that are [/] or the backslash. *)
Fixpoint separators (s : string) : nat :=
  match s with
  | EmptyString => 0
  | String c s' =>
      (if Ascii.eqb c "/" || Ascii.eqb c (ascii_of_nat 92) then 1 else 0)
      + separators s'
  end.

(** The characters of [s] outside the class [[^\\/\.]]. *)
Fixpoint nonLeafChars (s : string) : nat :=
  match s with
  | EmptyString => 0
  | String c s' => (if leafChar c then 0 else 1) + nonLeafChars s'
  end.

(** The entry matches: its trimmed text starts with [fileName]. *)
Definition entryMatches (fileName text : string) : bool :=
  startsWith (trim text) fileName.

(** * Properties *)

(** ** The primitives on small inputs *)

Example parent_examples :
  parent "2024/spring" = "2024" /\ parent "2024" = "" /\ parent "" = "".
Proof. repeat split; reflexivity. Qed.

Example chain_example : chain "a/b/c" = ["a/b/c"; "a/b"; "a"; ""].
Proof. reflexivity. Qed.

Example nearestIncluded_examples :
  nearestIncluded "a/b" "a/c" = "a" /\
  nearestIncluded "" "2024/spring" = "" /\
  nearestIncluded "a/b" "a/b/c/d" = "a/b" /\
  nearestIncluded "a/b" "b/c" = "b".
Proof. repeat split; reflexivity. Qed.

Example opened_example : opened "a" "a/b/c" = ["a"; "a/b"; "a/b/c"].
Proof. reflexivity. Qed.

Example clearFileName_examples :
  clearFileName "/tmp/a.png" = Some "a.png" /\
  clearFileName "dog" = Some "dog" /\
  clearFileName "a.b.c" = Some "b.c" /\
  clearFileName "dir/" = None /\
  clearFileName "" = None.
Proof. repeat split; reflexivity. Qed.

Example trim_example : trim "  dog.jpg " = "dog.jpg".
Proof. reflexivity. Qed.

(** ** The request gate *)

Lemma tracked_config (s s' : State) (req : Request) :
  config s' = config s -> tracked s' req = tracked s req.
Proof. unfold tracked. intros ->. reflexivity. Qed.

Lemma onRequest_keeps (s : State) (req : Request) :
  let s' := snd (onRequest s req) in
  config s' = config s /\
  allowedXhrPostData s' = allowedXhrPostData s /\
  blockRepetitiveXhr s' = blockRepetitiveXhr s /\
  fileManagerFrame s' = fileManagerFrame s /\
  curDirPath s' = curDirPath s /\
  curDirFiles s' = curDirFiles s /\
  browser s' = browser s.
Proof.
  unfold onRequest.
  destruct (tracked s req); [|simpl; tauto].
  destruct (negb _); [simpl; tauto|].
  match goal with |- context [if ?c then _ else _] => destruct c end;
    simpl; tauto.
Qed.

Lemma onRequests_keeps (reqs : list Request) :
  forall s : State,
    config (snd (onRequests s reqs)) = config s /\
    allowedXhrPostData (snd (onRequests s reqs)) = allowedXhrPostData s.
Proof.
  induction reqs as [|req rest IH]; intros s; simpl; [tauto|].
  pose proof (onRequest_keeps s req) as K. simpl in K.
  destruct (onRequest s req) as [d s1]. simpl in K.
  specialize (IH s1). destruct (onRequests s1 rest) as [ds s2]. simpl in *.
  destruct K as (K1 & K2 & _). destruct IH as (I1 & I2).
  split; congruence.
Qed.

Lemma strictEq_true (a b : option string) :
  strictEq a b = true -> exists K, a = Some K /\ b = Some K.
Proof.
  destruct a as [x|], b as [y|]; simpl; try discriminate.
  intros H. apply String.eqb_eq in H. subst. eauto.
Qed.

Lemma strictEq_refl (K : string) : strictEq (Some K) (Some K) = true.
Proof. simpl. apply String.eqb_refl. Qed.

(** A tracked request that is let through carries the armed payload. *)
Lemma onRequest_continue (s : State) (req : Request) :
  tracked s req = true ->
  fst (onRequest s req) = Continue ->
  strictEq (postData req) (allowedXhrPostData s) = true.
Proof.
  unfold onRequest. intros ->.
  destruct (strictEq (postData req) (allowedXhrPostData s)); simpl;
    [reflexivity | discriminate].
Qed.

Lemma passOn_tracked (s : State) (req : Request) :
  tracked s req = true -> passOn req = Continue.
Proof.
  unfold tracked, passOn. intros H.
  apply andb_true_iff in H. destruct H as [H _].
  apply andb_true_iff in H. destruct H as [H _].
  apply String.eqb_eq in H. rewrite H. reflexivity.
Qed.

(** Letting a tracked request through records the armed payload as the
    last one seen. *)
Lemma onRequest_last (s : State) (req : Request) :
  tracked s req = true ->
  fst (onRequest s req) = Continue ->
  lastXhrPostData (snd (onRequest s req)) = allowedXhrPostData s.
Proof.
  unfold onRequest. intros ->.
  destruct (strictEq (postData req) (allowedXhrPostData s)); simpl negb;
    cbv iota; [|discriminate].
  match goal with |- context [if ?c then _ else _] => destruct c end;
    intros _; reflexivity.
Qed.

(** With duplicate blocking on, a tracked request repeating the payload
    last seen is answered with the empty response. *)
Lemma onRequest_repeated (s : State) (req : Request) (K : string) :
  tracked s req = true ->
  postData req = Some K ->
  allowedXhrPostData s = Some K ->
  lastXhrPostData s = Some K ->
  blockRepetitiveXhr s = true ->
  fst (onRequest s req) = RespondEmpty.
Proof.
  intros Ht HK Ha Hl Hb. unfold onRequest.
  rewrite Ht, HK, Ha, Hl, strictEq_refl. simpl. rewrite Hb. reflexivity.
Qed.

(** While the gate is disarmed every tracked request is answered with the
    empty response. *)
Lemma onRequests_disarmed (reqs : list Request) :
  forall s : State,
    allowedXhrPostData s = None ->
    forall (req : Request) (d : decision),
      In (req, d) (combine reqs (fst (onRequests s reqs))) ->
      tracked s req = true -> d = RespondEmpty.
Proof.
  induction reqs as [|r rest IH]; intros s Hs req d Hin Ht; simpl in Hin;
    [contradiction|].
  pose proof (onRequest_keeps s r) as K. simpl in K.
  destruct (onRequest s r) as [d1 s1] eqn:E1. simpl in K.
  destruct (onRequests s1 rest) as [ds s2] eqn:E2. simpl in Hin.
  destruct Hin as [Hin|Hin].
  - inversion Hin; subst. unfold onRequest in E1. rewrite Ht, Hs in E1.
    destruct (postData req); simpl in E1; inversion E1; reflexivity.
  - destruct K as (K1 & K2 & _).
    assert (Hs1 : allowedXhrPostData s1 = None) by congruence.
    apply (IH s1 Hs1 req d); [rewrite E2; exact Hin |].
    rewrite (tracked_config _ _ req K1). exact Ht.
Qed.

(** C3: a tracked request with payload [K] reaches the network only while
    the gate is armed with [K], and the first one after arming does; with
    duplicate blocking on, a request repeating the payload of the one just
    forwarded is answered with the empty response; once disarmed
    ([allowXhr(null)]), no tracked request of any later sequence is
    forwarded. *)
Theorem gate_forwards_only_armed_payload
    (s : State) (K : string) (block : bool) (req again : Request) :
  tracked s req = true ->
  postData req = Some K ->
  tracked s again = true ->
  postData again = Some K ->
  (forall (allowed : option string) (before : list Request),
      fst (onRequest (snd (onRequests (allowXhr allowed block s) before)) req)
        = Continue ->
      allowed = Some K) /\
  fst (onRequest (allowXhr (Some K) block s) req) = Continue /\
  (forall s1 : State,
      config s1 = config s ->
      blockRepetitiveXhr s1 = true ->
      fst (onRequest s1 req) = Continue ->
      fst (onRequest (snd (onRequest s1 req)) again) = RespondEmpty) /\
  (forall (reqs : list Request) (r : Request) (d : decision),
      In (r, d)
         (combine reqs (fst (onRequests (allowXhr None block s) reqs))) ->
      tracked s r = true -> d = RespondEmpty).
Proof.
  intros Ht HK Ht2 HK2. repeat split.
  - intros allowed before Hc.
    pose proof (onRequests_keeps before (allowXhr allowed block s)) as [Kc Ka].
    assert (Ht' : tracked (snd (onRequests (allowXhr allowed block s) before))
                    req = true)
      by (rewrite (tracked_config _ _ req Kc); exact Ht).
    apply (onRequest_continue _ _ Ht') in Hc.
    rewrite HK, Ka in Hc. simpl allowedXhrPostData in Hc.
    apply strictEq_true in Hc. destruct Hc as (K' & E1 & E2). congruence.
  - unfold onRequest.
    replace (tracked (allowXhr (Some K) block s) req) with true
      by (symmetry; exact Ht).
    rewrite HK. simpl allowedXhrPostData. rewrite strictEq_refl.
    simpl negb. cbv iota. simpl lastXhrPostData.
    rewrite andb_false_r. apply (passOn_tracked s req Ht).
  - intros s1 Hc Hb Hfw.
    assert (Ht1 : tracked s1 req = true)
      by (rewrite (tracked_config _ _ req Hc); exact Ht).
    pose proof (onRequest_continue s1 req Ht1 Hfw) as Heq.
    rewrite HK in Heq. apply strictEq_true in Heq.
    destruct Heq as (K' & E1 & E2). inversion E1; subst K'.
    pose proof (onRequest_keeps s1 req) as (Kc & Ka & Kb & _).
    pose proof (onRequest_last s1 req Ht1 Hfw) as Kl.
    apply onRequest_repeated with (K := K); try congruence.
    rewrite (tracked_config _ _ again Kc), (tracked_config _ _ again Hc).
    exact Ht2.
  - intros reqs r d Hin Hr.
    apply (onRequests_disarmed reqs (allowXhr None block s) (eq_refl) r d Hin).
    exact Hr.
Qed.

(** ** The payload key of a listing *)

Lemma replace_first_slash (a rest : string) :
  count "/" a = 0 ->
  replace (a ++ String "/" rest) "/" "%2F" = a ++ "%2F" ++ rest.
Proof.
  induction a as [|c a IH]; simpl; intros H; [reflexivity|].
  destruct (Ascii.eqb c "/"); [discriminate|].
  rewrite IH by exact H. reflexivity.
Qed.

Lemma split_first_slash (p : string) :
  1 <= count "/" p ->
  exists a rest,
    p = a ++ String "/" rest /\ count "/" a = 0 /\
    count "/" p = S (count "/" rest).
Proof.
  induction p as [|c p IH]; simpl; intros H; [lia|].
  destruct (Ascii.eqb c "/") eqn:E.
  - apply Ascii.eqb_eq in E. subst c.
    exists "", p. simpl. auto.
  - destruct (IH H) as (a & rest & Hp & Ha & Hc).
    exists (String c a), rest. simpl. rewrite E. subst p. auto.
Qed.

Lemma getDirFilesPromise_arms (path : string) (timeout : Z)
    (s : State) (w : World) :
  getDirFilesPromise path timeout s w =
  (Ok (listingPromise timeout),
   allowXhr (Some (listingPayload path)) true s,
   record (OnResponse timeout) w).
Proof. reflexivity. Qed.

(** C10: for a target with two or more [/], the gate is armed with
    [directory=] followed by the path in which only the first [/] has
    become [%2F]; the later separators stay as they are, as in
    [directory=a%2Fb/c] for [a/b/c]. *)
Theorem listing_payload_encodes_first_slash_only (p : string) :
  2 <= count "/" p ->
  exists a rest,
    p = a ++ "/" ++ rest /\
    count "/" a = 0 /\
    1 <= count "/" rest /\
    listingPayload p = "directory=" ++ a ++ "%2F" ++ rest /\
    (forall (timeout : Z) (s : State) (w : World),
        allowedXhrPostData (stateOf (getDirFilesPromise p timeout s w))
        = Some ("directory=" ++ a ++ "%2F" ++ rest)) /\
    listingPayload "a/b/c" = "directory=a%2Fb/c".
Proof.
  intros H.
  destruct (split_first_slash p) as (a & rest & Hp & Ha & Hc); [lia|].
  exists a, rest.
  assert (Hl : listingPayload p = "directory=" ++ a ++ "%2F" ++ rest).
  { unfold listingPayload. rewrite Hp, replace_first_slash by exact Ha.
    reflexivity. }
  repeat split; try assumption; try lia.
  intros timeout s w. rewrite getDirFilesPromise_arms. simpl. now rewrite Hl.
Qed.

(** ** Confirmed clicks *)

Lemma clickUntilAcknowledged_after (selector : string) (clickCount : nat)
    (n : nat) (rest : list bool) :
  clickUntilAcknowledged selector clickCount
    (repeat false n ++ true :: rest)%list
  = ((repeat (ClickRace selector clickCount 50 false) n
        ++ [ClickRace selector clickCount 50 true])%list,
     rest, true).
Proof.
  induction n as [|n IH]; simpl; [reflexivity|].
  rewrite IH. reflexivity.
Qed.

Lemma log_records (es : list event) (w : World) :
  log (records es w) = (log w ++ es)%list.
Proof. reflexivity. Qed.

Lemma sinceLog_app (w w' : World) (es : list event) :
  log w' = (log w ++ es)%list -> sinceLog w w' = es.
Proof.
  unfold sinceLog. intros ->.
  rewrite skipn_app, skipn_all, Nat.sub_diag. reflexivity.
Qed.

(** A confirmed click acknowledged on attempt [n + 1]. *)
Lemma clickDir_acknowledged_after (path : string) (clickCount n : nat)
    (rest : list bool) (s : State) (w : World) :
  path <> "" ->
  acks w = (repeat false n ++ true :: rest)%list ->
  let selector := getDirSelector path in
  clickDir path clickCount s w =
  (Ok tt, s,
   set_acks rest
     (records (repeat (ClickRace selector clickCount 50 false) n
                 ++ [ClickRace selector clickCount 50 true])%list
        (record (ShowOnly selector) w))).
Proof.
  intros Hp Ha. destruct path as [|c path]; [congruence|].
  unfold clickDir, bind, emit. simpl acks. rewrite Ha.
  rewrite clickUntilAcknowledged_after. reflexivity.
Qed.

(** C9: when the widget acknowledges on the third attempt, [clickDir] on a
    directory other than the root issues exactly three clicks, each raced
    against the 50 ms listener, and returns. *)
Theorem confirmed_click_third_attempt (path : string) (clickCount : nat)
    (s : State) (w : World) (rest : list bool) :
  path <> "" ->
  acks w = false :: false :: true :: rest ->
  let selector := getDirSelector path in
  let r := clickDir path clickCount s w in
  result r = Ok tt /\
  stateOf r = s /\
  sinceLog w (worldOf r) =
    [ShowOnly selector;
     ClickRace selector clickCount 50 false;
     ClickRace selector clickCount 50 false;
     ClickRace selector clickCount 50 true] /\
  clicksIssued (sinceLog w (worldOf r)) =
    [(selector, clickCount); (selector, clickCount); (selector, clickCount)] /\
  acks (worldOf r) = rest.
Proof.
  intros Hp Ha selector r.
  pose proof (clickDir_acknowledged_after path clickCount 2 rest s w Hp Ha)
    as E.
  cbv zeta in E. fold selector in E. subst r. rewrite E.
  unfold result, stateOf, worldOf. cbn [fst snd].
  rewrite (sinceLog_app w _
             [ShowOnly selector;
              ClickRace selector clickCount 50 false;
              ClickRace selector clickCount 50 false;
              ClickRace selector clickCount 50 true])
    by (simpl; rewrite <- app_assoc; reflexivity).
  repeat split; reflexivity.
Qed.

(** ** Worlds and logs *)

Lemma evolves_refl (w : World) : evolves w w [].
Proof. unfold evolves. rewrite app_nil_r. tauto. Qed.

Lemma evolves_trans (w1 w2 w3 : World) (es1 es2 : list event) :
  evolves w1 w2 es1 -> evolves w2 w3 es2 -> evolves w1 w3 (es1 ++ es2).
Proof.
  unfold evolves.
  intros (L1 & T1 & D1 & X1 & G1 & F1) (L2 & T2 & D2 & X2 & G2 & F2).
  rewrite L2, L1, app_assoc. repeat split; congruence.
Qed.

Lemma evolves_record (e : event) (w : World) : evolves w (record e w) [e].
Proof. unfold evolves. simpl. tauto. Qed.

Lemma evolves_records (es : list event) (w : World) :
  evolves w (records es w) es.
Proof. unfold evolves. simpl. tauto. Qed.

Lemma evolves_set_acks (a : list bool) (w w' : World) (es : list event) :
  evolves w w' es -> evolves w (set_acks a w') es.
Proof. unfold evolves. simpl. tauto. Qed.

Lemma evolves_sinceLog (w w' : World) (es : list event) :
  evolves w w' es -> sinceLog w w' = es.
Proof. intros (L & _). now apply sinceLog_app. Qed.

Lemma record_as_records (e : event) (w : World) :
  record e w = records [e] w.
Proof. reflexivity. Qed.

Lemma records_nil (w : World) : records [] w = w.
Proof. destruct w. unfold records. simpl. rewrite app_nil_r. reflexivity. Qed.

Lemma records_records (es1 es2 : list event) (w : World) :
  records es2 (records es1 w) = records (es1 ++ es2) w.
Proof. unfold records. simpl. rewrite app_assoc. reflexivity. Qed.

Lemma set_curDirPath_same (s : State) : set_curDirPath (curDirPath s) s = s.
Proof. destruct s. reflexivity. Qed.

Lemma closes_app (es1 es2 : list event) :
  closes (es1 ++ es2) = (closes es1 ++ closes es2)%list.
Proof.
  induction es1 as [|e es1 IH]; simpl; [reflexivity|].
  destruct e; simpl; rewrite IH; reflexivity.
Qed.

Lemma activations_app (es1 es2 : list event) :
  activations (es1 ++ es2) = (activations es1 ++ activations es2)%list.
Proof.
  induction es1 as [|e es1 IH]; simpl; [reflexivity|].
  destruct e as [| | | | ? ? ? [|] | | | | | | | | | | | |]; simpl;
    rewrite IH; reflexivity.
Qed.

Lemma clicksIssued_app (es es' : list event) :
  clicksIssued (es ++ es')%list = (clicksIssued es ++ clicksIssued es')%list.
Proof.
  induction es as [|e es IH]; [reflexivity|].
  destruct e; cbn [app clicksIssued]; rewrite IH; reflexivity.
Qed.

Lemma listingWaits_app (es1 es2 : list event) :
  listingWaits (es1 ++ es2) = (listingWaits es1 ++ listingWaits es2)%list.
Proof.
  induction es1 as [|e es1 IH]; simpl; [reflexivity|].
  destruct e; simpl; rewrite IH; reflexivity.
Qed.

Lemma closes_map_CloseClass (l : list string) :
  closes (map (fun x => CloseClass (getDirSelector x)) l)
  = map getDirSelector l.
Proof. induction l as [|x l IH]; simpl; [|rewrite IH]; reflexivity. Qed.

Lemma activations_map_CloseClass (l : list string) :
  activations (map (fun x => CloseClass (getDirSelector x)) l) = [].
Proof. induction l as [|x l IH]; simpl; [|rewrite IH]; reflexivity. Qed.

(** ** Paths *)

Lemma chain_root : chain "" = [""].
Proof. reflexivity. Qed.

Lemma chain_step (p : string) : p <> "" -> chain p = p :: chain (parent p).
Proof.
  intros Hp. rewrite chain_equation_1. destruct (string_dec p "");
    [contradiction | reflexivity].
Qed.

Lemma chain_head (p : string) : exists l, chain p = p :: l.
Proof.
  destruct (string_dec p "") as [->|Hp].
  - exists []. reflexivity.
  - exists (chain (parent p)). now apply chain_step.
Qed.

Lemma in_chain_self (p : string) : In p (chain p).
Proof. destruct (chain_head p) as [l ->]. now left. Qed.

Lemma root_in_chain (p : string) : In "" (chain p).
Proof.
  remember (String.length p) as n eqn:Hn. revert p Hn.
  induction n as [n IH] using lt_wf_ind. intros p Hn.
  destruct (string_dec p "") as [->|Hp]; [now left|].
  rewrite chain_step by exact Hp. right.
  apply (IH (String.length (parent p))); [|reflexivity].
  subst n. now apply parent_shorter.
Qed.

Lemma in_chain_cases (A p : string) :
  In A (chain p) -> A = p \/ (p <> "" /\ In A (chain (parent p))).
Proof.
  destruct (string_dec p "") as [->|Hp].
  - simpl. intros [H|[]]. now left.
  - rewrite chain_step by exact Hp. intros [H|H]; [left|right]; auto.
Qed.

Lemma strictlyBelow_self (p : string) : strictlyBelow p (chain p) = [].
Proof.
  destruct (chain_head p) as [l ->]. simpl. now rewrite String.eqb_refl.
Qed.

Lemma strictlyBelow_step (A p : string) :
  p <> A -> p <> "" ->
  strictlyBelow A (chain p) = p :: strictlyBelow A (chain (parent p)).
Proof.
  intros HA Hp. rewrite chain_step by exact Hp. simpl.
  destruct (String.eqb_spec p A); [contradiction | reflexivity].
Qed.

Lemma prefix_length (t s : string) :
  String.prefix t s = true -> String.length t <= String.length s.
Proof.
  revert s. induction t as [|c t IH]; intros [|d s]; simpl; try lia;
    try discriminate.
  destruct (ascii_dec c d); [|discriminate]. intros H. apply IH in H. lia.
Qed.

Lemma includes_length (s t : string) :
  includes s t = true -> String.length t <= String.length s.
Proof.
  induction s as [|c s IH]; cbn [includes]; intros H.
  - rewrite orb_false_r in H. now apply prefix_length in H.
  - apply orb_true_iff in H. destruct H as [H|H].
    + now apply prefix_length in H.
    + apply IH in H. simpl. lia.
Qed.

Lemma prefix_refl (s : string) : String.prefix s s = true.
Proof.
  induction s as [|c s IH]; simpl; [reflexivity|].
  destruct (ascii_dec c c); [exact IH | congruence].
Qed.

Lemma includes_refl (s : string) : includes s s = true.
Proof. destruct s; simpl; [reflexivity|]. rewrite prefix_refl.
  destruct (ascii_dec a a); [reflexivity | congruence]. Qed.

Lemma includes_empty (s : string) : includes s "" = true.
Proof. destruct s; reflexivity. Qed.

(** The ancestor found by the search lies on the target's parent chain. *)
Lemma nearestIncluded_in_chain (cur p : string) :
  In (nearestIncluded cur p) (chain p).
Proof.
  funelim (nearestIncluded cur p).
  - apply in_chain_self.
  - rewrite e. apply root_in_chain.
  - assert (Hp : path <> "") by (intros ->; apply n; reflexivity).
    rewrite chain_step by exact Hp. right. exact H.
Qed.

Lemma prefix_substring0 (n : nat) (s : string) :
  String.prefix (String.substring 0 n s) s = true.
Proof.
  revert n. induction s as [|c s IH]; intros [|n]; simpl; try reflexivity.
  destruct (ascii_dec c c); [apply IH | congruence].
Qed.

Lemma parent_prefix (p : string) : String.prefix (parent p) p = true.
Proof.
  unfold parent, substring.
  replace (clamp p 0) with 0 by (unfold clamp; lia).
  cbn [Nat.min Nat.max]. rewrite Nat.sub_0_r. apply prefix_substring0.
Qed.

Lemma prefix_trans (a b c : string) :
  String.prefix a b = true -> String.prefix b c = true ->
  String.prefix a c = true.
Proof.
  revert b c. induction a as [|x a IH]; intros [|y b] [|z c]; simpl;
    try reflexivity; try discriminate.
  destruct (ascii_dec x y) as [->|]; [|discriminate].
  destruct (ascii_dec y z) as [->|]; [|discriminate].
  apply IH.
Qed.

Lemma includes_of_prefix (s u t : string) :
  String.prefix s u = true -> includes s t = true -> includes u t = true.
Proof.
  revert u. induction s as [|c s IH]; intros u Hp Hi.
  - cbn [includes] in Hi. rewrite orb_false_r in Hi.
    destruct t; [apply includes_empty | discriminate].
  - destruct u as [|d u]; [discriminate|].
    pose proof Hp as Hp'. simpl in Hp'.
    destruct (ascii_dec c d) as [->|]; [|discriminate].
    cbn [includes] in *. apply orb_true_iff in Hi. apply orb_true_iff.
    destruct Hi as [Hi|Hi].
    + left. apply (prefix_trans _ _ _ Hi Hp).
    + right. apply IH; assumption.
Qed.

(** Every member of a path's chain occurs in the path. *)
Lemma chain_includes (B : string) :
  forall p : string, In B (chain p) -> includes p B = true.
Proof.
  intros p. remember (String.length p) as n eqn:Hn. revert p Hn.
  induction n as [n IH] using lt_wf_ind. intros p Hn Hin.
  apply in_chain_cases in Hin. destruct Hin as [->|[Hp Hin]].
  - apply includes_refl.
  - apply (includes_of_prefix (parent p)); [apply parent_prefix|].
    apply (IH (String.length (parent p))); [|reflexivity|exact Hin].
    subst n. now apply parent_shorter.
Qed.

(** The search stops at the deepest member of the target's chain that
    occurs in the cursor. *)
Lemma nearestIncluded_deepest (cur p B : string) :
  In B (chain p) -> includes cur B = true ->
  In B (chain (nearestIncluded cur p)).
Proof.
  funelim (nearestIncluded cur p); intros Hin Hi.
  - exact Hin.
  - apply in_chain_cases in Hin. destruct Hin as [->|[_ Hin]];
      [congruence | exact Hin].
  - apply in_chain_cases in Hin. destruct Hin as [->|[_ Hin]];
      [congruence | now apply H].
Qed.

(** ** The tear-down phase *)

(** When [A] lies on the cursor's parent chain, the closing loop closes
    the chain strictly below [A], deepest first, and stops at [A]. *)
Lemma closeUpTo_chain (fuel : nat) :
  forall (A : string) (s : State) (w : World),
    In A (chain (curDirPath s)) ->
    String.length (curDirPath s) < fuel ->
    closeUpTo fuel A s w =
    (Ok tt, set_curDirPath A s,
     records (map (fun x => CloseClass (getDirSelector x))
                (strictlyBelow A (chain (curDirPath s)))) w).
Proof.
  induction fuel as [|fuel IH]; intros A s w Hin Hlen; [lia|].
  cbn [closeUpTo]. unfold bind at 1. unfold this at 1.
  destruct (String.eqb_spec (curDirPath s) A) as [E|NE].
  - subst A. rewrite strictlyBelow_self. simpl map.
    rewrite records_nil, set_curDirPath_same. reflexivity.
  - apply in_chain_cases in Hin. destruct Hin as [E|[Hp Hin]]; [congruence|].
    rewrite (strictlyBelow_step A (curDirPath s)) by assumption.
    unfold bind, closeDir, emit, assign.
    rewrite IH.
    + cbn [curDirPath set_curDirPath]. simpl map.
      rewrite record_as_records, records_records. reflexivity.
    + exact Hin.
    + cbn [curDirPath set_curDirPath].
      pose proof (parent_shorter (curDirPath s) Hp). lia.
Qed.

Lemma destroyNav_chain (fuel : nat) (path : string) (s : State) (w : World) :
  let A := nearestIncluded (curDirPath s) path in
  In A (chain (curDirPath s)) ->
  String.length (curDirPath s) < fuel ->
  destroyNav fuel path s w =
  (Ok tt, set_curDirPath A s,
   records
     (WaitForSelector (getDirSelector (curDirPath s)) true
        :: map (fun x => CloseClass (getDirSelector x))
             (strictlyBelow A (chain (curDirPath s)) ++ [A]))
     w).
Proof.
  intros A Hin Hlen. unfold destroyNav. fold A.
  unfold bind at 1. unfold this at 1.
  unfold bind at 1. unfold emit at 1.
  unfold bind at 1.
  rewrite (closeUpTo_chain fuel A s (record _ w) Hin Hlen).
  unfold bind, closeDir, emit, assign.
  rewrite !record_as_records, !records_records, map_app. reflexivity.
Qed.

(** The closing loop never ends when the path it climbs to is not on the
    cursor's parent chain: it passes the root and stays there. *)
Lemma closeUpTo_off_chain_diverges (fuel : nat) :
  forall (A : string) (s : State) (w : World),
    ~ In A (chain (curDirPath s)) ->
    result (closeUpTo fuel A s w) = Diverge.
Proof.
  induction fuel as [|fuel IH]; intros A s w Hout; cbn [closeUpTo];
    unfold bind at 1; unfold this at 1;
    (destruct (String.eqb_spec (curDirPath s) A) as [E|NE];
     [exfalso; apply Hout; rewrite <- E; apply in_chain_self|]);
    [reflexivity|].
  unfold bind, closeDir, emit, assign. apply IH.
  cbn [curDirPath set_curDirPath]. intros Hin. apply Hout.
  destruct (string_dec (curDirPath s) "") as [E|Hp].
  - rewrite E in *. exact Hin.
  - rewrite chain_step by exact Hp. now right.
Qed.

Lemma destroyNav_off_chain_diverges (fuel : nat) (path : string)
    (s : State) (w : World) :
  ~ In (nearestIncluded (curDirPath s) path) (chain (curDirPath s)) ->
  result (destroyNav fuel path s w) = Diverge.
Proof.
  intros Hout. unfold destroyNav.
  unfold bind at 1. unfold this at 1.
  unfold bind at 1. unfold emit at 1.
  pose proof (closeUpTo_off_chain_diverges fuel _ s
                (record (WaitForSelector (getDirSelector (curDirPath s)) true)
                   w) Hout) as D.
  unfold bind at 1. unfold result in *.
  destruct (closeUpTo fuel _ s _) as [[[u|e|] s2] w2];
    cbn [fst] in *; try discriminate. reflexivity.
Qed.

(** ** The build-up phase *)

Lemma last_cons_default (x d : string) (l : list string) :
  last (x :: l) d = last l x.
Proof.
  revert x d. induction l as [|y l IH]; intros x d; [reflexivity|].
  change (last (x :: y :: l) d) with (last (y :: l) d).
  rewrite IH. symmetry. apply IH.
Qed.

(** The path list built for a target whose chain contains the cursor. *)
Lemma pathsDownTo_chain (fuel : nat) :
  forall (A p : string) (acc : list string),
    In A (chain p) ->
    String.length p < fuel ->
    pathsDownTo fuel A p acc
    = Some (rev (strictlyBelow A (chain p)) ++ acc)%list.
Proof.
  induction fuel as [|fuel IH]; intros A p acc Hin Hlen; [lia|].
  cbn [pathsDownTo].
  destruct (String.eqb_spec p A) as [E|NE].
  - subst A. rewrite strictlyBelow_self. reflexivity.
  - apply in_chain_cases in Hin. destruct Hin as [E|[Hp Hin]]; [congruence|].
    rewrite (strictlyBelow_step A p) by assumption.
    rewrite IH; [|exact Hin|pose proof (parent_shorter p Hp); lia].
    simpl rev. rewrite <- app_assoc. reflexivity.
Qed.

(** Whenever the loop ends, the list it built ends with the target. *)
Lemma pathsDownTo_last (fuel : nat) :
  forall (A p : string) (acc paths : list string),
    pathsDownTo fuel A p acc = Some paths ->
    exists l, paths = (l ++ acc)%list /\
              (l = [] /\ p = A \/ l <> [] /\ last l "" = p).
Proof.
  induction fuel as [|fuel IH]; intros A p acc paths; cbn [pathsDownTo];
    destruct (String.eqb_spec p A) as [E|NE]; intros H; try discriminate.
  - inversion H; subst. exists []. auto.
  - inversion H; subst. exists []. auto.
  - apply IH in H. destruct H as (l & -> & Hl).
    exists (l ++ [p])%list. rewrite <- app_assoc. split; [reflexivity|].
    right. split; [destruct l; discriminate|]. apply last_last.
Qed.

Lemma opened_last (A p : string) :
  In A (chain p) -> last (opened A p) "" = p.
Proof.
  intros Hin. unfold opened. rewrite last_cons_default.
  destruct (String.eqb_spec p A) as [E|NE].
  - subst. rewrite strictlyBelow_self. reflexivity.
  - apply in_chain_cases in Hin. destruct Hin as [E|[Hp Hin]]; [congruence|].
    rewrite (strictlyBelow_step A p) by assumption. simpl rev. apply last_last.
Qed.

Lemma trues_cons (b : bool) (l : list bool) :
  trues (b :: l) = (if b then 1 else 0) + trues l.
Proof. unfold trues. destruct b; reflexivity. Qed.

Lemma clickUntilAcknowledged_ok (selector : string) (clickCount : nat)
    (pending : list bool) :
  1 <= trues pending ->
  exists es rest,
    clickUntilAcknowledged selector clickCount pending = (es, rest, true) /\
    activations es = [Confirmed selector clickCount] /\
    closes es = [] /\
    listingWaits es = [] /\
    Forall (fun c => c = (selector, clickCount)) (clicksIssued es) /\
    trues pending = S (trues rest).
Proof.
  induction pending as [|b l IH]; intros H; [unfold trues in H; simpl in H; lia|].
  rewrite trues_cons in *. destruct b; cbn [clickUntilAcknowledged].
  - eexists _, _. repeat split; try reflexivity.
    cbn [clicksIssued]. repeat constructor.
  - destruct (IH H) as (es & rest & E & Ha & Hc & Hw & Hi & Ht). rewrite E.
    eexists _, _. repeat split; simpl; try assumption.
    constructor; [reflexivity | exact Hi].
Qed.

Lemma clickUntilAcknowledged_closes (selector : string) (clickCount : nat)
    (pending : list bool) :
  closes (fst (fst (clickUntilAcknowledged selector clickCount pending))) = [].
Proof.
  induction pending as [|b l IH]; [reflexivity|].
  cbn [clickUntilAcknowledged]. destruct b; [reflexivity|].
  destruct (clickUntilAcknowledged selector clickCount l) as [[es r] d].
  exact IH.
Qed.

(** With an acknowledgement still to come, [clickDir] returns and has
    activated the directory once. *)
Lemma clickDir_ok (path : string) (clickCount : nat) (s : State) (w : World) :
  1 <= trues (acks w) ->
  exists w' es,
    clickDir path clickCount s w = (Ok tt, s, w') /\
    evolves w w' es /\
    activations es = [activationOf path clickCount] /\
    closes es = [] /\
    listingWaits es = [] /\
    Forall (fun c => c = clickOf (activationOf path clickCount))
      (clicksIssued es) /\
    trues (acks w) <= S (trues (acks w')).
Proof.
  intros H. destruct path as [|c path].
  - exists (record (Click (getDirSelector "") clickCount) w), [Click (getDirSelector "") clickCount].
    repeat split; simpl; try lia. repeat constructor.
  - destruct (clickUntilAcknowledged_ok
                (getDirSelector (String c path)) clickCount (acks w) H)
      as (es & rest & E & Ha & Hc & Hw & Hi & Ht).
    unfold clickDir, bind, emit. cbn [acks record]. rewrite E.
    eexists _, (ShowOnly (getDirSelector (String c path)) :: es).
    split; [reflexivity|]. split.
    + apply evolves_set_acks.
      apply (evolves_trans _ _ _ [ShowOnly _] es (evolves_record _ w)).
      apply evolves_records.
    + repeat split; simpl; try assumption. lia.
Qed.

(** Whatever the acknowledgements, [clickDir] leaves the state alone and
    closes nothing. *)
Lemma clickDir_any (path : string) (clickCount : nat) (s : State) (w : World) :
  exists rc w' es,
    clickDir path clickCount s w = (rc, s, w') /\
    evolves w w' es /\ closes es = [].
Proof.
  destruct path as [|c path].
  - eexists _, _, [_]. split; [reflexivity|]. split;
      [apply evolves_record | reflexivity].
  - unfold clickDir, bind, emit. cbn [acks record].
    pose proof (clickUntilAcknowledged_closes
                  (getDirSelector (String c path)) clickCount (acks w)) as Hc.
    destruct (clickUntilAcknowledged _ clickCount (acks w)) as [[es r] d].
    eexists _, _, (ShowOnly (getDirSelector (String c path)) :: es).
    split; [reflexivity|]. split.
    + apply evolves_set_acks.
      apply (evolves_trans _ _ _ [ShowOnly _] es (evolves_record _ w)).
      apply evolves_records.
    + simpl. exact Hc.
Qed.

Lemma openEach_ok (paths : list string) :
  forall (s : State) (w : World),
    List.length paths <= trues (acks w) ->
    exists w' es,
      openEach paths s w
      = (Ok tt, set_curDirPath (last paths (curDirPath s)) s, w') /\
      evolves w w' es /\
      activations es = map (fun x => activationOf x 2) paths /\
      closes es = [] /\
      listingWaits es = [] /\
      incl (clicksIssued es)
        (map clickOf (map (fun x => activationOf x 2) paths)) /\
      trues (acks w) <= List.length paths + trues (acks w').
Proof.
  induction paths as [|x rest IH]; intros s w H.
  - exists w, []. simpl. rewrite set_curDirPath_same.
    repeat split; try reflexivity; try apply evolves_refl; try lia.
    apply incl_nil_l.
  - simpl List.length in H. cbn [openEach].
    unfold bind at 1. unfold emit at 1.
    destruct (clickDir_ok x 2 s (record (WaitForSelector (getDirSelector x) false) w))
      as (w1 & es1 & E1 & V1 & A1 & C1 & L1 & I1 & T1); [simpl acks; lia|].
    unfold bind at 1. rewrite E1.
    unfold bind at 1. unfold assign at 1.
    destruct (IH (set_curDirPath x s) w1)
      as (w2 & es2 & E2 & V2 & A2 & C2 & L2 & I2 & T2).
    { simpl acks in T1. lia. }
    rewrite E2. cbn [curDirPath set_curDirPath].
    exists w2, (WaitForSelector (getDirSelector x) false :: es1 ++ es2)%list.
    split; [rewrite last_cons_default; reflexivity|]. split.
    + apply (evolves_trans _ _ _ [_] (es1 ++ es2) (evolves_record _ w)).
      apply (evolves_trans _ _ _ es1 es2 V1 V2).
    + cbn [activations closes listingWaits clicksIssued map].
      rewrite activations_app, closes_app, listingWaits_app,
        A1, A2, C1, C2, L1, L2.
      repeat split; try reflexivity;
        [|simpl acks in T1; simpl List.length; lia].
      rewrite clicksIssued_app. apply incl_app.
      * intros c Hc. rewrite Forall_forall in I1.
        left. symmetry. exact (I1 c Hc).
      * apply incl_tl. exact I2.
Qed.

(** ** The listing wait *)

Lemma onRequest_set_curDirPath (p : string) (s : State) (req : Request) :
  onRequest (set_curDirPath p s) req
  = (fst (onRequest s req), set_curDirPath p (snd (onRequest s req))).
Proof.
  unfold onRequest.
  change (tracked (set_curDirPath p s) req) with (tracked s req).
  cbn [allowedXhrPostData lastXhrPostData blockRepetitiveXhr set_curDirPath
       set_gate].
  destruct (tracked s req); [|reflexivity].
  destruct (negb _); [reflexivity|].
  match goal with |- context [if ?c then _ else _] => destruct c end;
    reflexivity.
Qed.

Lemma handleResponses_set_curDirPath (p : string) (exchanges : list Exchange) :
  forall s : State,
    handleResponses (set_curDirPath p s) exchanges
    = (fst (handleResponses s exchanges),
       set_curDirPath p (snd (handleResponses s exchanges))).
Proof.
  induction exchanges as [|ex rest IH]; intros s; [reflexivity|].
  cbn [handleResponses]. rewrite onRequest_set_curDirPath.
  destruct (onRequest s (request ex)) as [d s1]. cbn [fst snd].
  destruct d; try apply IH.
  change (tracked (set_curDirPath p s1) (request ex))
    with (tracked s1 (request ex)).
  cbn [allowedXhrPostData set_curDirPath].
  match goal with |- context [if ?c then _ else _] => destruct c end;
    [|apply IH].
  destruct (reply ex); [apply IH | reflexivity | reflexivity].
Qed.

(** What a listing wait leaves of the state. *)
Lemma handleResponses_keeps (exchanges : list Exchange) :
  forall s : State,
    let s' := snd (handleResponses s exchanges) in
    config s' = config s /\
    allowedXhrPostData s' = allowedXhrPostData s /\
    fileManagerFrame s' = fileManagerFrame s /\
    curDirPath s' = curDirPath s /\
    curDirFiles s' = curDirFiles s /\
    browser s' = browser s /\
    (forall files, fst (handleResponses s exchanges) = Resolved files ->
                   blockRepetitiveXhr s' = false /\
                   lastXhrPostData s' = None).
Proof.
  induction exchanges as [|ex rest IH]; intros s.
  - simpl. repeat split; discriminate.
  - cbn [handleResponses].
    pose proof (onRequest_keeps s (request ex)) as K. cbv zeta in K.
    destruct (onRequest s (request ex)) as [d s1]. cbn [snd] in K.
    destruct K as (K1 & K2 & K3 & K4 & K5 & K6 & K7).
    specialize (IH s1). cbv zeta in IH.
    destruct IH as (I1 & I2 & I3 & I4 & I5 & I6 & I7).
    assert (G : let s' := snd (handleResponses s1 rest) in
                config s' = config s /\
                allowedXhrPostData s' = allowedXhrPostData s /\
                fileManagerFrame s' = fileManagerFrame s /\
                curDirPath s' = curDirPath s /\
                curDirFiles s' = curDirFiles s /\
                browser s' = browser s /\
                (forall files,
                    fst (handleResponses s1 rest) = Resolved files ->
                    blockRepetitiveXhr s' = false /\
                    lastXhrPostData s' = None)).
    { cbv zeta. repeat split; try congruence; apply (I7 files); assumption. }
    destruct d; try exact G.
    match goal with |- context [if ?c then _ else _] => destruct c end;
      [|exact G].
    destruct (reply ex); [exact G | |];
      cbv zeta; cbn [fst snd]; unfold blockRepXhr; simpl;
      repeat split; congruence.
Qed.

Lemma removelast_length (x : string) (l : list string) :
  List.length (removelast (x :: l)) = List.length l.
Proof.
  revert x. induction l as [|y l IH]; intros x; [reflexivity|].
  change (removelast (x :: y :: l)) with (x :: removelast (y :: l)).
  cbn [List.length]. now rewrite IH.
Qed.

(** ** A navigation, step by step *)

Lemma navInFileManager_run (fuel : nat) (p : string) (s : State) (w : World)
    (f : handle) :
  fileManagerFrame s = Some f ->
  curDirPath s <> p ->
  let A := nearestIncluded (curDirPath s) p in
  In A (chain (curDirPath s)) ->
  String.length (curDirPath s) < fuel ->
  String.length p < fuel ->
  List.length (opened A p) <= trues (acks w) ->
  exists w' descent final,
    navInFileManager fuel p s w
    = (fst (settled A p s w), snd (settled A p s w),
       set_traffic (tl (traffic w)) w') /\
    evolves w w'
      (tearDown (curDirPath s) A ++ descent
       ++ [WaitForSelector (getDirSelector p) false; OnResponse 30000]
       ++ final) /\
    clicksOnly descent
      (map (fun x => activationOf x 2) (removelast (opened A p))) /\
    clicksOnly final
      [activationOf p (if String.eqb p "" then 2 else 1)].
Proof.
  intros Hf Hne A HinA Hfuel Hfuelp Hacks.
  assert (HinP : In A (chain p)) by apply nearestIncluded_in_chain.
  unfold navInFileManager.
  unfold bind at 1. unfold this at 1. rewrite Hf.
  destruct (String.eqb_spec (curDirPath s) p) as [E|_]; [contradiction|].
  unfold bind at 1. unfold assign at 1.
  unfold bind at 1.
  rewrite (destroyNav_chain fuel p (allowXhr None true s) w HinA Hfuel).
  change (curDirPath (allowXhr None true s)) with (curDirPath s). fold A.
  fold (tearDown (curDirPath s) A).
  set (s1 := set_curDirPath A (allowXhr None true s)).
  set (w1 := records _ w).
  unfold bind at 1. unfold this at 1.
  change (curDirPath s1) with A.
  rewrite (pathsDownTo_chain fuel A p [] HinP Hfuelp), app_nil_r.
  fold (opened A p). rewrite (opened_last A p HinP).
  assert (V1 : evolves w w1 (tearDown (curDirPath s) A))
    by apply evolves_records.
  assert (Hlen : S (List.length (removelast (opened A p)))
                 = List.length (opened A p)).
  { unfold opened. rewrite removelast_length. reflexivity. }
  destruct (openEach_ok (removelast (opened A p)) s1 w1)
    as (w2 & es2 & E2 & V2 & A2 & C2 & L2 & I2 & T2).
  { subst w1. simpl acks. lia. }
  unfold bind at 1. rewrite E2.
  unfold bind at 1. unfold emit at 1.
  unfold bind at 1. rewrite getDirFilesPromise_arms.
  unfold bind at 1.
  set (s3 := allowXhr _ true _).
  set (cc := if String.eqb p "" then 2 else 1).
  destruct (clickDir_ok p cc s3
              (record (OnResponse 30000)
                 (record (WaitForSelector (getDirSelector p) false) w2)))
    as (w4 & es4 & E4 & V4 & A4 & C4 & L4 & I4 & T4).
  { subst w1. simpl acks in *. lia. }
  unfold promiseAll. rewrite E4.
  pose proof (evolves_trans _ _ _ _ _ V1
                (evolves_trans _ _ _ _ _ V2
                   (evolves_trans _ _ _ _ _
                      (evolves_trans _ _ _ _ _ (evolves_record _ w2)
                         (evolves_record _ _)) V4))) as V.
  cbn [app] in V.
  assert (Tr : traffic w4 = traffic w) by apply V.
  unfold listingPromise. rewrite Tr.
  change s3 with
    (set_curDirPath (last (removelast (opened A p)) A)
       (allowXhr (Some (listingPayload p)) true s)).
  rewrite handleResponses_set_curDirPath.
  unfold settled. fold (beforeLast A p).
  exists w4, es2, es4.
  split; [|split; [exact V | split; repeat split; try assumption]].
  2: { intros c Hc. rewrite Forall_forall in I4. left. symmetry.
       exact (I4 c Hc). }
  destruct (handleResponses (allowXhr (Some (listingPayload p)) true s)
              (hd [] (traffic w))) as [[files| |] s'] eqn:EH; cbn [fst snd];
    reflexivity.
Qed.

(** The closes and the clicks of a navigation, read off its phases. *)
Lemma phases_closes (cursor A p : string) (descent final : list event)
    (acts acts' : list activation) :
  clicksOnly descent acts ->
  clicksOnly final acts' ->
  closes (tearDown cursor A ++ descent
          ++ [WaitForSelector (getDirSelector p) false; OnResponse 30000]
          ++ final)
  = map getDirSelector (strictlyBelow A (chain cursor) ++ [A]) /\
  activations (tearDown cursor A ++ descent
               ++ [WaitForSelector (getDirSelector p) false; OnResponse 30000]
               ++ final)
  = (acts ++ acts')%list.
Proof.
  intros (C1 & _ & A1 & _) (C2 & _ & A2 & _). unfold tearDown.
  rewrite !closes_app, !activations_app, C1, C2, A1, A2.
  cbn [closes activations app].
  rewrite closes_map_CloseClass, activations_map_CloseClass.
  rewrite !app_nil_r. split; reflexivity.
Qed.

Lemma settled_arrived (A p : string) (s : State) (w : World)
    (files : list string) :
  listingOutcome s w p = Resolved files ->
  let s' := snd (settled A p s w) in
  fst (settled A p s w) = Ok tt /\
  curDirPath s' = p /\
  curDirFiles s' = Some files /\
  fileManagerFrame s' = fileManagerFrame s /\
  allowedXhrPostData s' = Some (listingPayload p) /\
  blockRepetitiveXhr s' = false /\
  lastXhrPostData s' = None /\
  config s' = config s.
Proof.
  unfold listingOutcome, settled. intros H.
  pose proof (handleResponses_keeps (hd [] (traffic w))
                (allowXhr (Some (listingPayload p)) true s)) as K.
  cbv zeta in K.
  destruct (handleResponses _ (hd [] (traffic w))) as [got s1].
  cbn [fst snd] in *. subst got.
  destruct K as (K1 & K2 & K3 & K4 & K5 & K6 & K7).
  destruct (K7 files eq_refl) as [B L].
  cbn. repeat split; assumption.
Qed.

Lemma settled_timed_out (A p : string) (s : State) (w : World) :
  listingOutcome s w p = Rejected ->
  let s' := snd (settled A p s w) in
  fst (settled A p s w) = Throw (TimeoutExceeded 30000) /\
  curDirPath s' = beforeLast A p /\
  curDirFiles s' = curDirFiles s /\
  fileManagerFrame s' = fileManagerFrame s /\
  config s' = config s.
Proof.
  unfold listingOutcome, settled. intros H.
  pose proof (handleResponses_keeps (hd [] (traffic w))
                (allowXhr (Some (listingPayload p)) true s)) as K.
  cbv zeta in K.
  destruct (handleResponses _ (hd [] (traffic w))) as [got s1].
  cbn [fst snd] in *. subst got.
  destruct K as (K1 & K2 & K3 & K4 & K5 & K6 & K7).
  cbn. repeat split; assumption.
Qed.

(** ** What every run of a navigation preserves *)

Lemma keepsFrame_ret {A : Type} (a : A) : keepsFrame (ret a).
Proof. intros s w. reflexivity. Qed.

Lemma keepsFrame_emit (e : event) : keepsFrame (emit e).
Proof. intros s w. reflexivity. Qed.

Lemma keepsFrame_this : keepsFrame this.
Proof. intros s w. reflexivity. Qed.

Lemma keepsFrame_throw {A : Type} (e : error) : keepsFrame (@throw A e).
Proof. intros s w. reflexivity. Qed.

Lemma keepsFrame_diverge {A : Type} : keepsFrame (@diverge A).
Proof. intros s w. reflexivity. Qed.

Lemma keepsFrame_assign (f : State -> State) :
  (forall s, fileManagerFrame (f s) = fileManagerFrame s) ->
  keepsFrame (assign f).
Proof. intros H s w. apply H. Qed.

(** Sequencing, with what is known of the first result. *)
Lemma keepsFrame_bind {A B : Type} (m : M A) (k : A -> M B) (P : A -> Prop) :
  keepsFrame m ->
  (forall s w a s' w', m s w = (Ok a, s', w') -> P a) ->
  (forall a, P a -> keepsFrame (k a)) ->
  keepsFrame (bind m k).
Proof.
  intros Hm HP Hk s w. unfold bind, stateOf.
  specialize (Hm s w). unfold stateOf in Hm.
  destruct (m s w) as [[[a|e|] s1] w1] eqn:E; cbn [fst snd] in *;
    try exact Hm.
  rewrite <- Hm. apply (Hk a (HP _ _ _ _ _ E)).
Qed.

Lemma keepsFrame_seq {A B : Type} (m : M A) (k : A -> M B) :
  keepsFrame m -> (forall a, keepsFrame (k a)) -> keepsFrame (bind m k).
Proof.
  intros Hm Hk. apply (keepsFrame_bind m k (fun _ => True)); auto.
Qed.

Lemma keepsFrame_clickDir (path : string) (clickCount : nat) :
  keepsFrame (clickDir path clickCount).
Proof.
  intros s w. destruct (clickDir_any path clickCount s w)
    as (rc & w' & es & E & _). rewrite E. reflexivity.
Qed.

Lemma keepsFrame_closeUpTo (fuel : nat) (path : string) :
  keepsFrame (closeUpTo fuel path).
Proof.
  induction fuel as [|fuel IH]; cbn [closeUpTo];
    apply keepsFrame_seq; try apply keepsFrame_this; intros s;
    destruct (String.eqb _ path); try apply keepsFrame_ret;
    try apply keepsFrame_diverge.
  apply keepsFrame_seq; [apply keepsFrame_emit|]. intros _.
  apply keepsFrame_seq; [now apply keepsFrame_assign|]. intros _. exact IH.
Qed.

Lemma keepsFrame_destroyNav (fuel : nat) (path : string) :
  keepsFrame (destroyNav fuel path).
Proof.
  unfold destroyNav. apply keepsFrame_seq; [apply keepsFrame_this|].
  intros s. apply keepsFrame_seq; [apply keepsFrame_emit|]. intros _.
  apply keepsFrame_seq; [apply keepsFrame_closeUpTo|]. intros _.
  apply keepsFrame_seq; [apply keepsFrame_emit|]. intros _.
  now apply keepsFrame_assign.
Qed.

Lemma keepsFrame_openEach (paths : list string) : keepsFrame (openEach paths).
Proof.
  induction paths as [|x rest IH]; cbn [openEach]; [apply keepsFrame_ret|].
  apply keepsFrame_seq; [apply keepsFrame_emit|]. intros _.
  apply keepsFrame_seq; [apply keepsFrame_clickDir|]. intros _.
  apply keepsFrame_seq; [now apply keepsFrame_assign|]. intros _. exact IH.
Qed.

Lemma keepsFrame_listingPromise (timeout : Z) :
  keepsFrame (listingPromise timeout).
Proof.
  intros s w. unfold listingPromise, stateOf.
  pose proof (handleResponses_keeps (hd [] (traffic w)) s) as K.
  cbv zeta in K.
  destruct (handleResponses s (hd [] (traffic w))) as [[files| |] s1];
    cbn [fst snd] in *; apply K.
Qed.

Lemma keepsFrame_promiseAll {A : Type} (p : M A) (c : M unit) :
  keepsFrame p -> keepsFrame c -> keepsFrame (promiseAll p c).
Proof.
  intros Hp Hc s w. unfold promiseAll, stateOf.
  specialize (Hc s w). unfold stateOf in Hc.
  destruct (c s w) as [[rc s1] w1]. cbn [fst snd] in Hc.
  specialize (Hp s1 w1). unfold stateOf in Hp.
  destruct (p s1 w1) as [[rp s2] w2]. cbn [fst snd] in Hp.
  destruct rp, rc; cbn [fst snd]; congruence.
Qed.

Lemma keepsFrame_navInFileManager (fuel : nat) (path : string) :
  keepsFrame (navInFileManager fuel path).
Proof.
  unfold navInFileManager. apply keepsFrame_seq; [apply keepsFrame_this|].
  intros s. destruct (fileManagerFrame s); [|apply keepsFrame_throw].
  destruct (String.eqb _ path); [apply keepsFrame_ret|].
  apply keepsFrame_seq; [now apply keepsFrame_assign|]. intros _.
  apply keepsFrame_seq; [apply keepsFrame_destroyNav|]. intros _.
  apply keepsFrame_seq; [apply keepsFrame_this|]. intros s1.
  destruct (pathsDownTo fuel (curDirPath s1) path []);
    [|apply keepsFrame_diverge].
  apply keepsFrame_seq; [apply keepsFrame_openEach|]. intros _.
  apply keepsFrame_seq; [apply keepsFrame_emit|]. intros _.
  apply (keepsFrame_bind _ _ (fun a => a = listingPromise 30000)).
  - intros s2 w2. reflexivity.
  - intros s2 w2 a s' w' E. rewrite getDirFilesPromise_arms in E.
    now inversion E.
  - intros a ->.
    apply keepsFrame_seq;
      [apply keepsFrame_promiseAll;
       [apply keepsFrame_listingPromise | apply keepsFrame_clickDir]|].
    intros files. apply keepsFrame_seq; [now apply keepsFrame_assign|].
    intros _. now apply keepsFrame_assign.
Qed.

Lemma bind_Ok {A B : Type} (m : M A) (k : A -> M B) (s s' : State)
    (w w' : World) (b : B) :
  bind m k s w = (Ok b, s', w') ->
  exists a s1 w1, m s w = (Ok a, s1, w1) /\ k a s1 w1 = (Ok b, s', w').
Proof.
  unfold bind. destruct (m s w) as [[[a|e|] s1] w1]; try discriminate.
  intros H. eauto.
Qed.

(** A navigation that returns has the session open and leaves the cursor
    on its target. *)
Lemma navInFileManager_returns (fuel : nat) (p : string) (s s' : State)
    (w w' : World) :
  navInFileManager fuel p s w = (Ok tt, s', w') ->
  curDirPath s' = p /\
  fileManagerFrame s' = fileManagerFrame s /\
  fileManagerFrame s <> None.
Proof.
  intros H.
  pose proof (keepsFrame_navInFileManager fuel p s w) as KF.
  rewrite H in KF. unfold stateOf in KF. cbn [fst snd] in KF.
  unfold navInFileManager in H.
  apply bind_Ok in H. destruct H as (s0 & s1 & w1 & E0 & H).
  inversion E0; subst s0 s1 w1; clear E0.
  destruct (fileManagerFrame s) as [f|] eqn:Hf; [|discriminate].
  split; [|split; [exact KF | discriminate]].
  destruct (String.eqb_spec (curDirPath s) p) as [E|NE].
  - inversion H; subst. reflexivity.
  - apply bind_Ok in H. destruct H as (? & s1 & w1 & _ & H).
    apply bind_Ok in H. destruct H as (? & s2 & w2 & _ & H).
    apply bind_Ok in H. destruct H as (s2' & s3 & w3 & E3 & H).
    inversion E3; subst s2' s3 w3; clear E3.
    destruct (pathsDownTo fuel (curDirPath s2) p []) as [paths|] eqn:EP;
      [|discriminate].
    apply pathsDownTo_last in EP. destruct EP as (l & -> & Hl).
    rewrite app_nil_r in H.
    assert (HL : last (curDirPath s2 :: l) "" = p).
    { rewrite last_cons_default. destruct Hl as [[-> ->]|[Hn HL]];
        [reflexivity|].
      destruct l as [|y l]; [congruence|].
      rewrite last_cons_default in HL. rewrite last_cons_default.
      exact HL. }
    rewrite HL in H.
    apply bind_Ok in H. destruct H as (? & s3 & w3 & _ & H).
    apply bind_Ok in H. destruct H as (? & s4 & w4 & _ & H).
    apply bind_Ok in H. destruct H as (? & s5 & w5 & _ & H).
    apply bind_Ok in H. destruct H as (? & s6 & w6 & _ & H).
    apply bind_Ok in H. destruct H as (? & s7 & w7 & _ & H).
    inversion H; subst. reflexivity.
Qed.

(** ** Navigation *)

Lemma selectorOf_activationOf (path : string) (count : nat) :
  selectorOf (activationOf path count) = getDirSelector path.
Proof. destruct path; reflexivity. Qed.

Lemma plannedActivations_selectors (A p : string) :
  In A (chain p) ->
  map selectorOf (plannedActivations A p) = map getDirSelector (opened A p).
Proof.
  intros Hin. unfold plannedActivations.
  rewrite map_app, map_map. cbn [map]. rewrite selectorOf_activationOf.
  rewrite (map_ext _ getDirSelector)
    by (intros x; apply selectorOf_activationOf).
  rewrite <- (opened_last A p Hin) at 2.
  change [getDirSelector (last (opened A p) "")]
    with (map getDirSelector [last (opened A p) ""]).
  rewrite <- map_app, <- app_removelast_last; [reflexivity|].
  unfold opened. discriminate.
Qed.

Lemma sinceLog_set_traffic (w w' : World) (t : list (list Exchange)) :
  sinceLog w (set_traffic t w') = sinceLog w w'.
Proof. reflexivity. Qed.

(** C4: a navigation to the directory the previous navigation has just
    reached returns at once: no driver call is made, nothing is closed or
    clicked, and the state (cursor and cached listing included) is left
    as it was. *)
Theorem navigate_again_is_noop (fuel fuel' : nat) (P : string)
    (s s1 : State) (w w1 : World) :
  navInFileManager fuel P s w = (Ok tt, s1, w1) ->
  let r := navInFileManager fuel' P s1 w1 in
  r = (Ok tt, s1, w1) /\
  sinceLog w1 (worldOf r) = [] /\
  closes (sinceLog w1 (worldOf r)) = [] /\
  clicksIssued (sinceLog w1 (worldOf r)) = [] /\
  curDirPath (stateOf r) = curDirPath s1 /\
  curDirFiles (stateOf r) = curDirFiles s1.
Proof.
  intros H r.
  destruct (navInFileManager_returns fuel P s s1 w w1 H) as (Hc & Hf & Hn).
  assert (E : r = (Ok tt, s1, w1)).
  { assert (F : exists f, fileManagerFrame s1 = Some f)
      by (rewrite Hf; destruct (fileManagerFrame s); [eauto | congruence]).
    destruct F as [f F].
    subst r. unfold navInFileManager, bind, this.
    rewrite F, Hc, String.eqb_refl. reflexivity. }
  rewrite E. unfold worldOf, stateOf, sinceLog. cbn [fst snd].
  rewrite skipn_all. repeat split; reflexivity.
Qed.

Lemma tearDown_no_clicks (cursor A : string) :
  clicksIssued (tearDown cursor A) = [] /\
  listingWaits (tearDown cursor A) = [].
Proof.
  unfold tearDown. cbn [clicksIssued listingWaits].
  induction (strictlyBelow A (chain cursor) ++ [A])%list as [|x l IH];
    [split; reflexivity | exact IH].
Qed.

(** C1 (amended): after a navigation to [P1], a navigation to [P2], for
    which the ancestor [A] found by truncating [P2] lies on the parent
    chain of [P1], first closes the directories of [P1] strictly below
    [A], deepest first, and [A] itself, clicking nothing meanwhile, and
    only then clicks [A] followed by the directories of [P2] strictly
    below [A], top down, closing nothing any more; [A] is the deepest
    ancestor the two paths share. *)
Theorem navigate_closes_then_opens (fuel : nat) (P1 P2 : string)
    (s0 s1 : State) (w0 w1 : World) (files : list string) :
  navInFileManager fuel P1 s0 w0 = (Ok tt, s1, w1) ->
  P1 <> P2 ->
  let A := nearestIncluded P1 P2 in
  In A (chain P1) ->
  String.length P1 < fuel ->
  String.length P2 < fuel ->
  List.length (opened A P2) <= trues (acks w1) ->
  listingOutcome s1 w1 P2 = Resolved files ->
  let r := navInFileManager fuel P2 s1 w1 in
  result r = Ok tt /\
  curDirPath (stateOf r) = P2 /\
  In A (chain P2) /\
  (forall B : string, In B (chain P1) -> In B (chain P2) -> In B (chain A)) /\
  closes (sinceLog w1 (worldOf r))
  = map getDirSelector (strictlyBelow A (chain P1) ++ [A]) /\
  map selectorOf (activations (sinceLog w1 (worldOf r)))
  = map getDirSelector (A :: rev (strictlyBelow A (chain P2))) /\
  exists build : list event,
    sinceLog w1 (worldOf r) = (tearDown P1 A ++ build)%list /\
    closes (tearDown P1 A)
    = map getDirSelector (strictlyBelow A (chain P1) ++ [A]) /\
    clicksIssued (tearDown P1 A) = [] /\
    closes build = [] /\
    map selectorOf (activations build)
    = map getDirSelector (A :: rev (strictlyBelow A (chain P2))) /\
    incl (map fst (clicksIssued build))
      (map getDirSelector (A :: rev (strictlyBelow A (chain P2)))).
Proof.
  intros H1 Hne A HinA Hf1 Hf2 Hacks Hlist r.
  destruct (navInFileManager_returns fuel P1 s0 s1 w0 w1 H1) as (Hc & Hk & Hn).
  assert (F : exists f, fileManagerFrame s1 = Some f)
    by (rewrite Hk; destruct (fileManagerFrame s0); [eauto | congruence]).
  destruct F as [f Hf].
  assert (HinP : In A (chain P2)) by apply nearestIncluded_in_chain.
  assert (Deep : forall B : string,
             In B (chain P1) -> In B (chain P2) -> In B (chain A)).
  { intros B H1' H2'. apply nearestIncluded_deepest; [exact H2'|].
    now apply chain_includes. }
  subst A. rewrite <- Hc in *.
  destruct (navInFileManager_run fuel P2 s1 w1 f Hf Hne HinA Hf1 Hf2 Hacks)
    as (w' & descent & final & E & V & D & Fi).
  destruct (settled_arrived (nearestIncluded (curDirPath s1) P2) P2 s1 w1
              files Hlist) as (R & Cur & _).
  destruct (phases_closes (curDirPath s1)
              (nearestIncluded (curDirPath s1) P2) P2 descent final _ _ D Fi)
    as [Cl Ac].
  fold (plannedActivations (nearestIncluded (curDirPath s1) P2) P2) in Ac.
  subst r. rewrite E. unfold result, stateOf, worldOf. cbn [fst snd].
  rewrite sinceLog_set_traffic, (evolves_sinceLog w1 w' _ V).
  rewrite Cl, Ac, (plannedActivations_selectors _ _ HinP).
  split; [exact R|]. split; [exact Cur|]. split; [exact HinP|].
  split; [exact Deep|]. split; [reflexivity|]. split; [reflexivity|].
  eexists. split; [reflexivity|].
  split.
  { unfold tearDown. cbn [closes]. apply closes_map_CloseClass. }
  split; [apply tearDown_no_clicks|].
  destruct D as (C1 & _ & A1 & I1), Fi as (C2 & _ & A2 & I2).
  rewrite !closes_app, !activations_app, !clicksIssued_app, C1, C2, A1, A2.
  cbn [closes activations clicksIssued app]. split; [reflexivity|].
  split; [exact (plannedActivations_selectors _ _ HinP)|].
  pose proof (plannedActivations_selectors _ _ HinP) as PS.
  unfold opened in PS. rewrite <- PS. unfold plannedActivations.
  rewrite !map_app. apply incl_app; intros x Hx;
    apply in_map_iff in Hx; destruct Hx as (c & <- & Hin);
    apply in_or_app; [left; apply I1 in Hin | right; apply I2 in Hin];
    apply in_map_iff in Hin; destruct Hin as (a & <- & Ha);
    apply in_map_iff; exists a; (split; [destruct a; reflexivity | exact Ha]).
Qed.

(** C2 (amended): a navigation is, in this order, the tear-down, the
    double clicks on the directories on its way but the last, the wait
    for the target's element, the installation of the listing wait (the
    gate being armed with the target's payload), and the click on the
    target: double if it is the root and single otherwise.  A directory
    other than the root is clicked until acknowledged, the root once
    without a check.  From cursor [""] to [2024/spring] the tear-down
    closes the root, then the root (double) and [2024] (double,
    confirmed) are clicked, then the listing wait is installed with the
    gate armed with [directory=2024%2Fspring], and then [2024/spring] is
    clicked (single, confirmed). *)
Theorem navigate_activations (fuel : nat) (p : string) (s : State)
    (w : World) (f : handle) (files : list string) :
  fileManagerFrame s = Some f ->
  curDirPath s <> p ->
  let A := nearestIncluded (curDirPath s) p in
  In A (chain (curDirPath s)) ->
  String.length (curDirPath s) < fuel ->
  String.length p < fuel ->
  List.length (opened A p) <= trues (acks w) ->
  listingOutcome s w p = Resolved files ->
  let r := navInFileManager fuel p s w in
  result r = Ok tt /\
  activations (sinceLog w (worldOf r))
  = (map (fun x => activationOf x 2) (removelast (opened A p))
     ++ [activationOf p (if String.eqb p "" then 2 else 1)])%list /\
  allowedXhrPostData (stateOf r) = Some (listingPayload p) /\
  curDirFiles (stateOf r) = Some files /\
  curDirPath (stateOf r) = p /\
  (curDirPath s = "" -> p = "2024/spring" ->
   closes (sinceLog w (worldOf r)) = [getDirSelector ""] /\
   activations (sinceLog w (worldOf r))
   = [Unchecked (getDirSelector "") 2;
      Confirmed (getDirSelector "2024") 2;
      Confirmed (getDirSelector "2024/spring") 1] /\
   allowedXhrPostData (stateOf r) = Some "directory=2024%2Fspring") /\
  exists descent final : list event,
    sinceLog w (worldOf r)
    = (tearDown (curDirPath s) A ++ descent
       ++ [WaitForSelector (getDirSelector p) false; OnResponse 30000]
       ++ final)%list /\
    clicksIssued (tearDown (curDirPath s) A) = [] /\
    listingWaits (tearDown (curDirPath s) A) = [] /\
    clicksOnly descent
      (map (fun x => activationOf x 2) (removelast (opened A p))) /\
    clicksOnly final [activationOf p (if String.eqb p "" then 2 else 1)] /\
    (curDirPath s = "" -> p = "2024/spring" ->
     tearDown (curDirPath s) A
     = [WaitForSelector (getDirSelector "") true;
        CloseClass (getDirSelector "")] /\
     clicksOnly descent
       [Unchecked (getDirSelector "") 2;
        Confirmed (getDirSelector "2024") 2] /\
     clicksOnly final [Confirmed (getDirSelector "2024/spring") 1]).
Proof.
  intros Hf Hne A HinA Hf1 Hf2 Hacks Hlist r.
  destruct (navInFileManager_run fuel p s w f Hf Hne HinA Hf1 Hf2 Hacks)
    as (w' & descent & final & E & V & D & Fi).
  destruct (settled_arrived A p s w files Hlist)
    as (R & Cur & Fl & _ & Al & _).
  destruct (phases_closes (curDirPath s) A p descent final _ _ D Fi)
    as [Cl Ac].
  subst r. rewrite E. unfold result, stateOf, worldOf. cbn [fst snd].
  rewrite sinceLog_set_traffic, (evolves_sinceLog w w' _ V).
  split; [exact R|]. split; [exact Ac|]. split; [exact Al|].
  split; [exact Fl|]. split; [exact Cur|]. split.
  { intros Hroot Hp. unfold A in *. rewrite Cl, Ac, Al.
    rewrite Hroot, Hp. repeat split; reflexivity. }
  exists descent, final. split; [reflexivity|].
  split; [apply tearDown_no_clicks|]. split; [apply tearDown_no_clicks|].
  split; [exact D|]. split; [exact Fi|].
  intros Hroot Hp. revert D Fi. unfold A. rewrite Hroot, Hp.
  intros D Fi. split; [reflexivity|]. split; [exact D | exact Fi].
Qed.

(** ** A listing wait that times out *)

Lemma nearestIncluded_of_included (cur p : string) :
  includes cur p = true -> nearestIncluded cur p = p.
Proof.
  funelim (nearestIncluded cur p); intros Hi; try reflexivity; congruence.
Qed.

(** From the parent of the target, the search finds that parent. *)
Lemma nearestIncluded_parent (p : string) :
  p <> "" -> nearestIncluded (parent p) p = parent p.
Proof.
  intros Hp. pose proof (parent_shorter p Hp) as Hlt.
  remember (parent p) as c eqn:Hc.
  funelim (nearestIncluded c p).
  - apply includes_length in Heq. lia.
  - reflexivity.
  - apply nearestIncluded_of_included. apply includes_refl.
Qed.

Lemma beforeLast_self (A : string) : beforeLast A A = A.
Proof.
  unfold beforeLast, opened. rewrite strictlyBelow_self. reflexivity.
Qed.

Lemma beforeLast_parent (A p : string) :
  In A (chain p) -> p <> A -> beforeLast A p = parent p.
Proof.
  intros Hin Hne. apply in_chain_cases in Hin.
  destruct Hin as [E|[Hp Hin]]; [congruence|].
  unfold beforeLast, opened.
  rewrite (strictlyBelow_step A p) by assumption.
  cbn [rev]. rewrite app_comm_cons, removelast_last, last_cons_default.
  destruct (String.eqb_spec (parent p) A) as [E|NE].
  - rewrite <- E, strictlyBelow_self. reflexivity.
  - destruct (chain_head (parent p)) as [l Hl]. rewrite Hl. cbn [strictlyBelow].
    destruct (String.eqb_spec (parent p) A); [contradiction|].
    cbn [rev]. apply last_last.
Qed.

Lemma opened_parent (p : string) :
  p <> "" -> opened (parent p) p = [parent p; p].
Proof.
  intros Hp. unfold opened.
  assert (Hne : p <> parent p).
  { intros E. pose proof (parent_shorter p Hp). rewrite <- E in H. lia. }
  rewrite (strictlyBelow_step (parent p) p Hne Hp), strictlyBelow_self.
  reflexivity.
Qed.

(** C6 (amended): when the listing wait of a navigation runs past its
    30000 ms, the navigation is rejected with the timeout, the cached
    listing is untouched, and the cursor stays on the last directory
    reached.  When the target lies below the ancestor the tear-down
    stopped at, that directory is the parent of the target, and a second
    call with the same target resumes from it through the ancestor search
    and caches the listing it fetches.  When the target is that ancestor
    itself (a navigation upwards), the tear-down has already put the
    cursor on the target: a second call returns at the equality check
    without a driver call, and the cached listing stays the one of the
    directory left. *)
Theorem navigate_timeout_keeps_progress (fuel : nat) (p : string)
    (s : State) (w : World) (f : handle) :
  fileManagerFrame s = Some f ->
  curDirPath s <> p ->
  let A := nearestIncluded (curDirPath s) p in
  In A (chain (curDirPath s)) ->
  String.length (curDirPath s) < fuel ->
  String.length p < fuel ->
  List.length (opened A p) <= trues (acks w) ->
  listingOutcome s w p = Rejected ->
  let r := navInFileManager fuel p s w in
  result r = Throw (TimeoutExceeded 30000) /\
  curDirPath (stateOf r) = (if String.eqb p A then p else parent p) /\
  In (curDirPath (stateOf r)) (chain p) /\
  curDirFiles (stateOf r) = curDirFiles s /\
  (p <> A ->
   forall (w2 : World) (files : list string),
     2 <= trues (acks w2) ->
     listingOutcome (stateOf r) w2 p = Resolved files ->
     let r2 := navInFileManager fuel p (stateOf r) w2 in
     result r2 = Ok tt /\
     curDirPath (stateOf r2) = p /\
     curDirFiles (stateOf r2) = Some files) /\
  (p = A ->
   forall w2 : World,
     let r2 := navInFileManager fuel p (stateOf r) w2 in
     r2 = (Ok tt, stateOf r, w2) /\
     sinceLog w2 (worldOf r2) = [] /\
     curDirFiles (stateOf r2) = curDirFiles s).
Proof.
  intros Hf Hne A HinA Hf1 Hf2 Hacks Hlist r.
  assert (HinP : In A (chain p)) by apply nearestIncluded_in_chain.
  destruct (navInFileManager_run fuel p s w f Hf Hne HinA Hf1 Hf2 Hacks)
    as (w' & descent & final & E & _).
  fold A in E.
  destruct (settled_timed_out A p s w Hlist) as (R & Cur & Fi & Fr & _).
  subst r. rewrite E. unfold result, stateOf, worldOf. cbn [fst snd].
  set (s' := snd (settled A p s w)) in *.
  assert (Hcur : curDirPath s' = if String.eqb p A then p else parent p).
  { rewrite Cur. destruct (String.eqb_spec p A) as [EA|NE].
    - rewrite EA at 1 2. apply beforeLast_self.
    - now apply beforeLast_parent. }
  split; [exact R|]. split; [exact Hcur|]. split.
  { rewrite Hcur. destruct (String.eqb_spec p A) as [EA|NE].
    - apply in_chain_self.
    - apply in_chain_cases in HinP. destruct HinP as [E'|[Hp Hin]];
        [congruence|].
      rewrite chain_step by exact Hp. right. apply in_chain_self. }
  split; [exact Fi|]. split.
  - (* the cursor is on the parent of the target *)
    intros NE w2 files Hacks2 Hlist2.
    destruct (String.eqb_spec p A) as [EA|_]; [contradiction|].
    apply in_chain_cases in HinP. destruct HinP as [E'|[Hp Hin]];
      [congruence|].
    assert (Hne2 : curDirPath s' <> p).
    { rewrite Hcur. intros E'. pose proof (parent_shorter p Hp).
      rewrite E' in H. lia. }
    assert (HA2 : nearestIncluded (curDirPath s') p = parent p)
      by (rewrite Hcur; now apply nearestIncluded_parent).
    destruct (navInFileManager_run fuel p s' w2 f) as (w3 & d3 & f3 & E3 & _).
    + congruence.
    + exact Hne2.
    + rewrite HA2, Hcur. apply in_chain_self.
    + rewrite Hcur. pose proof (parent_shorter p Hp). lia.
    + exact Hf2.
    + rewrite HA2, (opened_parent p Hp). exact Hacks2.
    + destruct (settled_arrived (nearestIncluded (curDirPath s') p) p s' w2
                  files Hlist2) as (R2 & Cur2 & Fi2 & _).
      rewrite E3. cbn [fst snd].
      split; [exact R2|]. split; [exact Cur2 | exact Fi2].
  - (* the cursor is already on the target *)
    intros EA w2.
    destruct (String.eqb_spec p A) as [_|NE]; [|contradiction].
    assert (E2 : navInFileManager fuel p s' w2 = (Ok tt, s', w2)).
    { unfold navInFileManager, bind, this.
      rewrite Fr, Hf, Hcur, String.eqb_refl. reflexivity. }
    rewrite E2. cbn [fst snd]. split; [reflexivity|].
    split; [|exact Fi].
    unfold sinceLog. apply skipn_all.
Qed.

(** The tear-down of a navigation from [a/b] to [b/c] never ends: the
    search stops at [b], which occurs in the cursor but is none of its
    ancestors, and the closing loop climbs past the root for ever. *)
Lemma destroyNav_substring_match_diverges (fuel : nat) (s : State)
    (w : World) :
  curDirPath s = "a/b" ->
  nearestIncluded (curDirPath s) "b/c" = "b" /\
  result (destroyNav fuel "b/c" s w) = Diverge.
Proof.
  intros Hc. split; [rewrite Hc; reflexivity|].
  apply destroyNav_off_chain_diverges. rewrite Hc.
  change (nearestIncluded "a/b" "b/c") with "b".
  change (chain "a/b") with ["a/b"; "a"; ""].
  simpl. intuition discriminate.
Qed.

(** ** Locating a file in the cached listing *)

(** C5 (amended): with the cached listing [cat.png], [dog.jpg], rendered
    as such, [dog] and [dog.jpg] are found at index 1, and so is the bare
    prefix [do], the match being [startsWith]; [frog.png] is answered with
    [-1] from the cached listing alone, without a call to the driver. *)
Theorem locate_matches_by_prefix (s : State) (w : World) :
  curDirFiles s = Some ["cat.png"; "dog.jpg"] ->
  dom w = ["cat.png"; "dog.jpg"] ->
  result (getFileIndexInFileManager "dog" s w) = Ok 1%Z /\
  result (getFileIndexInFileManager "dog.jpg" s w) = Ok 1%Z /\
  result (getFileIndexInFileManager "do" s w) = Ok 1%Z /\
  (forall w' : World,
      getFileIndexInFileManager "frog.png" s w' = (Ok (-1)%Z, s, w')).
Proof.
  intros Hfiles Hdom. unfold getFileIndexInFileManager.
  change (clearFileName "dog") with (Some "dog").
  change (clearFileName "dog.jpg") with (Some "dog.jpg").
  change (clearFileName "do") with (Some "do").
  change (clearFileName "frog.png") with (Some "frog.png").
  unfold bind, this, emit, result. rewrite Hfiles. cbn [find].
  change (startsWith "cat.png" "dog") with false.
  change (startsWith "dog.jpg" "dog") with true.
  change (startsWith "cat.png" "dog.jpg") with false.
  change (startsWith "dog.jpg" "dog.jpg") with true.
  change (startsWith "cat.png" "do") with false.
  change (startsWith "dog.jpg" "do") with true.
  change (startsWith "cat.png" "frog.png") with false.
  change (startsWith "dog.jpg" "frog.png") with false.
  cbn iota. cbn [dom record]. rewrite Hdom.
  repeat split; reflexivity.
Qed.

(** ** Uploading files *)

(** Every path the loop appends is a string of the array that exists
    locally, and each append used up one dialog reporting success. *)
Lemma uploadEach_only_confirmed (uploadBtn : string) (paths : list jsValue) :
  forall (acc : list string) (s s' : State) (w w' : World)
         (out : list string),
    uploadEach uploadBtn paths acc s w = (Ok out, s', w') ->
    exists new,
      out = (acc ++ new)%list /\
      Forall (fun p => In (JsString p) paths /\ existsSync w p = true) new /\
      List.length new <= List.length (filter (confirms s) (dialogs w)).
Proof.
  induction paths as [|v rest IH]; intros acc s s' w w' out H.
  - inversion H; subst. exists []. rewrite app_nil_r.
    repeat split; [constructor | simpl; lia].
  - assert (Weaken : forall (w0 : World) new,
               existsSync w0 = existsSync w ->
               Forall (fun p => In (JsString p) rest /\
                                existsSync w0 p = true) new ->
               Forall (fun p => In (JsString p) (v :: rest) /\
                                existsSync w p = true) new).
    { intros w0 new Hx. apply Forall_impl. intros p [Hi Hp].
      rewrite Hx in Hp. split; [now right | exact Hp]. }
    destruct v as [path|]; cbn [uploadEach] in H.
    + destruct (existsSync w path) eqn:Ex; cbn [negb orb is_string] in H.
      * unfold bind at 1 in H. unfold emit at 1 in H.
        unfold bind at 1 in H. unfold promiseAll, emit in H.
        unfold closeBrowserDialogPromise in H.
        cbn [dialogs record] in H.
        destruct (dialogs w) as [|[message|] ds] eqn:Ed; cbn [hd tl] in H;
          try discriminate.
        apply IH in H. destruct H as (new & Hout & Hall & Hlen).
        cbn [dialogs record set_dialogs] in Hlen.
        cbn [filter confirms]. fold (confirms s).
        destruct (includes message (options_successMsg (config s))).
        -- exists (path :: new). rewrite Hout, <- app_assoc.
           split; [reflexivity|]. split.
           ++ constructor; [split; [now left | exact Ex]|].
              apply (Weaken _ new eq_refl Hall).
           ++ simpl. lia.
        -- exists new. split; [exact Hout|]. split.
           ++ apply (Weaken _ new eq_refl Hall).
           ++ exact Hlen.
      * apply IH in H. destruct H as (new & Hout & Hall & Hlen).
        exists new. split; [exact Hout|]. split;
          [apply (Weaken w new eq_refl Hall) | exact Hlen].
    + apply IH in H. destruct H as (new & Hout & Hall & Hlen).
      exists new. split; [exact Hout|]. split;
        [apply (Weaken w new eq_refl Hall) | exact Hlen].
Qed.

(** C8: of [/tmp/a.png], [/tmp/missing.png], [/tmp/b.png], the second not
    existing locally and the dialogs of the other two reporting success,
    the upload returns the first and the third in that order; the missing
    path gets no file chooser and no dialog wait.  In general every path
    returned is a string of the array that exists locally, and there are
    no more of them than dialogs that reported success. *)
Theorem upload_skips_missing_files (s : State) (w : World) (f : handle)
    (m1 m2 : string) (more : list (option string)) :
  fileManagerFrame s = Some f ->
  existsSync w "/tmp/a.png" = true ->
  existsSync w "/tmp/missing.png" = false ->
  existsSync w "/tmp/b.png" = true ->
  dialogs w = Some m1 :: Some m2 :: more ->
  includes m1 (options_successMsg (config s)) = true ->
  includes m2 (options_successMsg (config s)) = true ->
  let r := uploadFilesToFileManager
             [JsString "/tmp/a.png"; JsString "/tmp/missing.png";
              JsString "/tmp/b.png"] s w in
  result r = Ok ["/tmp/a.png"; "/tmp/b.png"] /\
  sinceLog w (worldOf r)
  = [WaitForSelector (selectors_uploadBtn (config s)) false;
     FileChooser (selectors_uploadBtn (config s));
     AcceptFiles "/tmp/a.png"; AcceptDialog;
     FileChooser (selectors_uploadBtn (config s));
     AcceptFiles "/tmp/b.png"; AcceptDialog] /\
  dialogs (worldOf r) = more /\
  (forall (paths : list jsValue) (s0 : State) (w0 : World)
          (uploaded : list string),
      result (uploadFilesToFileManager paths s0 w0) = Ok uploaded ->
      Forall (fun p => In (JsString p) paths /\ existsSync w0 p = true)
             uploaded /\
      List.length uploaded
      <= List.length (filter (confirms s0) (dialogs w0))).
Proof.
  intros Hf Ha Hm Hb Hd H1 H2 r.
  assert (E : exists w', r = (Ok ["/tmp/a.png"; "/tmp/b.png"], s, w') /\
                        dialogs w' = more /\
                        log w' = (log w ++
                          [WaitForSelector (selectors_uploadBtn (config s)) false;
                           FileChooser (selectors_uploadBtn (config s));
                           AcceptFiles "/tmp/a.png"; AcceptDialog;
                           FileChooser (selectors_uploadBtn (config s));
                           AcceptFiles "/tmp/b.png"; AcceptDialog])%list).
  { subst r. unfold uploadFilesToFileManager, bind, this, emit.
    rewrite Hf. cbn [uploadEach existsSync record is_string]. rewrite Ha.
    cbn [negb orb].
    unfold bind, emit, promiseAll, closeBrowserDialogPromise.
    cbn [dialogs record set_dialogs existsSync]. rewrite Hd. cbn [hd tl].
    rewrite H1. cbn [uploadEach existsSync record set_dialogs is_string].
    rewrite Hm.
    cbn [negb orb uploadEach existsSync record set_dialogs is_string].
    rewrite Hb.
    cbn [negb orb]. unfold bind, emit, promiseAll, closeBrowserDialogPromise.
    cbn [dialogs record set_dialogs hd tl]. rewrite H2.
    eexists. split; [reflexivity|]. split; [reflexivity|].
    cbn [log record set_dialogs]. rewrite <- !app_assoc. reflexivity. }
  destruct E as (w' & E & Dl & Lg). rewrite E.
  unfold result, worldOf. cbn [fst snd].
  split; [reflexivity|]. split; [now apply sinceLog_app|].
  split; [exact Dl|].
  intros paths s0 w0 uploaded Hr.
  unfold uploadFilesToFileManager, bind, this, emit, result in Hr.
  destruct (fileManagerFrame s0); [|discriminate].
  destruct (uploadEach _ paths [] s0 _) as [[[out|e|] s1] w1] eqn:EU;
    cbn [fst] in Hr; try discriminate.
  inversion Hr; subst out.
  apply uploadEach_only_confirmed in EU.
  destruct EU as (new & Hout & Hall & Hlen). cbn [app] in Hout. subst new.
  split; assumption.
Qed.

(** ** Sessions and the cursor *)

Lemma getFileIndexInFileManager_state (fileName : string) (s : State)
    (w : World) :
  stateOf (getFileIndexInFileManager fileName s w) = s.
Proof.
  unfold getFileIndexInFileManager, bind, this, emit, stateOf.
  destruct (clearFileName fileName) as [cleared|]; [|reflexivity].
  destruct (curDirFiles s) as [files|]; [|reflexivity].
  destruct (find _ files) as [[|c name]|]; try reflexivity.
  cbn [dom record].
  destruct (getFileIndexInFileManagerDOM (dom w) cleared); reflexivity.
Qed.

Lemma getFileFromFileManager_state (fileName : string) (s : State)
    (w : World) :
  stateOf (getFileFromFileManager fileName s w) = s.
Proof.
  unfold getFileFromFileManager, bind, this, stateOf.
  destruct (fileManagerFrame s); [|reflexivity].
  pose proof (getFileIndexInFileManager_state fileName s w) as K.
  unfold stateOf in K.
  destruct (getFileIndexInFileManager fileName s w) as [[[i|e|] s1] w1];
    cbn [fst snd] in *; try exact K.
  destruct (Z.eqb i (-1)); exact K.
Qed.

Lemma uploadFileToPage_state (fileName : string) (s : State) (w : World) :
  let r := uploadFileToPage fileName s w in
  curDirPath (stateOf r) = curDirPath s /\
  (result r = Ok true -> fileManagerFrame (stateOf r) = None).
Proof.
  unfold uploadFileToPage, result, stateOf, bind. cbv zeta.
  pose proof (getFileFromFileManager_state fileName s w) as K.
  unfold stateOf in K.
  destruct (getFileFromFileManager fileName s w) as [[[file|e|] s1] w1];
    cbn [fst snd] in *; subst s1.
  - destruct file as [i|]; unfold this, emit, assign, ret;
      cbn [fst snd];
      (split; [reflexivity | first [discriminate | intros _; reflexivity]]).
  - split; [reflexivity | discriminate].
  - split; [reflexivity | discriminate].
Qed.

(** C7 (amended): the cursor is [""] when the first construction
    returns; a later construction returns the live instance as it is,
    with the cursor it has.  Opening a file manager leaves the cursor
    where it was; closing it ([closeFileManager], the double click of
    [uploadFileToPage], closing the browser) clears the session handle,
    and [closeFileManager] and [uploadFileToPage] leave the cursor on the
    path it had; a navigation on a cleared handle throws. *)
Theorem session_end_keeps_cursor (cfg : Config) (live s : State)
    (w : World) (tabName fileName : string) (index : nat) :
  curDirPath (constructor None cfg) = "" /\
  (constructor (Some live) cfg = live /\
   curDirPath (constructor (Some live) cfg) = curDirPath live) /\
  curDirPath (stateOf (openFileManager tabName index s w)) = curDirPath s /\
  (curDirPath (stateOf (closeFileManager s w)) = curDirPath s /\
   fileManagerFrame (stateOf (closeFileManager s w)) = None) /\
  (curDirPath (stateOf (uploadFileToPage fileName s w)) = curDirPath s /\
   (result (uploadFileToPage fileName s w) = Ok true ->
    fileManagerFrame (stateOf (uploadFileToPage fileName s w)) = None)) /\
  (browser s <> None -> fileManagerFrame (stateOf (close s w)) = None) /\
  (forall (fuel : nat) (p : string),
      fileManagerFrame s = None ->
      navInFileManager fuel p s w = (Throw FileManagerClosed, s, w)).
Proof.
  split; [reflexivity|]. split; [split; reflexivity|].
  split; [|split; [|split; [|split]]].
  - unfold openFileManager, bind, this, emit, ret, stateOf.
    destruct (fileManagerFrame s) eqn:F; cbn [fst snd]; reflexivity.
  - unfold closeFileManager, bind, this, emit, assign, ret, stateOf.
    destruct (fileManagerFrame s) eqn:F; cbn [fst snd].
    + split; reflexivity.
    + split; [reflexivity | exact F].
  - apply uploadFileToPage_state.
  - unfold close, bind, this, emit, assign, ret, stateOf.
    destruct (browser s) eqn:B; cbn [fst snd]; [reflexivity | congruence].
  - intros fuel p F. unfold navInFileManager, bind, this, throw.
    rewrite F. reflexivity.
Qed.

(** * Runs on concrete inputs *)

(** The claim of C1, no close and no click of the common ancestor, fails
    from [a/b] to [a/c]: [a] is closed after [a/b] and clicked before
    [a/c]. *)
Lemma navigate_closes_and_reopens_ancestor :
  let w0 := serving [("a/b", ["x.png"]); ("a/c", ["y.png"])] 8 in
  let r1 := navInFileManager 8 "a/b" session0 w0 in
  let r2 := navInFileManager 8 "a/c" (stateOf r1) (worldOf r1) in
  (result r1 = Ok tt /\ result r2 = Ok tt) /\
  nearestIncluded "a/b" "a/c" = "a" /\
  closes (sinceLog (worldOf r1) (worldOf r2))
  = [getDirSelector "a/b"; getDirSelector "a"] /\
  closes (sinceLog (worldOf r1) (worldOf r2)) <> [getDirSelector "a/b"] /\
  activations (sinceLog (worldOf r1) (worldOf r2))
  = [Confirmed (getDirSelector "a") 2; Confirmed (getDirSelector "a/c") 1] /\
  map selectorOf (activations (sinceLog (worldOf r1) (worldOf r2)))
  <> [getDirSelector "a/c"].
Proof.
  cbv zeta. repeat split; try (vm_compute; reflexivity);
    vm_compute; discriminate.
Qed.

(** The driver calls of the scenario, every click acknowledged at once:
    the tear-down, the two double clicks, the wait for the target, the
    installation of the listing wait, the single click on the target. *)
Example navigate_scenario_log :
  let w0 := serving [("2024/spring", ["x.png"])] 3 in
  log (worldOf (navInFileManager 12 "2024/spring" session0 w0))
  = [WaitForSelector (getDirSelector "") true;
     CloseClass (getDirSelector "");
     WaitForSelector (getDirSelector "") false;
     Click (getDirSelector "") 2;
     WaitForSelector (getDirSelector "2024") false;
     ShowOnly (getDirSelector "2024");
     ClickRace (getDirSelector "2024") 2 50 true;
     WaitForSelector (getDirSelector "2024/spring") false;
     OnResponse 30000;
     ShowOnly (getDirSelector "2024/spring");
     ClickRace (getDirSelector "2024/spring") 1 50 true].
Proof. vm_compute. reflexivity. Qed.

(** A navigation by the body of the reply to its listing request: an
    empty body runs the wait into its timer, a body that cannot be parsed
    leaves the navigation pending for ever, an empty listing resolves. *)
Example navigate_by_reply_body :
  let world b :=
    {| log := []; acks := repeat true 3;
       traffic := [[ {| request := listingRequest (listingPayload "a");
                        reply := b |} ]];
       dom := []; existsSync := fun _ => false; dialogs := [];
       frames := 1 |} in
  result (navInFileManager 4 "a" session0 (world EmptyBody))
  = Throw (TimeoutExceeded 30000) /\
  result (navInFileManager 4 "a" session0 (world Unparsable)) = Diverge /\
  result (navInFileManager 4 "a" session0 (world (Listing []))) = Ok tt.
Proof. cbv zeta. repeat split; vm_compute; reflexivity. Qed.

(** The scenario of C2 fails as stated: from [""] to [2024/spring] the
    root is closed once, and the clicks are a double on the root, a
    double on [2024] and a single on [2024/spring]. *)
Lemma navigate_scenario_closes_root_and_single_clicks_target :
  let w0 := serving [("2024/spring", ["x.png"])] 3 in
  let r := navInFileManager 12 "2024/spring" session0 w0 in
  result r = Ok tt /\
  closes (log (worldOf r)) = [getDirSelector ""] /\
  closes (log (worldOf r)) <> [] /\
  activations (log (worldOf r))
  = [Unchecked (getDirSelector "") 2;
     Confirmed (getDirSelector "2024") 2;
     Confirmed (getDirSelector "2024/spring") 1] /\
  activations (log (worldOf r))
  <> [Confirmed (getDirSelector "2024") 2;
      Confirmed (getDirSelector "2024/spring") 2].
Proof.
  cbv zeta. repeat split; try (vm_compute; reflexivity);
    vm_compute; discriminate.
Qed.

(** The claim of C5 that [do] is not found fails: it is found at the index
    of [dog.jpg]. *)
Lemma locate_finds_bare_prefix :
  result (getFileIndexInFileManager "do" petsState petsWorld) = Ok 1%Z /\
  result (getFileIndexInFileManager "do" petsState petsWorld) <> Ok (-1)%Z /\
  result (getFileIndexInFileManager "dog.jpg" petsState petsWorld) = Ok 1%Z.
Proof.
  repeat split; try (vm_compute; reflexivity). vm_compute. discriminate.
Qed.

(** The claim of C6 that a retry after the timeout is safe fails for a
    navigation upwards.  From [a/b], with the listing of [a/b] cached, a
    navigation to [a] whose wait times out leaves the cursor on [a]; the
    retry, in a world that would serve the listing of [a], returns at the
    equality check without a driver call, and the cached listing is still
    the one of [a/b]. *)
Lemma retry_after_upward_timeout_keeps_old_listing :
  let s := set_curDirPath "a/b"
             (set_curDirFiles (Some ["old.png"]) session0) in
  let r := navInFileManager 8 "a" s (quiet 3) in
  let w2 := serving [("a", ["new.png"])] 3 in
  let r2 := navInFileManager 8 "a" (stateOf r) w2 in
  (result r = Throw (TimeoutExceeded 30000) /\
   curDirPath (stateOf r) = "a") /\
  listingOutcome (stateOf r) w2 "a" = Resolved ["new.png"] /\
  (result r2 = Ok tt /\ sinceLog w2 (worldOf r2) = []) /\
  curDirFiles (stateOf r2) = Some ["old.png"] /\
  curDirFiles (stateOf r2) <> Some ["new.png"].
Proof.
  cbv zeta. repeat split; try (vm_compute; reflexivity).
  vm_compute. discriminate.
Qed.

(** The claim of C7 fails: after a session that navigated to [a] is
    closed, the cursor is still the path [a], and it is still [a], not
    [""], when the next session opens, also on the instance a further
    construction returns. *)
Lemma cursor_survives_session_end :
  let w0 := serving [("a", ["x.png"])] 4 in
  let closed :=
    (openFileManager "data" 0 ;; navInFileManager 4 "a" ;; closeFileManager)
      (constructor None config0) w0 in
  let reopened := openFileManager "data" 0 (stateOf closed) (worldOf closed) in
  (result closed = Ok tt /\ result reopened = Ok tt) /\
  (fileManagerFrame (stateOf closed) = None /\
   curDirPath (stateOf closed) = "a") /\
  (fileManagerFrame (stateOf reopened) = Some (Handle 2) /\
   curDirPath (stateOf reopened) = "a" /\
   curDirPath (stateOf reopened) <> "") /\
  curDirPath (constructor (Some (stateOf closed)) config0) = "a" /\
  curDirPath (constructor (Some (stateOf closed)) config0) <> "".
Proof.
  cbv zeta. repeat split; try (vm_compute; reflexivity);
    vm_compute; discriminate.
Qed.

(** ** The theorems at concrete inputs *)

Lemma gate_forwards_only_armed_payload_witness :
  let req := listingRequest "directory=a" in
  let armed := allowXhr (Some "directory=a") true session0 in
  tracked session0 req = true /\
  postData req = Some "directory=a" /\
  fst (onRequest armed req) = Continue /\
  fst (onRequest (snd (onRequest armed req)) req) = RespondEmpty.
Proof.
  cbv zeta.
  pose proof (gate_forwards_only_armed_payload session0 "directory=a" true
                (listingRequest "directory=a") (listingRequest "directory=a")
                eq_refl eq_refl eq_refl eq_refl) as (_ & H2 & H3 & _).
  split; [reflexivity|]. split; [reflexivity|]. split; [exact H2|].
  apply H3; [reflexivity | reflexivity | exact H2].
Defined.

Lemma listing_payload_encodes_first_slash_only_witness :
  2 <= count "/" "a/b/c" /\
  exists a rest,
    "a/b/c" = a ++ "/" ++ rest /\
    count "/" a = 0 /\
    1 <= count "/" rest /\
    listingPayload "a/b/c" = "directory=" ++ a ++ "%2F" ++ rest.
Proof.
  assert (H : 2 <= count "/" "a/b/c") by (simpl; apply le_n).
  split; [exact H|].
  destruct (listing_payload_encodes_first_slash_only "a/b/c" H)
    as (a & rest & H1 & H2 & H3 & H4 & _).
  exists a, rest. repeat split; assumption.
Defined.

Lemma confirmed_click_third_attempt_witness :
  let w := set_acks [false; false; true] (quiet 0) in
  let r := clickDir "2024" 2 session0 w in
  "2024" <> "" /\
  acks w = [false; false; true] /\
  result r = Ok tt /\
  clicksIssued (sinceLog w (worldOf r))
  = [(getDirSelector "2024", 2); (getDirSelector "2024", 2);
     (getDirSelector "2024", 2)].
Proof.
  cbv zeta.
  assert (Hp : "2024" <> "") by discriminate.
  pose proof (confirmed_click_third_attempt "2024" 2 session0
                (set_acks [false; false; true] (quiet 0)) [] Hp eq_refl)
    as (H1 & _ & _ & H4 & _).
  split; [exact Hp|]. split; [reflexivity|]. split; [exact H1 | exact H4].
Defined.

Lemma navigate_again_is_noop_witness :
  let w := serving [("a", ["x.png"])] 4 in
  let r := navInFileManager 4 "a" session0 w in
  r = (Ok tt, stateOf r, worldOf r) /\
  navInFileManager 9 "a" (stateOf r) (worldOf r)
  = (Ok tt, stateOf r, worldOf r).
Proof.
  cbv zeta.
  assert (H : navInFileManager 4 "a" session0 (serving [("a", ["x.png"])] 4)
              = (Ok tt,
                 stateOf (navInFileManager 4 "a" session0
                            (serving [("a", ["x.png"])] 4)),
                 worldOf (navInFileManager 4 "a" session0
                            (serving [("a", ["x.png"])] 4))))
    by (vm_compute; reflexivity).
  split; [exact H|].
  exact (proj1 (navigate_again_is_noop 4 9 "a" session0 _ _ _ H)).
Defined.

Lemma navigate_closes_then_opens_witness :
  let w0 := serving [("a/b", ["x.png"]); ("a/c", ["y.png"])] 8 in
  let r1 := navInFileManager 8 "a/b" session0 w0 in
  let r2 := navInFileManager 8 "a/c" (stateOf r1) (worldOf r1) in
  r1 = (Ok tt, stateOf r1, worldOf r1) /\
  In (nearestIncluded "a/b" "a/c") (chain "a/b") /\
  listingOutcome (stateOf r1) (worldOf r1) "a/c" = Resolved ["y.png"] /\
  result r2 = Ok tt /\
  closes (sinceLog (worldOf r1) (worldOf r2))
  = map getDirSelector
      (strictlyBelow (nearestIncluded "a/b" "a/c") (chain "a/b")
       ++ [nearestIncluded "a/b" "a/c"]).
Proof.
  cbv zeta.
  set (w0 := serving [("a/b", ["x.png"]); ("a/c", ["y.png"])] 8).
  assert (H1 : navInFileManager 8 "a/b" session0 w0
               = (Ok tt, stateOf (navInFileManager 8 "a/b" session0 w0),
                  worldOf (navInFileManager 8 "a/b" session0 w0)))
    by (vm_compute; reflexivity).
  assert (Hne : "a/b" <> "a/c") by discriminate.
  assert (Hin : In (nearestIncluded "a/b" "a/c") (chain "a/b"))
    by (right; left; reflexivity).
  assert (Hl1 : String.length "a/b" < 8) by (vm_compute; repeat constructor).
  assert (Hl2 : String.length "a/c" < 8) by (vm_compute; repeat constructor).
  assert (Ha : List.length (opened (nearestIncluded "a/b" "a/c") "a/c")
               <= trues (acks (worldOf (navInFileManager 8 "a/b" session0 w0))))
    by (vm_compute; repeat constructor).
  assert (Hls : listingOutcome (stateOf (navInFileManager 8 "a/b" session0 w0))
                  (worldOf (navInFileManager 8 "a/b" session0 w0)) "a/c"
                = Resolved ["y.png"]) by (vm_compute; reflexivity).
  pose proof (navigate_closes_then_opens 8 "a/b" "a/c" session0 _ w0 _
                ["y.png"] H1 Hne Hin Hl1 Hl2 Ha Hls)
    as (R & _ & _ & _ & C & _).
  split; [exact H1|]. split; [exact Hin|]. split; [exact Hls|].
  split; [exact R | exact C].
Defined.

Lemma navigate_activations_witness :
  let w := serving [("2024/spring", ["x.png"])] 3 in
  let r := navInFileManager 12 "2024/spring" session0 w in
  curDirPath session0 <> "2024/spring" /\
  listingOutcome session0 w "2024/spring" = Resolved ["x.png"] /\
  result r = Ok tt /\
  activations (sinceLog w (worldOf r))
  = [Unchecked (getDirSelector "") 2;
     Confirmed (getDirSelector "2024") 2;
     Confirmed (getDirSelector "2024/spring") 1] /\
  allowedXhrPostData (stateOf r) = Some "directory=2024%2Fspring".
Proof.
  cbv zeta.
  set (w := serving [("2024/spring", ["x.png"])] 3).
  assert (Hne : curDirPath session0 <> "2024/spring") by discriminate.
  assert (Hin : In (nearestIncluded (curDirPath session0) "2024/spring")
                  (chain (curDirPath session0)))
    by (left; reflexivity).
  assert (Hl1 : String.length (curDirPath session0) < 12)
    by (vm_compute; repeat constructor).
  assert (Hl2 : String.length "2024/spring" < 12)
    by (vm_compute; repeat constructor).
  assert (Ha : List.length
                 (opened (nearestIncluded (curDirPath session0) "2024/spring")
                    "2024/spring") <= trues (acks w))
    by (vm_compute; repeat constructor).
  assert (Hls : listingOutcome session0 w "2024/spring"
                = Resolved ["x.png"])
    by (vm_compute; reflexivity).
  pose proof (navigate_activations 12 "2024/spring" session0 w (Handle 0)
                ["x.png"] eq_refl Hne Hin Hl1 Hl2 Ha Hls)
    as (R & _ & _ & _ & _ & S & _).
  destruct (S eq_refl eq_refl) as (_ & A & G).
  split; [exact Hne|]. split; [exact Hls|]. split; [exact R|].
  split; [exact A | exact G].
Defined.

Lemma navigate_timeout_keeps_progress_witness :
  let w := quiet 3 in
  let r := navInFileManager 8 "a/b" session0 w in
  listingOutcome session0 w "a/b" = Rejected /\
  result r = Throw (TimeoutExceeded 30000) /\
  curDirPath (stateOf r) = "a" /\
  curDirFiles (stateOf r) = None /\
  curDirPath
    (stateOf (navInFileManager 8 "a/b" (stateOf r)
                (serving [("a/b", ["x.png"])] 2)))
  = "a/b".
Proof.
  cbv zeta.
  assert (Hne : curDirPath session0 <> "a/b") by discriminate.
  assert (Hin : In (nearestIncluded (curDirPath session0) "a/b")
                  (chain (curDirPath session0)))
    by (left; reflexivity).
  assert (Hl1 : String.length (curDirPath session0) < 8)
    by (vm_compute; repeat constructor).
  assert (Hl2 : String.length "a/b" < 8) by (vm_compute; repeat constructor).
  assert (Ha : List.length
                 (opened (nearestIncluded (curDirPath session0) "a/b") "a/b")
               <= trues (acks (quiet 3)))
    by (vm_compute; repeat constructor).
  assert (Hls : listingOutcome session0 (quiet 3) "a/b" = Rejected)
    by reflexivity.
  pose proof (navigate_timeout_keeps_progress 8 "a/b" session0 (quiet 3)
                (Handle 0) eq_refl Hne Hin Hl1 Hl2 Ha Hls)
    as (R & C & _ & F & Retry & _).
  assert (Ha2 : 2 <= trues (acks (serving [("a/b", ["x.png"])] 2)))
    by (vm_compute; repeat constructor).
  assert (Hls2 : listingOutcome
                   (stateOf (navInFileManager 8 "a/b" session0 (quiet 3)))
                   (serving [("a/b", ["x.png"])] 2) "a/b"
                 = Resolved ["x.png"])
    by (vm_compute; reflexivity).
  assert (Hnp : "a/b" <> nearestIncluded (curDirPath session0) "a/b")
    by (vm_compute; discriminate).
  destruct (Retry Hnp _ ["x.png"] Ha2 Hls2) as (_ & C2 & _).
  split; [exact Hls|]. split; [exact R|]. split; [exact C|].
  split; [exact F | exact C2].
Defined.

Lemma locate_matches_by_prefix_witness :
  curDirFiles petsState = Some ["cat.png"; "dog.jpg"] /\
  dom petsWorld = ["cat.png"; "dog.jpg"] /\
  result (getFileIndexInFileManager "dog" petsState petsWorld) = Ok 1%Z /\
  getFileIndexInFileManager "frog.png" petsState petsWorld
  = (Ok (-1)%Z, petsState, petsWorld).
Proof.
  pose proof (locate_matches_by_prefix petsState petsWorld eq_refl eq_refl)
    as (H1 & _ & _ & H4).
  split; [reflexivity|]. split; [reflexivity|].
  split; [exact H1 | exact (H4 petsWorld)].
Defined.

Lemma upload_skips_missing_files_witness :
  existsSync uploadWorld "/tmp/missing.png" = false /\
  dialogs uploadWorld = [Some "a.png uploaded"; Some "b.png uploaded"] /\
  result (uploadFilesToFileManager
            [JsString "/tmp/a.png"; JsString "/tmp/missing.png";
             JsString "/tmp/b.png"] session0 uploadWorld)
  = Ok ["/tmp/a.png"; "/tmp/b.png"].
Proof.
  pose proof (upload_skips_missing_files session0 uploadWorld (Handle 0)
                "a.png uploaded" "b.png uploaded" []
                eq_refl eq_refl eq_refl eq_refl eq_refl eq_refl eq_refl)
    as (H1 & _).
  split; [reflexivity|]. split; [reflexivity | exact H1].
Defined.

Lemma session_end_keeps_cursor_witness :
  let s := set_browser (Some (Handle 0)) (set_curDirPath "a" session0) in
  browser s <> None /\
  fileManagerFrame (stateOf (close s (quiet 0))) = None /\
  navInFileManager 4 "a/b" (stateOf (close s (quiet 0))) (quiet 0)
  = (Throw FileManagerClosed, stateOf (close s (quiet 0)), quiet 0).
Proof.
  cbv zeta.
  set (s := set_browser (Some (Handle 0)) (set_curDirPath "a" session0)).
  assert (Hb : browser s <> None) by discriminate.
  pose proof (session_end_keeps_cursor config0 s s (quiet 0) "data"
                "x.png" 0)
    as (_ & _ & _ & _ & _ & F & _).
  pose proof (session_end_keeps_cursor config0 s
                (stateOf (close s (quiet 0))) (quiet 0) "data" "x.png" 0)
    as (_ & _ & _ & _ & _ & _ & N).
  split; [exact Hb|]. split; [exact (F Hb)|].
  exact (N 4 "a/b" (F Hb)).
Defined.

(** * Further properties *)

(** ** Tokens in URLs ([url.js]) *)

Lemma afterPrefix_Some (p : string) :
  forall s r : string, Url.afterPrefix p s = Some r -> s = p ++ r.
Proof.
  induction p as [|a p IH]; intros s r H; simpl in H.
  - inversion H. reflexivity.
  - destruct s as [|b s]; [discriminate|].
    destruct (Ascii.eqb_spec a b) as [->|]; [|discriminate].
    apply IH in H. subst. reflexivity.
Qed.

Lemma afterPrefix_app (p r : string) : Url.afterPrefix p (p ++ r) = Some r.
Proof.
  induction p as [|a p IH]; simpl; [reflexivity|].
  rewrite Ascii.eqb_refl. exact IH.
Qed.

Lemma afterPrefix_prefix (p : string) :
  forall s : string,
    String.prefix p s = match Url.afterPrefix p s with
                        | Some _ => true
                        | None => false
                        end.
Proof.
  induction p as [|a p IH]; intros [|b s]; simpl; try reflexivity.
  destruct (ascii_dec a b) as [->|NE].
  - rewrite Ascii.eqb_refl. apply IH.
  - destruct (Ascii.eqb_spec a b); [contradiction | reflexivity].
Qed.

Lemma count_app (c : ascii) (a b : string) :
  count c (a ++ b) = count c a + count c b.
Proof.
  induction a as [|x a IH]; simpl; [reflexivity|]. rewrite IH. lia.
Qed.

Lemma allWord_no_ampersand (s : string) :
  Url.allWord s = true -> count "&" s = 0.
Proof.
  induction s as [|c s IH]; simpl; [reflexivity|].
  intros H. apply andb_true_iff in H. destruct H as [Hc Hs].
  destruct (Ascii.eqb_spec c "&") as [->|]; [discriminate|].
  now apply IH.
Qed.

Lemma clearToken_unfold (url : string) :
  Url.clearToken url =
  match Url.afterPrefix "&token=" url with
  | Some rest =>
      if Url.allWord rest then ""
      else match url with
           | EmptyString => EmptyString
           | String c url' => String c (Url.clearToken url')
           end
  | None =>
      match url with
      | EmptyString => EmptyString
      | String c url' => String c (Url.clearToken url')
      end
  end.
Proof. destruct url; reflexivity. Qed.

(** A token appended by [tokenizeUrl] is cut off again, and nothing
    before it. *)
Lemma clearToken_appended (x w : string) :
  Url.allWord w = true -> Url.clearToken (x ++ "&token=" ++ w) = x.
Proof.
  intros Hw. induction x as [|c x IH].
  - rewrite clearToken_unfold.
    change ("" ++ "&token=" ++ w) with ("&token=" ++ w).
    rewrite afterPrefix_app, Hw. reflexivity.
  - change (String c x ++ "&token=" ++ w)
      with (String c (x ++ "&token=" ++ w)).
    rewrite clearToken_unfold. cbv iota. rewrite IH.
    destruct (Url.afterPrefix "&token=" (String c (x ++ "&token=" ++ w)))
      as [rest|] eqn:E; [|reflexivity].
    apply afterPrefix_Some in E.
    assert (Hc : count "&" (String c (x ++ "&token=" ++ w))
                 = count "&" ("&token=" ++ rest)) by (rewrite E; reflexivity).
    assert (Hfirst : c = "&"%char) by (inversion E; reflexivity).
    subst c. cbn [count] in Hc. rewrite Ascii.eqb_refl in Hc.
    rewrite count_app in Hc.
    change (count "&" ("&token=" ++ w)) with (1 + count "&" w) in Hc.
    change (count "&" ("&token=" ++ rest)) with (1 + count "&" rest) in Hc.
    rewrite (allWord_no_ampersand w Hw) in Hc.
    destruct (Url.allWord rest) eqn:Hr; [|reflexivity].
    apply allWord_no_ampersand in Hr. lia.
Qed.

(** X1: tokenizing a URL that [tokenizeUrl] has already tokenized
    replaces the token: the result is the same as tokenizing the original
    URL, for every former token of word characters, the empty one of
    [Cartmin.close] included. *)
Theorem tokenizeUrl_overrides (url t1 t2 : string) :
  Url.allWord t1 = true ->
  Url.tokenizeUrl (Url.tokenizeUrl url t1) t2 = Url.tokenizeUrl url t2.
Proof.
  intros H. unfold Url.tokenizeUrl at 1 3.
  unfold Url.tokenizeUrl. rewrite (clearToken_appended _ t1 H). reflexivity.
Qed.

Lemma takeWord_allWord (t : string) :
  Url.allWord t = true -> Url.takeWord t = t.
Proof.
  induction t as [|c t IH]; simpl; [reflexivity|].
  intros H. apply andb_true_iff in H. destruct H as [Hc Ht].
  rewrite Hc, IH by exact Ht. reflexivity.
Qed.

Lemma allWord_takeWord (s : string) : Url.allWord (Url.takeWord s) = true.
Proof.
  induction s as [|c s IH]; simpl; [reflexivity|].
  destruct (Url.wordChar c) eqn:E; simpl; [|reflexivity].
  rewrite E. exact IH.
Qed.

(** [clearToken] keeps a prefix of the URL. *)
Lemma clearToken_prefix (url : string) :
  String.prefix (Url.clearToken url) url = true.
Proof.
  induction url as [|c url IH]; [reflexivity|].
  rewrite clearToken_unfold.
  assert (K : String.prefix (String c (Url.clearToken url)) (String c url)
              = true).
  { simpl. destruct (ascii_dec c c); [exact IH | congruence]. }
  destruct (Url.afterPrefix "&token=" (String c url)) as [rest|];
    [destruct (Url.allWord rest)|]; try exact K. reflexivity.
Qed.

(** [token=] cannot start in [a] and run over a following [&]. *)
Lemma token_not_across_ampersand (a b r : string) :
  Url.afterPrefix "token=" (a ++ String "&" b) = Some r ->
  String.prefix "token=" a = true.
Proof.
  rewrite (afterPrefix_prefix "token=" a).
  destruct a as [|c1 [|c2 [|c3 [|c4 [|c5 [|c6 a]]]]]];
    cbn [Url.afterPrefix String.append];
    repeat (match goal with
            | |- context [Ascii.eqb ?x ?y] =>
                destruct (Ascii.eqb_spec x y); try discriminate
            end;
            cbn [Url.afterPrefix String.append]);
    intros H; first [discriminate H | reflexivity].
Qed.

Lemma matchToken_appended (c t : string) :
  includes c "token=" = false ->
  Url.allWord t = true ->
  Url.matchToken (c ++ "&token=" ++ t) = Some ("token=" ++ t).
Proof.
  intros Hc Ht. induction c as [|x c IH].
  - simpl. rewrite (takeWord_allWord t Ht). reflexivity.
  - cbn [includes] in Hc. apply orb_false_iff in Hc. destruct Hc as [Hp Hi].
    change (String x c ++ "&token=" ++ t)
      with (String x (c ++ "&token=" ++ t)).
    cbn [Url.matchToken].
    destruct (Url.afterPrefix "token=" (String x (c ++ "&token=" ++ t)))
      as [r|] eqn:E.
    + apply (token_not_across_ampersand (String x c) ("token=" ++ t) r) in E.
      congruence.
    + apply IH. exact Hi.
Qed.

(** X2: the token put into a URL by [tokenizeUrl] is the one
    [extractToken] reads back, when the token consists of word characters
    and the URL held no [token=] before. *)
Theorem extractToken_tokenizeUrl (url token : string) :
  includes url "token=" = false ->
  Url.allWord token = true ->
  Url.extractToken (Url.tokenizeUrl url token) = Ok token.
Proof.
  intros Hu Ht. unfold Url.extractToken, Url.tokenizeUrl.
  assert (Hc : includes (Url.clearToken url) "token=" = false).
  { destruct (includes (Url.clearToken url) "token=") eqn:E; [|reflexivity].
    rewrite (includes_of_prefix _ url _ (clearToken_prefix url) E) in Hu.
    discriminate. }
  rewrite (matchToken_appended _ token Hc Ht). reflexivity.
Qed.

Lemma matchToken_includes (url : string) :
  match Url.matchToken url with
  | None => includes url "token=" = false
  | Some m =>
      includes url "token=" = true /\
      exists w, m = "token=" ++ w /\ Url.allWord w = true
  end.
Proof.
  induction url as [|c url IH].
  - reflexivity.
  - cbn [Url.matchToken includes].
    rewrite (afterPrefix_prefix "token=" (String c url)).
    destruct (Url.afterPrefix "token=" (String c url)) as [rest|].
    + split; [reflexivity|]. exists (Url.takeWord rest).
      split; [reflexivity | apply allWord_takeWord].
    + destruct (Url.matchToken url) as [m|].
      * destruct IH as (Hi & w & Hm & Hw). rewrite Hi. split; [reflexivity|].
        eauto.
      * rewrite IH. reflexivity.
Qed.

(** X3: [extractToken] throws a [TypeError] exactly on the URLs that hold
    no [token=]; on every other URL it returns a string of word
    characters (possibly empty). *)
Theorem extractToken_throws_without_token (url : string) :
  (includes url "token=" = false <->
   Url.extractToken url = Throw TypeError) /\
  (includes url "token=" = true <->
   exists token, Url.extractToken url = Ok token /\
                 Url.allWord token = true).
Proof.
  unfold Url.extractToken. pose proof (matchToken_includes url) as H.
  destruct (Url.matchToken url) as [m|].
  - destruct H as (Hi & w & -> & Hw). rewrite Hi.
    assert (E : Url.replaceString ("token=" ++ w) "token=" "" = w)
      by reflexivity.
    rewrite E. split; split; try discriminate; eauto.
  - rewrite H. split; split; try reflexivity; try discriminate.
    intros (token & E & _). discriminate.
Qed.

(** ** The request gate over whole runs *)

Lemma onRequests_cons (s : State) (req : Request) (rest : list Request) :
  onRequests s (req :: rest)
  = (fst (onRequest s req)
       :: fst (onRequests (snd (onRequest s req)) rest),
     snd (onRequests (snd (onRequest s req)) rest)).
Proof.
  cbn [onRequests]. destruct (onRequest s req) as [d s1]. cbn [fst snd].
  destruct (onRequests s1 rest) as [ds s2]. reflexivity.
Qed.

(** A tracked request is let through only when the duplicate test does
    not stop it. *)
Lemma onRequest_tracked (s : State) (req : Request) :
  tracked s req = true ->
  onRequest s req
  = if strictEq (postData req) (allowedXhrPostData s) then
      (if blockRepetitiveXhr s &&
          strictEq (postData req) (lastXhrPostData s)
       then RespondEmpty else Continue,
       set_gate (blockRepetitiveXhr s) (allowedXhrPostData s)
         (allowedXhrPostData s) s)
    else (RespondEmpty, s).
Proof.
  intros Ht. unfold onRequest. rewrite Ht, (passOn_tracked s req Ht).
  destruct (strictEq (postData req) (allowedXhrPostData s)); cbn [negb];
    [|reflexivity].
  cbn [blockRepetitiveXhr set_gate].
  destruct (blockRepetitiveXhr s && _); reflexivity.
Qed.

Lemma onRequest_untracked (s : State) (req : Request) :
  tracked s req = false -> onRequest s req = (passOn req, s).
Proof. intros Ht. unfold onRequest. rewrite Ht. reflexivity. Qed.

(** Once the armed payload has been seen with blocking on, no tracked
    request is forwarded any more. *)
Lemma forwardedTracked_after_first (s0 : State) (K : string)
    (reqs : list Request) :
  forall s : State,
    config s = config s0 ->
    blockRepetitiveXhr s = true ->
    allowedXhrPostData s = Some K ->
    lastXhrPostData s = Some K ->
    forwardedTracked s0 reqs (fst (onRequests s reqs)) = [].
Proof.
  induction reqs as [|req rest IH]; intros s Hc Hb Ha Hl; [reflexivity|].
  rewrite onRequests_cons. unfold forwardedTracked. cbn [fst combine filter].
  destruct (tracked s0 req) eqn:Ht.
  - assert (Ht' : tracked s req = true)
      by (rewrite (tracked_config _ _ req Hc); exact Ht).
    rewrite (onRequest_tracked s req Ht'), Ha, Hl, Hb.
    destruct (strictEq (postData req) (Some K)); cbn [fst snd andb forwarded].
    + apply IH; try reflexivity. exact Hc.
    + apply IH; assumption.
  - assert (Ht' : tracked s req = false)
      by (rewrite (tracked_config _ _ req Hc); exact Ht).
    rewrite (onRequest_untracked s req Ht'). cbn [fst snd andb].
    apply IH; assumption.
Qed.

(** X4: armed with a payload and with duplicate blocking on, the gate
    forwards at most one tracked request out of any sequence: the first
    that carries the payload. *)
Theorem gate_is_single_flight (s : State) (K : string)
    (reqs : list Request) :
  List.length
    (forwardedTracked s reqs
       (fst (onRequests (allowXhr (Some K) true s) reqs))) <= 1 /\
  Forall (fun rd => postData (fst rd) = Some K)
    (forwardedTracked s reqs
       (fst (onRequests (allowXhr (Some K) true s) reqs))).
Proof.
  assert (G : forall s1 : State,
             config s1 = config s ->
             blockRepetitiveXhr s1 = true ->
             allowedXhrPostData s1 = Some K ->
             lastXhrPostData s1 = None ->
             List.length (forwardedTracked s reqs (fst (onRequests s1 reqs)))
             <= 1 /\
             Forall (fun rd => postData (fst rd) = Some K)
               (forwardedTracked s reqs (fst (onRequests s1 reqs)))).
  { induction reqs as [|req rest IH]; intros s1 Hc Hb Ha Hl.
    - split; [simpl; lia | constructor].
    - rewrite onRequests_cons. unfold forwardedTracked.
      cbn [fst combine filter].
      destruct (tracked s req) eqn:Ht.
      + assert (Ht' : tracked s1 req = true)
          by (rewrite (tracked_config _ _ req Hc); exact Ht).
        rewrite (onRequest_tracked s1 req Ht'), Ha, Hl, Hb.
        destruct (strictEq (postData req) (Some K)) eqn:Hp;
          cbn [fst snd andb forwarded].
        * replace (strictEq (postData req) None) with false
            by (destruct (postData req); reflexivity).
          cbn [fst snd andb forwarded].
          fold (forwardedTracked s rest
                  (fst (onRequests (set_gate true (Some K) (Some K) s1) rest))).
          rewrite (forwardedTracked_after_first s K rest
                     (set_gate true (Some K) (Some K) s1) Hc eq_refl eq_refl
                     eq_refl).
          split; [simpl; lia|]. constructor; [|constructor].
          apply strictEq_true in Hp. destruct Hp as (K' & E1 & E2).
          cbn [fst]. congruence.
        * apply (IH s1); assumption.
      + assert (Ht' : tracked s1 req = false)
          by (rewrite (tracked_config _ _ req Hc); exact Ht).
        rewrite (onRequest_untracked s1 req Ht'). cbn [fst snd andb].
        apply (IH s1); assumption. }
  apply G; reflexivity.
Qed.

Lemma onRequests_blocking_off (K : string) (reqs : list Request) :
  forall s : State,
    blockRepetitiveXhr s = false ->
    allowedXhrPostData s = Some K ->
    forall (r : Request) (d : decision),
      In (r, d) (combine reqs (fst (onRequests s reqs))) ->
      tracked s r = true ->
      d = if strictEq (postData r) (Some K) then Continue else RespondEmpty.
Proof.
  induction reqs as [|req rest IH]; intros s Hb Ha r d Hin Ht;
    [contradiction|].
  rewrite onRequests_cons in Hin. cbn [fst combine] in Hin.
  pose proof (onRequest_keeps s req) as K1. cbv zeta in K1.
  destruct K1 as (Kc & Ka & Kb & _).
  destruct Hin as [E|Hin].
  - inversion E; subst r d.
    rewrite (onRequest_tracked s req Ht), Ha, Hb.
    destruct (strictEq (postData req) (Some K)); reflexivity.
  - apply (IH (snd (onRequest s req))); try congruence.
    rewrite (tracked_config _ _ r Kc). exact Ht.
Qed.

(** X5: armed with a payload and with duplicate blocking off, the gate
    forwards every tracked request that carries the payload, however
    often it is repeated, and answers every other tracked request with
    the empty response. *)
Theorem gate_without_blocking_forwards_repeats (s : State) (K : string)
    (reqs : list Request) (r : Request) (d : decision) :
  In (r, d) (combine reqs (fst (onRequests (allowXhr (Some K) false s) reqs))) ->
  tracked s r = true ->
  d = if strictEq (postData r) (Some K) then Continue else RespondEmpty.
Proof.
  intros Hin Ht.
  apply (onRequests_blocking_off K reqs (allowXhr (Some K) false s)
           eq_refl eq_refl r d Hin).
  exact Ht.
Qed.

Lemma promiseAll_Ok {A : Type} (p : M A) (c : M unit) (s s' : State)
    (w w' : World) (a : A) :
  promiseAll p c s w = (Ok a, s', w') ->
  exists s1 w1, c s w = (Ok tt, s1, w1) /\ p s1 w1 = (Ok a, s', w').
Proof.
  unfold promiseAll. destruct (c s w) as [[rc s1] w1].
  destruct (p s1 w1) as [[rp s2] w2] eqn:Ep.
  destruct rp as [a'|e|], rc as [[]|e'|]; intros H; inversion H; subst.
  exists s1, w1. split; [reflexivity | exact Ep].
Qed.

(** The gate as a navigation that ran to its end leaves it. *)
Lemma navInFileManager_leaves_gate (fuel : nat) (p : string) (s s' : State)
    (w w' : World) :
  navInFileManager fuel p s w = (Ok tt, s', w') ->
  curDirPath s <> p ->
  blockRepetitiveXhr s' = false /\
  allowedXhrPostData s' = Some (listingPayload p) /\
  lastXhrPostData s' = None /\
  exists files, curDirFiles s' = Some files.
Proof.
  intros H Hne. unfold navInFileManager in H.
  apply bind_Ok in H. destruct H as (s0 & s1 & w1 & E0 & H).
  inversion E0; subst s0 s1 w1; clear E0.
  destruct (fileManagerFrame s) as [f|]; [|discriminate].
  destruct (String.eqb_spec (curDirPath s) p) as [E|_]; [contradiction|].
  apply bind_Ok in H. destruct H as (? & s1 & w1 & _ & H).
  apply bind_Ok in H. destruct H as (? & s2 & w2 & _ & H).
  apply bind_Ok in H. destruct H as (s2' & s3 & w3 & E3 & H).
  inversion E3; subst s2' s3 w3; clear E3.
  destruct (pathsDownTo fuel (curDirPath s2) p []) as [paths|] eqn:EP;
    [|discriminate].
  apply pathsDownTo_last in EP. destruct EP as (l & -> & Hl).
  rewrite app_nil_r in H.
  assert (HL : last (curDirPath s2 :: l) "" = p).
  { rewrite last_cons_default. destruct Hl as [[-> ->]|[Hn HL]];
      [reflexivity|].
    destruct l as [|y l]; [congruence|].
    rewrite last_cons_default in HL. rewrite last_cons_default.
    exact HL. }
  rewrite HL in H.
  apply bind_Ok in H. destruct H as (? & s3 & w3 & _ & H).
  apply bind_Ok in H. destruct H as (? & s4 & w4 & _ & H).
  apply bind_Ok in H. destruct H as (listing & s5 & w5 & E5 & H).
  rewrite getDirFilesPromise_arms in E5. inversion E5; subst listing s5 w5.
  clear E5.
  apply bind_Ok in H. destruct H as (files & s6 & w6 & E6 & H).
  apply promiseAll_Ok in E6. destruct E6 as (s5 & w5 & Ec & El).
  destruct (clickDir_any p (if String.eqb p "" then 2 else 1)
              (allowXhr (Some (listingPayload p)) true s4)
              (record (OnResponse 30000) w4))
    as (rc & wc & es & Ec' & _).
  rewrite Ec' in Ec. inversion Ec; subst rc s5 wc. clear Ec.
  unfold listingPromise in El.
  pose proof (handleResponses_keeps (hd [] (traffic w5))
                (allowXhr (Some (listingPayload p)) true s4)) as K.
  cbv zeta in K.
  destruct (handleResponses _ (hd [] (traffic w5))) as [[got| |] s7];
    [|discriminate|discriminate].
  inversion El; subst got s6 w6. clear El.
  destruct K as (_ & Ka & _ & _ & _ & _ & Kb).
  destruct (Kb files eq_refl) as [Kb1 Kb2]. cbn [fst snd] in *.
  apply bind_Ok in H. destruct H as (? & s8 & w8 & E8 & H).
  inversion E8; subst. inversion H; subst.
  cbn. repeat split; try assumption. eauto.
Qed.

(** X6: after a navigation that fetched a listing, the gate stays armed
    for that directory with duplicate blocking off: every later tracked
    request for the listing of the target is forwarded, and every tracked
    request with another payload is answered with the empty response. *)
Theorem gate_after_navigation (fuel : nat) (p : string) (s s' : State)
    (w w' : World) (reqs : list Request) (r : Request) (d : decision) :
  navInFileManager fuel p s w = (Ok tt, s', w') ->
  curDirPath s <> p ->
  In (r, d) (combine reqs (fst (onRequests s' reqs))) ->
  tracked s' r = true ->
  d = if strictEq (postData r) (Some (listingPayload p))
      then Continue else RespondEmpty.
Proof.
  intros H Hne Hin Ht.
  destruct (navInFileManager_leaves_gate fuel p s s' w w' H Hne)
    as (Hb & Ha & _).
  exact (onRequests_blocking_off (listingPayload p) reqs s' Hb Ha r d Hin Ht).
Qed.

(** ** The file name pattern *)

Lemma clearFileName_unfold (fileName : string) :
  clearFileName fileName =
  if matchesWhole fileName then Some fileName
  else match fileName with
       | EmptyString => None
       | String _ rest => clearFileName rest
       end.
Proof. destruct fileName; reflexivity. Qed.

Lemma separators_app (a b : string) :
  separators (a ++ b) = separators a + separators b.
Proof. induction a as [|c a IH]; simpl; [reflexivity|]. rewrite IH. lia. Qed.

Lemma nonLeafChars_app (a b : string) :
  nonLeafChars (a ++ b) = nonLeafChars a + nonLeafChars b.
Proof. induction a as [|c a IH]; simpl; [reflexivity|]. rewrite IH. lia. Qed.

Lemma allLeafChars_counts (s : string) :
  allLeafChars s = true -> nonLeafChars s = 0 /\ separators s = 0.
Proof.
  induction s as [|c s IH]; simpl; [auto|].
  intros H. apply andb_true_iff in H. destruct H as [Hc Hs].
  destruct (IH Hs) as [I1 I2]. rewrite Hc, I1, I2.
  unfold leafChar in Hc.
  destruct (Ascii.eqb c (ascii_of_nat 92)); [discriminate|].
  destruct (Ascii.eqb c "/"); [discriminate|]. auto.
Qed.

Lemma leafChar_separator (c : ascii) :
  leafChar c = false ->
  (if Ascii.eqb c "/" || Ascii.eqb c (ascii_of_nat 92) then 1 else 0)
  = (if Ascii.eqb c "." then 0 else 1).
Proof.
  unfold leafChar.
  destruct (Ascii.eqb_spec c (ascii_of_nat 92)) as [->|];
    [reflexivity|].
  destruct (Ascii.eqb_spec c "/") as [->|]; [reflexivity|].
  destruct (Ascii.eqb c "."); [reflexivity | discriminate].
Qed.

(** What the pattern accepts as a whole has no separator and at most one
    character outside the class. *)
Lemma afterLeafChars_counts (s : string) :
  forall some : bool,
    let '(some', r) := afterLeafChars s some in
    nonLeafChars s = nonLeafChars r /\ separators s = separators r /\
    (some = true -> some' = true) /\
    match r with
    | EmptyString => True
    | String c _ => leafChar c = false
    end.
Proof.
  induction s as [|c s IH]; intros some; cbn [afterLeafChars].
  - simpl. auto.
  - destruct (leafChar c) eqn:Hc.
    + specialize (IH true). destruct (afterLeafChars s true) as [some' r].
      destruct IH as (I1 & I2 & I3 & I4). cbn [nonLeafChars separators].
      rewrite Hc, I1, I2. unfold leafChar in Hc.
      destruct (Ascii.eqb c (ascii_of_nat 92)); [discriminate|].
      destruct (Ascii.eqb c "/"); [discriminate|].
      repeat split; auto.
    + repeat split; auto.
Qed.

Lemma matchesWhole_counts (s : string) :
  matchesWhole s = true -> separators s = 0 /\ nonLeafChars s <= 1.
Proof.
  unfold matchesWhole. pose proof (afterLeafChars_counts s false) as K.
  destruct (afterLeafChars s false) as [[|] [|c r]]; try discriminate.
  - destruct K as (K1 & K2 & _). rewrite K1, K2. simpl. auto.
  - destruct K as (K1 & K2 & _ & K4). intros H.
    apply andb_true_iff in H. destruct H as [H _].
    apply andb_true_iff in H. destruct H as [Hd Hr].
    apply allLeafChars_counts in Hr. destruct Hr as [R1 R2].
    rewrite K1, K2. cbn [separators nonLeafChars].
    rewrite (leafChar_separator c K4), K4, Hd, R1, R2. simpl. auto.
Qed.

Lemma afterLeafChars_allLeaf (a r : string) :
  allLeafChars a = true -> a <> "" ->
  forall some : bool, afterLeafChars (a ++ r) some = afterLeafChars r true.
Proof.
  induction a as [|c a IH]; intros Ha Hne some; [congruence|].
  cbn [allLeafChars] in Ha. apply andb_true_iff in Ha. destruct Ha as [Hc Ha].
  change (String c a ++ r) with (String c (a ++ r)).
  cbn [afterLeafChars]. rewrite Hc.
  destruct a as [|d a]; [reflexivity|]. apply IH; [exact Ha | discriminate].
Qed.

Lemma append_empty_r (a : string) : a ++ "" = a.
Proof. induction a as [|c a IH]; simpl; [|rewrite IH]; reflexivity. Qed.

Lemma matchesWhole_name (a : string) :
  allLeafChars a = true -> a <> "" -> matchesWhole a = true.
Proof.
  intros Ha Hne. unfold matchesWhole.
  rewrite <- (append_empty_r a) at 1.
  rewrite (afterLeafChars_allLeaf a "" Ha Hne). reflexivity.
Qed.

Lemma matchesWhole_name_format (a b : string) :
  allLeafChars a = true -> a <> "" -> allLeafChars b = true -> b <> "" ->
  matchesWhole (a ++ "." ++ b) = true.
Proof.
  intros Ha Hna Hb Hnb. unfold matchesWhole.
  rewrite (afterLeafChars_allLeaf a ("." ++ b) Ha Hna).
  cbn. rewrite Hb. destruct b; [congruence | reflexivity].
Qed.

(** The scan passes every start from which the rest is not accepted as a
    whole: all the starts before a character outside the class that is a
    separator, or that is followed by a name with a dot of its own. *)
Lemma clearFileName_after (pre : string) (c0 : ascii) (name : string) :
  leafChar c0 = false ->
  matchesWhole name = true ->
  separators (String c0 "") = 1 \/ nonLeafChars name = 1 ->
  clearFileName (pre ++ String c0 name) = Some name.
Proof.
  intros Hc Hname Hcase.
  assert (Hn : clearFileName name = Some name)
    by (rewrite clearFileName_unfold, Hname; reflexivity).
  assert (Rej : forall x : string,
             matchesWhole (x ++ String c0 name) = false).
  { intros x. destruct (matchesWhole (x ++ String c0 name)) eqn:E;
      [|reflexivity].
    apply matchesWhole_counts in E. destruct E as [E1 E2].
    rewrite separators_app in E1. rewrite nonLeafChars_app in E2.
    change (String c0 name) with (String c0 "" ++ name) in E1, E2.
    rewrite separators_app in E1. rewrite nonLeafChars_app in E2.
    cbn [nonLeafChars] in E2. rewrite Hc in E2.
    destruct Hcase as [H|H]; lia. }
  induction pre as [|c pre IH].
  - pose proof (Rej "") as R.
    change ("" ++ String c0 name) with (String c0 name) in *.
    rewrite clearFileName_unfold, R. exact Hn.
  - pose proof (Rej (String c pre)) as R.
    change (String c pre ++ String c0 name)
      with (String c (pre ++ String c0 name)) in *.
    rewrite clearFileName_unfold, R. exact IH.
Qed.

Lemma name_format_counts (a b : string) :
  allLeafChars a = true -> allLeafChars b = true ->
  nonLeafChars (a ++ "." ++ b) = 1.
Proof.
  intros Ha Hb. apply allLeafChars_counts in Ha, Hb.
  destruct Ha as [Ha _], Hb as [Hb _].
  rewrite nonLeafChars_app. cbn [String.append nonLeafChars].
  change (leafChar ".") with false. cbv iota. lia.
Qed.

(** X7: the pattern of [getFileIndexInFileManager] drops the directory
    part of its argument: after a [/] or a backslash, a bare name and a
    [name.format] are kept as they are.  It also drops everything before
    the last but one dot: of [x.name.format] only [name.format] is
    kept. *)
Theorem clearFileName_keeps_last_name (dir x a b : string) (sep : ascii) :
  sep = "/"%char \/ sep = ascii_of_nat 92 ->
  allLeafChars a = true -> a <> "" ->
  allLeafChars b = true -> b <> "" ->
  clearFileName (dir ++ String sep a) = Some a /\
  clearFileName (dir ++ String sep (a ++ "." ++ b)) = Some (a ++ "." ++ b) /\
  clearFileName (a ++ "." ++ b) = Some (a ++ "." ++ b) /\
  clearFileName (x ++ "." ++ a ++ "." ++ b) = Some (a ++ "." ++ b).
Proof.
  intros Hsep Ha Hna Hb Hnb.
  pose proof (matchesWhole_name a Ha Hna) as Ma.
  pose proof (matchesWhole_name_format a b Ha Hna Hb Hnb) as Mab.
  assert (Hl : leafChar sep = false) by (destruct Hsep; subst; reflexivity).
  assert (Hs : separators (String sep "") = 1)
    by (destruct Hsep; subst; reflexivity).
  split; [apply clearFileName_after; auto|].
  split; [apply clearFileName_after; auto|].
  split; [rewrite clearFileName_unfold, Mab; reflexivity|].
  apply (clearFileName_after x "." (a ++ "." ++ b)); auto.
  right. now apply name_format_counts.
Qed.

Lemma clearFileName_accepted (fileName cleared : string) :
  clearFileName fileName = Some cleared -> matchesWhole cleared = true.
Proof.
  induction fileName as [|c f IH]; [discriminate|].
  rewrite clearFileName_unfold.
  destruct (matchesWhole (String c f)) eqn:E; intros H.
  - inversion H; subst. exact E.
  - now apply IH.
Qed.

(** X8: locating, selecting and uploading a file depend on the argument
    through the cleared name only: the call with a path and the call with
    what the pattern keeps of it are the same computation. *)
Theorem locate_ignores_directory_part (fileName cleared : string) (s : State)
    (w : World) :
  clearFileName fileName = Some cleared ->
  clearFileName cleared = Some cleared /\
  getFileIndexInFileManager fileName s w
  = getFileIndexInFileManager cleared s w /\
  selectFileInFileManager fileName s w
  = selectFileInFileManager cleared s w /\
  uploadFileToPage fileName s w = uploadFileToPage cleared s w.
Proof.
  intros H. pose proof (clearFileName_accepted _ _ H) as M.
  assert (Hc : clearFileName cleared = Some cleared)
    by (rewrite clearFileName_unfold, M; reflexivity).
  assert (E : getFileIndexInFileManager fileName
              = getFileIndexInFileManager cleared)
    by (unfold getFileIndexInFileManager; rewrite H, Hc; reflexivity).
  split; [exact Hc|].
  unfold selectFileInFileManager, uploadFileToPage, getFileFromFileManager.
  rewrite E. repeat split; reflexivity.
Qed.

(** ** The index of a file *)

Lemma domIndexFrom_first (fileName : string) (list : list string) :
  forall i : nat,
    match domIndexFrom i list fileName with
    | 0 => Forall (fun text => entryMatches fileName text = false) list
    | S r =>
        exists k, r = i + k /\ k < List.length list /\
                  entryMatches fileName (nth k list "") = true /\
                  forall j, j < k ->
                            entryMatches fileName (nth j list "") = false
    end.
Proof.
  induction list as [|text rest IH]; intros i; cbn [domIndexFrom].
  - constructor.
  - fold (entryMatches fileName text).
    destruct (entryMatches fileName text) eqn:E.
    + replace (i + 1) with (S i) by lia. exists 0. cbn [nth List.length].
      repeat split; try lia. exact E.
    + specialize (IH (S i)).
      destruct (domIndexFrom (S i) rest fileName) as [|r].
      * constructor; assumption.
      * destruct IH as (k & Hr & Hk & Hm & Hbefore).
        exists (S k). cbn [nth List.length]. repeat split; try lia; [exact Hm|].
        intros [|j] Hj; [exact E|]. apply Hbefore. lia.
Qed.

(** X9: the page function of the locator returns 0 exactly when no entry
    matches; otherwise it returns the position, counted from 1, of the
    first entry whose trimmed text starts with the file name, so its
    result never exceeds the number of entries. *)
Theorem getFileIndexInFileManagerDOM_first_match (list : list string)
    (fileName : string) :
  let r := getFileIndexInFileManagerDOM list fileName in
  r <= List.length list /\
  (r = 0 <-> Forall (fun text => entryMatches fileName text = false) list) /\
  (forall k : nat,
      r = S k ->
      entryMatches fileName (nth k list "") = true /\
      forall j, j < k -> entryMatches fileName (nth j list "") = false).
Proof.
  cbv zeta. unfold getFileIndexInFileManagerDOM.
  pose proof (domIndexFrom_first fileName list 0) as H.
  destruct (domIndexFrom 0 list fileName) as [|r].
  - split; [lia|]. split; [tauto|]. intros k Hk. discriminate.
  - destruct H as (k & Hr & Hk & Hm & Hbefore). simpl in Hr. subst r.
    split; [lia|]. split.
    + split; [discriminate|]. intros Hall.
      rewrite Forall_forall in Hall.
      rewrite (Hall (nth k list "")) in Hm by (apply nth_In; exact Hk).
      discriminate.
    + intros k' E. inversion E; subst k'. auto.
Qed.

Lemma getFileIndexInFileManagerDOM_found (list : list string)
    (fileName : string) (i : nat) :
  getFileIndexInFileManagerDOM list fileName = S i ->
  i < List.length list /\ entryMatches fileName (nth i list "") = true.
Proof.
  unfold getFileIndexInFileManagerDOM.
  pose proof (domIndexFrom_first fileName list 0) as H.
  destruct (domIndexFrom 0 list fileName) as [|r]; [discriminate|].
  destruct H as (k & Hr & Hk & Hm & _). simpl in Hr. subst r.
  intros E. inversion E; subst i. split; assumption.
Qed.

Lemma find_some_in (f : string -> bool) (l : list string) (x : string) :
  find f l = Some x -> In x l /\ f x = true.
Proof. apply find_some. Qed.

(** X10: an index returned by [getFileIndexInFileManager] is [-1], and
    then the driver was not called, or the position of the first rendered
    entry that starts with the cleared name, a name that some entry of the
    cached listing starts with too; the state is never changed. *)
Theorem getFileIndexInFileManager_sound (fileName : string) (s : State)
    (w : World) (index : Z) :
  result (getFileIndexInFileManager fileName s w) = Ok index ->
  stateOf (getFileIndexInFileManager fileName s w) = s /\
  (index = (-1)%Z /\ worldOf (getFileIndexInFileManager fileName s w) = w \/
   (0 <= index < Z.of_nat (List.length (dom w)))%Z /\
   exists cleared files name,
     clearFileName fileName = Some cleared /\
     getFileIndexInFileManagerDOM (dom w) cleared = S (Z.to_nat index) /\
     entryMatches cleared (nth (Z.to_nat index) (dom w) "") = true /\
     curDirFiles s = Some files /\ In name files /\
     startsWith name cleared = true).
Proof.
  intros H. split; [apply getFileIndexInFileManager_state|].
  revert H. unfold getFileIndexInFileManager, result, worldOf.
  destruct (clearFileName fileName) as [cleared|];
    [|intros H; inversion H; left; split; reflexivity].
  unfold bind, this.
  destruct (curDirFiles s) as [files|]; [|discriminate].
  destruct (find (fun name => startsWith name cleared) files)
    as [name|] eqn:Ef;
    [|intros H; inversion H; left; split; reflexivity].
  destruct name as [|c name];
    [intros H; inversion H; left; split; reflexivity|].
  unfold emit. cbn [dom record].
  pose proof (getFileIndexInFileManagerDOM_found (dom w) cleared) as D.
  destruct (getFileIndexInFileManagerDOM (dom w) cleared) as [|i] eqn:Ed;
    [discriminate|].
  cbn [fst snd]. intros H.
  assert (E : (Z.of_nat (S i) - 1)%Z = index) by congruence.
  clear H. subst index.
  destruct (D i eq_refl) as [Dle Dm].
  right. split; [lia|].
  replace (Z.to_nat (Z.of_nat (S i) - 1)) with i by lia.
  apply find_some_in in Ef. destruct Ef as [Ein Est].
  exists cleared, files, (String c name). repeat split; assumption.
Qed.

(** ** Locating without a listing *)

(** With the session closed, no cached listing and the cursor already on
    the directory asked for, opening, navigating and selecting ends in a
    [TypeError]: the navigation returns at the equality check and the
    locator calls [find] on [null]. *)
Lemma locate_without_listing (s : State) (w : World) (tabName : string)
    (index fuel : nat) (fileName cleared : string) :
  fileManagerFrame s = None ->
  curDirFiles s = None ->
  clearFileName fileName = Some cleared ->
  (openFileManager tabName index ;;
   navInFileManager fuel (curDirPath s) ;;
   selectFileInFileManager fileName) s w
  = (Throw TypeError,
     set_fileManagerFrame (Some (Handle (frames w))) s,
     set_frames (S (frames w))
       (record (WaitForSelector (selectors_frame (config s)) false)
          (record (UploadBtnClick tabName index) w))).
Proof.
  intros Hf Hl Hc.
  set (s1 := set_fileManagerFrame (Some (Handle (frames w))) s).
  set (w1 := set_frames _ _).
  assert (E1 : openFileManager tabName index s w = (Ok tt, s1, w1)).
  { unfold openFileManager, bind, this, emit. rewrite Hf. reflexivity. }
  assert (E2 : navInFileManager fuel (curDirPath s) s1 w1 = (Ok tt, s1, w1)).
  { unfold navInFileManager, bind, this.
    change (fileManagerFrame s1) with (Some (Handle (frames w))).
    change (curDirPath s1) with (curDirPath s).
    rewrite String.eqb_refl. reflexivity. }
  assert (E3 : selectFileInFileManager fileName s1 w1
               = (Throw TypeError, s1, w1)).
  { unfold selectFileInFileManager, getFileFromFileManager,
      getFileIndexInFileManager, bind, this.
    change (fileManagerFrame s1) with (Some (Handle (frames w))).
    rewrite Hc. change (curDirFiles s1) with (curDirFiles s). rewrite Hl.
    reflexivity. }
  unfold bind. rewrite E1, E2, E3. reflexivity.
Qed.

(** X11: on an instance that has not fetched a listing yet, the root
    listing cannot be fetched by navigating to the root: the cursor is
    [""] already, so [navInFileManager] returns at once, and selecting a
    file then throws a [TypeError] on the missing listing, after the
    driver calls of [openFileManager] only. *)
Theorem root_listing_is_never_fetched_first (s : State) (w : World)
    (tabName : string) (index fuel : nat) (fileName cleared : string) :
  fileManagerFrame s = None ->
  curDirFiles s = None ->
  curDirPath s = "" ->
  clearFileName fileName = Some cleared ->
  let r := (openFileManager tabName index ;;
            navInFileManager fuel "" ;;
            selectFileInFileManager fileName) s w in
  result r = Throw TypeError /\
  curDirFiles (stateOf r) = None /\
  sinceLog w (worldOf r)
  = [UploadBtnClick tabName index;
     WaitForSelector (selectors_frame (config s)) false].
Proof.
  intros Hf Hl Hroot Hc r. subst r. rewrite <- Hroot.
  rewrite (locate_without_listing s w tabName index fuel fileName cleared
             Hf Hl Hc).
  unfold result, stateOf, worldOf. cbn [fst snd].
  split; [reflexivity|]. split; [exact Hl|].
  apply sinceLog_app. cbn [log set_frames record].
  rewrite <- app_assoc. reflexivity.
Qed.

(** X12: [Cartmin.close] drops the cached listing and keeps the cursor.
    After a restart, navigating to the directory the cursor was left on
    is therefore a no-op, and selecting a file throws a [TypeError]
    instead of looking into a listing. *)
Theorem restart_navigation_is_noop_without_listing (s : State) (w : World)
    (b : handle) (tabName : string) (index fuel : nat)
    (fileName cleared : string) :
  browser s = Some b ->
  clearFileName fileName = Some cleared ->
  let closed := close s w in
  let r := (launch ;;
            openFileManager tabName index ;;
            navInFileManager fuel (curDirPath s) ;;
            selectFileInFileManager fileName)
             (stateOf closed) (worldOf closed) in
  result closed = Ok tt /\
  curDirPath (stateOf closed) = curDirPath s /\
  curDirFiles (stateOf closed) = None /\
  allowedXhrPostData (stateOf closed) = None /\
  result r = Throw TypeError /\
  closes (sinceLog w (worldOf r)) = [] /\
  clicksIssued (sinceLog w (worldOf r)) = [].
Proof.
  intros Hb Hc closed r.
  assert (E : closed
              = (Ok tt,
                 set_curDirFiles None
                   (set_gate false None None
                      (set_fileManagerFrame None (set_browser None s))),
                 record BrowserClose w)).
  { subst closed. unfold close, bind, this, emit, assign. rewrite Hb.
    reflexivity. }
  subst r. rewrite E. unfold result, stateOf, worldOf. cbn [fst snd].
  repeat (split; [reflexivity|]).
  set (s1 := set_curDirFiles None _). set (w1 := record BrowserClose w).
  set (s2 := set_browser (Some (Handle 0)) s1).
  assert (Er : (launch ;;
                openFileManager tabName index ;;
                navInFileManager fuel (curDirPath s) ;;
                selectFileInFileManager fileName) s1 w1
               = (Throw TypeError,
                  set_fileManagerFrame (Some (Handle (frames w))) s2,
                  set_frames (S (frames w))
                    (record (WaitForSelector (selectors_frame (config s)) false)
                       (record (UploadBtnClick tabName index)
                          (record Launch w1))))).
  { unfold bind at 1. unfold launch at 1. unfold bind at 1, this at 1.
    change (browser s1) with (@None handle).
    unfold bind at 1, emit at 1, assign at 1. fold s2.
    change (curDirPath s) with (curDirPath s2).
    rewrite (locate_without_listing s2 (record Launch w1) tabName index fuel
               fileName cleared eq_refl eq_refl Hc).
    reflexivity. }
  rewrite Er. cbn [fst snd]. split; [reflexivity|].
  rewrite (sinceLog_app w _
             [BrowserClose; Launch; UploadBtnClick tabName index;
              WaitForSelector (selectors_frame (config s)) false]).
  - split; reflexivity.
  - subst w1. cbn [log set_frames record]. rewrite <- !app_assoc.
    reflexivity.
Qed.

(** ** Selecting and uploading a located file *)

(** X13: when the locator answers [-1], [selectFileInFileManager] and
    [uploadFileToPage] return [false] without a click and leave the
    session open; when it answers an index, the first scrolls to the
    entry, clicks it once and keeps the session, the second scrolls,
    clicks it twice and clears the session handle. *)
Theorem select_and_upload_after_locate (fileName : string) (s : State)
    (w : World) (h : handle) (index : Z) :
  fileManagerFrame s = Some h ->
  result (getFileIndexInFileManager fileName s w) = Ok index ->
  let w0 := worldOf (getFileIndexInFileManager fileName s w) in
  let list := selectors_list (config s) in
  let i := Z.to_nat index in
  if Z.eqb index (-1) then
    selectFileInFileManager fileName s w = (Ok false, s, w0) /\
    uploadFileToPage fileName s w = (Ok false, s, w0)
  else
    selectFileInFileManager fileName s w
    = (Ok true, s,
       record (ClickEntry list i 1) (record (ScrollIntoView list i) w0)) /\
    uploadFileToPage fileName s w
    = (Ok true, set_fileManagerFrame None s,
       record (ClickEntry list i 2) (record (ScrollIntoView list i) w0)).
Proof.
  intros Hf Hr. cbv zeta.
  pose proof (getFileIndexInFileManager_state fileName s w) as Hs.
  unfold selectFileInFileManager, uploadFileToPage, getFileFromFileManager,
    bind, this. rewrite Hf.
  unfold result, stateOf, worldOf in *.
  destruct (getFileIndexInFileManager fileName s w) as [[r0 s0] w0].
  cbn [fst snd] in *. subst r0 s0.
  destruct (Z.eqb index (-1)); unfold ret, emit, assign; split; reflexivity.
Qed.

(** ** Tearing down to the root *)

Lemma strictlyBelow_root (p : string) :
  (strictlyBelow "" (chain p) ++ [""])%list = chain p.
Proof.
  remember (String.length p) as n eqn:Hn. revert p Hn.
  induction n as [n IH] using lt_wf_ind. intros p Hn.
  destruct (string_dec p "") as [->|Hp]; [reflexivity|].
  rewrite (strictlyBelow_step "" p Hp Hp), (chain_step p Hp).
  cbn [app]. f_equal.
  apply (IH (String.length (parent p))); [|reflexivity].
  subst n. now apply parent_shorter.
Qed.

(** X14: [destroyNav] without a target (the default [""]) returns from
    every cursor: it closes the cursor and each of its ancestors, the
    root last, clicks nothing, and leaves the cursor on the root. *)
Theorem destroyNav_default_closes_to_root (fuel : nat) (s : State)
    (w : World) :
  String.length (curDirPath s) < fuel ->
  let r := destroyNav fuel "" s w in
  result r = Ok tt /\
  curDirPath (stateOf r) = "" /\
  closes (sinceLog w (worldOf r)) = map getDirSelector (chain (curDirPath s)) /\
  clicksIssued (sinceLog w (worldOf r)) = [].
Proof.
  intros Hfuel r.
  assert (HA : nearestIncluded (curDirPath s) "" = "")
    by (apply nearestIncluded_of_included, includes_empty).
  assert (Hin : In (nearestIncluded (curDirPath s) "") (chain (curDirPath s)))
    by (rewrite HA; apply root_in_chain).
  subst r. rewrite (destroyNav_chain fuel "" s w Hin Hfuel), HA.
  unfold result, stateOf, worldOf. cbn [fst snd].
  rewrite (sinceLog_app w _ _ (log_records _ w)), strictlyBelow_root.
  cbn [closes clicksIssued]. rewrite closes_map_CloseClass.
  repeat split; try reflexivity.
  clear. generalize (chain (curDirPath s)) as l.
  induction l as [|x l IH]; [reflexivity | exact IH].
Qed.

(** ** Navigations that never return *)

(** X15: the tear-down of a navigation returns, given enough fuel, exactly
    when the path its search stops at lies on the cursor's parent chain.
    When it does not (the path occurs in the cursor without being one of
    its ancestors), an open session's navigation never returns. *)
Theorem navigation_returns_iff_ancestor_on_chain (p : string) (s : State)
    (w : World) :
  ((exists fuel, result (destroyNav fuel p s w) = Ok tt) <->
   In (nearestIncluded (curDirPath s) p) (chain (curDirPath s))) /\
  (forall f : handle,
      fileManagerFrame s = Some f ->
      curDirPath s <> p ->
      ~ In (nearestIncluded (curDirPath s) p) (chain (curDirPath s)) ->
      forall fuel, result (navInFileManager fuel p s w) = Diverge).
Proof.
  split; [split|].
  - intros [fuel H].
    destruct (in_dec string_dec (nearestIncluded (curDirPath s) p)
                (chain (curDirPath s))) as [Hin|Hout]; [exact Hin|].
    rewrite (destroyNav_off_chain_diverges fuel p s w Hout) in H.
    discriminate.
  - intros Hin. exists (S (String.length (curDirPath s))).
    rewrite (destroyNav_chain _ p s w Hin (Nat.lt_succ_diag_r _)).
    reflexivity.
  - intros f Hf Hne Hout fuel.
    unfold navInFileManager. unfold bind at 1, this at 1. rewrite Hf.
    destruct (String.eqb_spec (curDirPath s) p) as [E|_]; [contradiction|].
    unfold bind at 1, assign at 1. unfold bind at 1.
    pose proof (destroyNav_off_chain_diverges fuel p (allowXhr None true s) w
                  Hout) as D.
    unfold result in *.
    destruct (destroyNav fuel p (allowXhr None true s) w) as [[[u|e|] s1] w1];
      cbn [fst] in *; try discriminate. reflexivity.
Qed.

(** ** Retried clicks *)

Lemma clickUntilAcknowledged_never (selector : string) (clickCount n : nat) :
  clickUntilAcknowledged selector clickCount (repeat false n)
  = (repeat (ClickRace selector clickCount 50 false) n, [], false).
Proof.
  induction n as [|n IH]; [reflexivity|].
  cbn [repeat clickUntilAcknowledged]. rewrite IH. reflexivity.
Qed.

Lemma clicksIssued_races (selector : string) (clickCount n : nat)
    (acked : bool) :
  clicksIssued (repeat (ClickRace selector clickCount 50 acked) n)
  = repeat (selector, clickCount) n.
Proof.
  induction n as [|n IH]; [reflexivity|].
  cbn [repeat clicksIssued]. now rewrite IH.
Qed.

(** X16: the retry loop of [clickDir] has no bound on its attempts.  On a
    directory other than the root, acknowledged on attempt [n + 1], it
    issues exactly [n + 1] clicks of the requested count and returns;
    when none of [n] attempts is acknowledged it has issued [n] clicks and
    has not returned. *)
Theorem clickDir_retries_until_acknowledged (path : string)
    (clickCount n : nat) (rest : list bool) (s : State) (w : World) :
  path <> "" ->
  let r := clickDir path clickCount s w in
  (acks w = (repeat false n ++ true :: rest)%list ->
   result r = Ok tt /\
   stateOf r = s /\
   clicksIssued (sinceLog w (worldOf r))
   = repeat (getDirSelector path, clickCount) (S n) /\
   acks (worldOf r) = rest) /\
  (acks w = repeat false n ->
   result r = Diverge /\
   clicksIssued (sinceLog w (worldOf r))
   = repeat (getDirSelector path, clickCount) n).
Proof.
  intros Hp r. split; intros Ha.
  - pose proof (clickDir_acknowledged_after path clickCount n rest s w Hp Ha)
      as E.
    cbv zeta in E. subst r. rewrite E.
    unfold result, stateOf, worldOf. cbn [fst snd].
    rewrite (sinceLog_app w _
               (ShowOnly (getDirSelector path)
                  :: repeat (ClickRace (getDirSelector path) clickCount 50
                               false) n
                  ++ [ClickRace (getDirSelector path) clickCount 50 true])%list)
      by (cbn [log set_acks]; rewrite log_records; cbn [log record];
          rewrite <- app_assoc; reflexivity).
    repeat split; try reflexivity.
    cbn [clicksIssued]. rewrite clicksIssued_app, clicksIssued_races.
    cbn [clicksIssued]. rewrite <- repeat_cons. reflexivity.
  - subst r. destruct path as [|c path]; [congruence|].
    unfold clickDir, bind, emit. cbn [acks record]. rewrite Ha.
    rewrite clickUntilAcknowledged_never.
    unfold result, worldOf. cbn [fst snd]. split; [reflexivity|].
    rewrite (sinceLog_app w _
               (ShowOnly (getDirSelector (String c path))
                  :: repeat (ClickRace (getDirSelector (String c path))
                               clickCount 50 false) n)%list)
      by (cbn [log set_acks]; rewrite log_records; cbn [log record];
          rewrite <- app_assoc; reflexivity).
    cbn [clicksIssued]. apply clicksIssued_races.
Qed.

(** ** Uploads, file by file *)

Lemma choosers_app (es es' : list event) :
  choosers (es ++ es')%list = choosers es + choosers es'.
Proof.
  induction es as [|e es IH]; [reflexivity|].
  destruct e; cbn [app choosers]; rewrite IH; reflexivity.
Qed.

(** The loop appends, in the order of the array, and leaves the instance
    alone whatever its outcome. *)
Lemma uploadEach_in_order (uploadBtn : string) (paths : list jsValue) :
  forall (acc : list string) (s : State) (w : World),
    stateOf (uploadEach uploadBtn paths acc s w) = s /\
    forall out,
      result (uploadEach uploadBtn paths acc s w) = Ok out ->
      exists new,
        out = (acc ++ new)%list /\ subsequence new (stringsOf paths).
Proof.
  induction paths as [|v rest IH]; intros acc s w.
  - split; [reflexivity|]. intros out H. inversion H; subst.
    exists []. rewrite app_nil_r. split; [reflexivity | constructor].
  - destruct v as [path|]; cbn [uploadEach stringsOf].
    + destruct (existsSync w path) eqn:Ex; cbn [negb orb is_string].
      * unfold bind, emit, promiseAll, closeBrowserDialogPromise.
        cbn [dialogs record].
        destruct (dialogs w) as [|[message|] ds]; cbn [hd tl];
          try (split; [reflexivity | intros out H; discriminate H]).
        match goal with
        | |- context [uploadEach uploadBtn rest ?a ?s0 ?w0] =>
            destruct (IH a s0 w0) as [Hs Ho]
        end.
        split; [exact Hs|]. intros out H.
        destruct (Ho out H) as (new & Hout & Hsub).
        destruct (includes message (options_successMsg (config s))).
        -- exists (path :: new). rewrite Hout, <- app_assoc.
           split; [reflexivity | now constructor].
        -- exists new. split; [exact Hout | now constructor].
      * destruct (IH acc s w) as [Hs Ho]. split; [exact Hs|].
        intros out H. destruct (Ho out H) as (new & Hout & Hsub).
        exists new. split; [exact Hout | now constructor].
    + exact (IH acc s w).
Qed.

(** X17: the paths [uploadFilesToFileManager] returns are strings of the
    array, in the order of the array (each at most as often as the array
    holds it), and the call changes no field of the instance, whether it
    returns or throws. *)
Theorem upload_keeps_order_and_state (paths : list jsValue) (s : State)
    (w : World) (uploaded : list string) :
  result (uploadFilesToFileManager paths s w) = Ok uploaded ->
  subsequence uploaded (stringsOf paths) /\
  (forall (paths0 : list jsValue) (s0 : State) (w0 : World),
      stateOf (uploadFilesToFileManager paths0 s0 w0) = s0).
Proof.
  intros H. split.
  - unfold uploadFilesToFileManager, bind, this, emit in H.
    destruct (fileManagerFrame s); [|discriminate H].
    match type of H with
    | context [uploadEach ?b paths [] ?s0 ?w0] =>
        destruct (uploadEach_in_order b paths [] s0 w0) as [_ Ho];
        destruct (uploadEach b paths [] s0 w0) as [[[out|e|] s1] w1];
        cbn [result fst] in H; try discriminate H;
        destruct (Ho out eq_refl) as (new & Hout & Hsub)
    end.
    inversion H; subst. exact Hsub.
  - intros paths0 s0 w0.
    unfold uploadFilesToFileManager, bind, this, emit.
    destruct (fileManagerFrame s0); [|reflexivity].
    match goal with
    | |- context [uploadEach ?b paths0 [] ?s1 ?w1] =>
        destruct (uploadEach_in_order b paths0 [] s1 w1) as [Hs _];
        destruct (uploadEach b paths0 [] s1 w1) as [[[out|e|] s2] w2];
        exact Hs
    end.
Qed.

(** The loop against a page that shows a dialog for each of the first
    [length messages] uploads and none afterwards. *)
Lemma uploadEach_with_dialogs (uploadBtn : string) (paths : list jsValue) :
  forall (acc : list string) (s : State) (w : World)
         (messages : list string),
    dialogs w = map Some messages ->
    exists (w' : World) (es : list event),
      log w' = (log w ++ es)%list /\
      (List.length (existingFiles w paths) <= List.length messages ->
       uploadEach uploadBtn paths acc s w
       = (Ok (acc ++ reported s (existingFiles w paths) messages)%list,
          s, w') /\
       choosers es = List.length (existingFiles w paths) /\
       dialogs w'
       = map Some (skipn (List.length (existingFiles w paths)) messages)) /\
      (List.length messages < List.length (existingFiles w paths) ->
       uploadEach uploadBtn paths acc s w
       = (Throw (TimeoutExceeded 30000), s, w') /\
       choosers es = S (List.length messages)).
Proof.
  induction paths as [|v rest IH]; intros acc s w messages Hd.
  - exists w, []. rewrite !app_nil_r. split; [reflexivity|].
    split; [intros _ | cbn; lia].
    cbn [existingFiles stringsOf filter List.length skipn].
    repeat split; exact Hd.
  - destruct v as [path|].
    + unfold existingFiles. cbn [stringsOf filter uploadEach is_string].
      fold (existingFiles w rest).
      destruct (existsSync w path) eqn:Ex; cbn [negb orb].
      * cbn [List.length].
        unfold bind, emit, promiseAll, closeBrowserDialogPromise.
        cbn [dialogs record].
        rewrite Hd. destruct messages as [|m ms]; cbn [map hd tl].
        -- eexists _, [FileChooser uploadBtn; AcceptFiles path].
           split; cycle 1.
           { split; [cbn; lia | intros _; split; reflexivity]. }
           cbn [log set_dialogs record]. rewrite <- app_assoc. reflexivity.
        -- set (w2 := record AcceptDialog _).
           set (acc2 := if includes m (options_successMsg (config s))
                        then (acc ++ [path])%list else acc).
           destruct (IH acc2 s w2 ms eq_refl) as (w' & es & Hl & Hok & Hto).
           change (existingFiles w2 rest) with (existingFiles w rest) in *.
           exists w',
             (FileChooser uploadBtn :: AcceptFiles path :: AcceptDialog
                :: es)%list.
           split.
           { rewrite Hl. subst w2. cbn [log set_dialogs record].
             rewrite <- !app_assoc. reflexivity. }
           cbn [List.length skipn choosers]. split.
           ++ intros Hle. destruct (Hok ltac:(lia)) as (E & Hc & Hdl).
              rewrite E. split; [|split; [now rewrite Hc | exact Hdl]].
              f_equal. f_equal. f_equal. subst acc2. unfold reported.
              cbn [combine filter snd].
              destruct (includes m (options_successMsg (config s)));
                cbn [map fst]; [rewrite <- app_assoc|]; reflexivity.
           ++ intros Hlt. destruct (Hto ltac:(lia)) as (E & Hc).
              rewrite E. split; [reflexivity | now rewrite Hc].
      * exact (IH acc s w messages Hd).
    + exact (IH acc s w messages Hd).
Qed.

(** X18: against a page that shows a dialog for each of the first
    [length messages] uploads and none afterwards,
    [uploadFilesToFileManager] opens a file chooser for each string of the
    array that exists locally, in order.  With a dialog for each it returns
    those whose dialog holds the success message; with fewer dialogs it
    rejects with the 30000 ms timeout on the first upload left without a
    dialog, and the paths uploaded before are not returned. *)
Theorem upload_with_dialogs (paths : list jsValue) (s : State) (w : World)
    (f : handle) (messages : list string) :
  fileManagerFrame s = Some f ->
  dialogs w = map Some messages ->
  let files := existingFiles w paths in
  let r := uploadFilesToFileManager paths s w in
  (List.length files <= List.length messages ->
   result r = Ok (reported s files messages) /\
   choosers (sinceLog w (worldOf r)) = List.length files /\
   dialogs (worldOf r) = map Some (skipn (List.length files) messages)) /\
  (List.length messages < List.length files ->
   result r = Throw (TimeoutExceeded 30000) /\
   choosers (sinceLog w (worldOf r)) = S (List.length messages)).
Proof.
  intros Hf Hd files r. subst r files.
  set (w1 := record (WaitForSelector (selectors_uploadBtn (config s)) false) w).
  assert (Er : uploadFilesToFileManager paths s w
               = uploadEach (selectors_uploadBtn (config s)) paths [] s w1).
  { unfold uploadFilesToFileManager, bind, this, emit. rewrite Hf.
    reflexivity. }
  rewrite Er.
  destruct (uploadEach_with_dialogs (selectors_uploadBtn (config s)) paths
              [] s w1 messages Hd) as (w' & es & Hl & Hok & Hto).
  change (existingFiles w1 paths) with (existingFiles w paths) in *.
  assert (Hs : sinceLog w w'
               = WaitForSelector (selectors_uploadBtn (config s)) false :: es).
  { apply sinceLog_app. rewrite Hl. subst w1. cbn [log record].
    rewrite <- app_assoc. reflexivity. }
  split.
  - intros Hle. destruct (Hok Hle) as (E & Hc & Hdl). rewrite E.
    unfold result, worldOf. cbn [fst snd]. rewrite Hs.
    repeat split; [exact Hc | exact Hdl].
  - intros Hlt. destruct (Hto Hlt) as (E & Hc). rewrite E.
    unfold result, worldOf. cbn [fst snd]. rewrite Hs.
    split; [reflexivity | exact Hc].
Qed.

(** ** The listing wait *)

Lemma strictEq_None (a : option string) : strictEq a None = false.
Proof. destruct a; reflexivity. Qed.

(** Once the armed payload has been forwarded with blocking on, the wait
    sees no forwarded tracked request any more: it runs into its timer. *)
Lemma handleResponses_blocked (K : string) (exchanges : list Exchange) :
  forall s : State,
    blockRepetitiveXhr s = true ->
    allowedXhrPostData s = Some K ->
    lastXhrPostData s = Some K ->
    fst (handleResponses s exchanges) = Rejected.
Proof.
  induction exchanges as [|ex rest IH]; intros s Hb Ha Hl; [reflexivity|].
  cbn [handleResponses].
  destruct (tracked s (request ex)) eqn:Ht.
  - rewrite (onRequest_tracked s (request ex) Ht), Ha, Hb, Hl.
    destruct (strictEq (postData (request ex)) (Some K)); cbn [andb].
    + apply IH; reflexivity.
    + apply (IH s Hb Ha Hl).
  - rewrite (onRequest_untracked s (request ex) Ht).
    destruct (passOn (request ex)); try apply (IH s Hb Ha Hl).
    rewrite Ht. cbn [andb]. apply (IH s Hb Ha Hl).
Qed.

(** Behind a gate armed with [K], duplicate blocking on and nothing
    forwarded yet, the wait ends by the reply to the first tracked request
    that carries [K]: it is the only one the gate forwards. *)
Lemma handleResponses_first (K : string) (exchanges : list Exchange) :
  forall s : State,
    blockRepetitiveXhr s = true ->
    allowedXhrPostData s = Some K ->
    lastXhrPostData s = None ->
    fst (handleResponses s exchanges)
    = match find (fun ex => tracked s (request ex) &&
                            strictEq (postData (request ex)) (Some K))
                 exchanges with
      | Some ex =>
          match reply ex with
          | EmptyBody => Rejected
          | Listing files => Resolved files
          | Unparsable => Pending
          end
      | None => Rejected
      end.
Proof.
  induction exchanges as [|ex rest IH]; intros s Hb Ha Hl; [reflexivity|].
  cbn [handleResponses find].
  destruct (tracked s (request ex)) eqn:Ht; cbn [andb].
  - rewrite (onRequest_tracked s (request ex) Ht), Ha, Hb, Hl.
    rewrite strictEq_None. cbn [andb].
    destruct (strictEq (postData (request ex)) (Some K)) eqn:Hk.
    + rewrite (tracked_config s (set_gate true (Some K) (Some K) s)
                 (request ex) eq_refl), Ht.
      cbn [allowedXhrPostData set_gate]. rewrite Hk. cbn [andb].
      destruct (reply ex); try reflexivity.
      apply (handleResponses_blocked K rest); reflexivity.
    + apply (IH s Hb Ha Hl).
  - rewrite (onRequest_untracked s (request ex) Ht).
    rewrite Ht. cbn [andb].
    destruct (passOn (request ex)); apply (IH s Hb Ha Hl).
Qed.

(** X19: the promise of [getDirFilesPromise], behind the request handler
    of [launch], ends by the reply to the first XHR POST to the
    file-manager files URL whose payload is the one the gate was armed
    with for the directory, whatever was requested before it: it resolves
    with the file names when the body is a listing; with an empty body
    the handler returns, the gate answers every later request for the
    payload itself, and the wait is rejected with the timeout; with a body
    that cannot be parsed the timer is cleared and the promise never
    settles.  Without such a request the wait is rejected with the
    timeout. *)
Theorem listing_wait_takes_first_matching_reply (path : string)
    (timeout : Z) (s : State) (w : World) :
  let r := (listing <- getDirFilesPromise path timeout ;; listing) s w in
  result r
  = match find (wantedListing s path) (hd [] (traffic w)) with
    | Some ex =>
        match reply ex with
        | EmptyBody => Throw (TimeoutExceeded timeout)
        | Listing files => Ok files
        | Unparsable => Diverge
        end
    | None => Throw (TimeoutExceeded timeout)
    end /\
  traffic (worldOf r) = tl (traffic w).
Proof.
  intros r. subst r. unfold bind. rewrite getDirFilesPromise_arms.
  unfold listingPromise. cbn [traffic record].
  pose proof (handleResponses_first (listingPayload path)
                (hd [] (traffic w))
                (allowXhr (Some (listingPayload path)) true s)
                eq_refl eq_refl eq_refl) as E.
  change (fun ex => tracked (allowXhr (Some (listingPayload path)) true s)
                      (request ex) &&
                    strictEq (postData (request ex))
                      (Some (listingPayload path)))
    with (wantedListing s path) in E.
  destruct (handleResponses _ (hd [] (traffic w))) as [[files| |] s'];
    cbn [fst] in E; unfold result, worldOf; cbn [fst snd];
    (split; [|reflexivity]);
    destruct (find (wantedListing s path) (hd [] (traffic w))) as [ex|];
    try discriminate E; try reflexivity;
    destruct (reply ex); congruence.
Qed.

(** ** Session calls made twice *)

(** X20: [launch], [openFileManager], [closeFileManager] and
    [Cartmin.close] are idempotent: a second call right after the first
    returns at its guard, issues no driver call and changes nothing,
    whatever arguments it is given. *)
Theorem session_calls_are_idempotent (tabName tabName' : string)
    (index index' : nat) (s : State) (w : World) :
  (launch ;; launch) s w = launch s w /\
  (openFileManager tabName index ;; openFileManager tabName' index') s w
  = openFileManager tabName index s w /\
  (closeFileManager ;; closeFileManager) s w = closeFileManager s w /\
  (close ;; close) s w = close s w.
Proof.
  unfold launch, openFileManager, closeFileManager, close, bind, this,
    emit, assign, ret.
  destruct (browser s) eqn:Eb, (fileManagerFrame s) eqn:Ef;
    cbn [browser fileManagerFrame set_browser set_fileManagerFrame set_gate
         set_curDirFiles fst snd];
    rewrite ?Eb, ?Ef; repeat split; reflexivity.
Qed.

(** ** Instances of the further properties *)

Lemma tokenizeUrl_overrides_witness :
  Url.allWord "abc123" = true /\
  Url.tokenizeUrl
    (Url.tokenizeUrl "http://shop.test/admin/index.php?route=common/home"
       "abc123") "f00"
  = Url.tokenizeUrl "http://shop.test/admin/index.php?route=common/home"
      "f00".
Proof.
  split; [reflexivity|].
  exact (tokenizeUrl_overrides
           "http://shop.test/admin/index.php?route=common/home"
           "abc123" "f00" eq_refl).
Defined.

Lemma extractToken_tokenizeUrl_witness :
  includes "http://shop.test/admin/index.php?route=common/home" "token="
  = false /\
  Url.extractToken
    (Url.tokenizeUrl "http://shop.test/admin/index.php?route=common/home"
       "abc123")
  = Ok "abc123".
Proof.
  split; [reflexivity|].
  exact (extractToken_tokenizeUrl
           "http://shop.test/admin/index.php?route=common/home" "abc123"
           eq_refl eq_refl).
Defined.

Lemma gate_without_blocking_forwards_repeats_witness :
  let reqs := [listingRequest "directory=a"; listingRequest "directory=a";
               listingRequest "directory=b"] in
  let ds := fst (onRequests (allowXhr (Some "directory=a") false session0)
                   reqs) in
  tracked session0 (listingRequest "directory=a") = true /\
  ds = [Continue; Continue; RespondEmpty] /\
  nth 1 ds Abort = Continue.
Proof.
  cbv zeta. split; [reflexivity|]. split; [reflexivity|].
  exact (gate_without_blocking_forwards_repeats session0 "directory=a"
           [listingRequest "directory=a"; listingRequest "directory=a";
            listingRequest "directory=b"]
           (listingRequest "directory=a") Continue
           (or_intror (or_introl eq_refl)) eq_refl).
Defined.

Lemma gate_after_navigation_witness :
  let run := navInFileManager 8 "a/b" session0
               (serving [("a/b", ["x.png"])] 3) in
  let reqs := [listingRequest (listingPayload "a/b");
               listingRequest (listingPayload "a/b");
               listingRequest (listingPayload "a")] in
  result run = Ok tt /\
  fst (onRequests (stateOf run) reqs) = [Continue; Continue; RespondEmpty] /\
  RespondEmpty
  = (if strictEq (postData (listingRequest (listingPayload "a")))
          (Some (listingPayload "a/b"))
     then Continue else RespondEmpty).
Proof.
  cbv zeta.
  set (run := navInFileManager 8 "a/b" session0
                (serving [("a/b", ["x.png"])] 3)).
  set (reqs := [listingRequest (listingPayload "a/b");
                listingRequest (listingPayload "a/b");
                listingRequest (listingPayload "a")]).
  assert (Hrun : navInFileManager 8 "a/b" session0
                   (serving [("a/b", ["x.png"])] 3)
                 = (Ok tt, stateOf run, worldOf run))
    by (vm_compute; reflexivity).
  assert (Hne : curDirPath session0 <> "a/b") by discriminate.
  assert (Hin : In (listingRequest (listingPayload "a"), RespondEmpty)
                  (combine reqs (fst (onRequests (stateOf run) reqs))))
    by (vm_compute; right; right; left; reflexivity).
  assert (Ht : tracked (stateOf run) (listingRequest (listingPayload "a"))
               = true) by (vm_compute; reflexivity).
  split; [vm_compute; reflexivity|]. split; [vm_compute; reflexivity|].
  exact (gate_after_navigation 8 "a/b" session0 (stateOf run)
           (serving [("a/b", ["x.png"])] 3) (worldOf run) reqs
           (listingRequest (listingPayload "a")) RespondEmpty
           Hrun Hne Hin Ht).
Defined.

Lemma clearFileName_keeps_last_name_witness :
  allLeafChars "dog" = true /\ allLeafChars "jpg" = true /\
  clearFileName "catalog/pets/dog" = Some "dog" /\
  clearFileName "catalog/pets/dog.jpg" = Some "dog.jpg" /\
  clearFileName "dog.jpg" = Some "dog.jpg" /\
  clearFileName "archive.dog.jpg" = Some "dog.jpg".
Proof.
  assert (Ha : "dog" <> "") by discriminate.
  assert (Hb : "jpg" <> "") by discriminate.
  split; [reflexivity|]. split; [reflexivity|].
  exact (clearFileName_keeps_last_name "catalog/pets" "archive" "dog" "jpg"
           "/"%char (or_introl eq_refl) eq_refl Ha eq_refl Hb).
Defined.

Lemma locate_ignores_directory_part_witness :
  clearFileName "catalog/pets/dog.jpg" = Some "dog.jpg" /\
  result (getFileIndexInFileManager "catalog/pets/dog.jpg" petsState
            petsWorld) = Ok 1%Z /\
  getFileIndexInFileManager "catalog/pets/dog.jpg" petsState petsWorld
  = getFileIndexInFileManager "dog.jpg" petsState petsWorld.
Proof.
  pose proof (locate_ignores_directory_part "catalog/pets/dog.jpg" "dog.jpg"
                petsState petsWorld eq_refl) as (_ & H & _).
  split; [reflexivity|]. split; [reflexivity | exact H].
Defined.

Lemma getFileIndexInFileManager_sound_witness :
  result (getFileIndexInFileManager "dog" petsState petsWorld) = Ok 1%Z /\
  stateOf (getFileIndexInFileManager "dog" petsState petsWorld) = petsState.
Proof.
  pose proof (getFileIndexInFileManager_sound "dog" petsState petsWorld 1%Z
                eq_refl) as (H & _).
  split; [reflexivity | exact H].
Defined.

Lemma root_listing_is_never_fetched_first_witness :
  let r := (openFileManager "data" 0 ;;
            navInFileManager 4 "" ;;
            selectFileInFileManager "dog.jpg")
             (constructor None config0) (quiet 0) in
  clearFileName "dog.jpg" = Some "dog.jpg" /\
  result r = Throw TypeError /\
  curDirFiles (stateOf r) = None.
Proof.
  cbv zeta.
  pose proof (root_listing_is_never_fetched_first (constructor None config0)
                (quiet 0) "data" 0 4 "dog.jpg" "dog.jpg"
                eq_refl eq_refl eq_refl eq_refl) as (H1 & H2 & _).
  split; [reflexivity|]. split; [exact H1 | exact H2].
Defined.

Lemma restart_navigation_is_noop_without_listing_witness :
  let s := set_browser (Some (Handle 0)) (set_curDirPath "a/b" petsState) in
  let closed := close s (quiet 0) in
  let r := (launch ;;
            openFileManager "data" 0 ;;
            navInFileManager 8 "a/b" ;;
            selectFileInFileManager "dog.jpg")
             (stateOf closed) (worldOf closed) in
  browser s = Some (Handle 0) /\
  curDirPath (stateOf closed) = "a/b" /\
  result r = Throw TypeError /\
  clicksIssued (sinceLog (quiet 0) (worldOf r)) = [].
Proof.
  cbv zeta.
  pose proof (restart_navigation_is_noop_without_listing
                (set_browser (Some (Handle 0))
                   (set_curDirPath "a/b" petsState))
                (quiet 0) (Handle 0) "data" 0 8 "dog.jpg" "dog.jpg"
                eq_refl eq_refl) as (_ & H1 & _ & _ & H2 & _ & H3).
  split; [reflexivity|]. split; [exact H1|]. split; [exact H2 | exact H3].
Defined.

Lemma select_and_upload_after_locate_witness :
  result (getFileIndexInFileManager "dog" petsState petsWorld) = Ok 1%Z /\
  result (selectFileInFileManager "dog" petsState petsWorld) = Ok true /\
  stateOf (selectFileInFileManager "dog" petsState petsWorld) = petsState /\
  result (uploadFileToPage "dog" petsState petsWorld) = Ok true /\
  fileManagerFrame (stateOf (uploadFileToPage "dog" petsState petsWorld))
  = None.
Proof.
  pose proof (select_and_upload_after_locate "dog" petsState petsWorld
                (Handle 0) 1%Z eq_refl eq_refl) as H.
  cbv zeta in H. change (Z.eqb 1 (-1)) with false in H. cbv iota in H.
  destruct H as [H1 H2]. rewrite H1, H2.
  repeat split; reflexivity.
Defined.

Lemma destroyNav_default_closes_to_root_witness :
  let s := set_curDirPath "a/b" session0 in
  let r := destroyNav 8 "" s (quiet 0) in
  String.length (curDirPath s) < 8 /\
  result r = Ok tt /\
  curDirPath (stateOf r) = "" /\
  closes (sinceLog (quiet 0) (worldOf r))
  = map getDirSelector ["a/b"; "a"; ""].
Proof.
  cbv zeta.
  assert (Hl : String.length (curDirPath (set_curDirPath "a/b" session0)) < 8)
    by (vm_compute; repeat constructor).
  pose proof (destroyNav_default_closes_to_root 8
                (set_curDirPath "a/b" session0) (quiet 0) Hl)
    as (H1 & H2 & H3 & _).
  split; [exact Hl|]. split; [exact H1|]. split; [exact H2 | exact H3].
Defined.

Lemma navigation_returns_iff_ancestor_on_chain_witness :
  let s := set_curDirPath "a/b" session0 in
  nearestIncluded (curDirPath s) "b/c" = "b" /\
  chain (curDirPath s) = ["a/b"; "a"; ""] /\
  result (navInFileManager 8 "b/c" s (quiet 0)) = Diverge.
Proof.
  cbv zeta. split; [reflexivity|]. split; [reflexivity|].
  assert (Hne : curDirPath (set_curDirPath "a/b" session0) <> "b/c")
    by discriminate.
  assert (Hout : ~ In (nearestIncluded
                         (curDirPath (set_curDirPath "a/b" session0)) "b/c")
                      (chain (curDirPath (set_curDirPath "a/b" session0)))).
  { change (~ In "b" ["a/b"; "a"; ""]). simpl. intuition discriminate. }
  pose proof (navigation_returns_iff_ancestor_on_chain "b/c"
                (set_curDirPath "a/b" session0) (quiet 0)) as (_ & H).
  exact (H (Handle 0) eq_refl Hne Hout 8).
Defined.

Lemma clickDir_retries_until_acknowledged_witness :
  let w := set_acks [false; true] (quiet 0) in
  let r := clickDir "a" 2 session0 w in
  getDirSelector "a" <> "[directory]" /\
  result r = Ok tt /\
  clicksIssued (sinceLog w (worldOf r))
  = [(getDirSelector "a", 2); (getDirSelector "a", 2)] /\
  acks (worldOf r) = [].
Proof.
  cbv zeta.
  assert (Hp : "a" <> "") by discriminate.
  pose proof (clickDir_retries_until_acknowledged "a" 2 1 [] session0
                (set_acks [false; true] (quiet 0)) Hp) as (H & _).
  destruct (H eq_refl) as (H1 & _ & H3 & H4).
  split; [discriminate|]. split; [exact H1|]. split; [exact H3 | exact H4].
Defined.

Lemma upload_keeps_order_and_state_witness :
  let paths := [JsString "/tmp/a.png"; JsString "/tmp/missing.png";
                JsOther; JsString "/tmp/b.png"] in
  result (uploadFilesToFileManager paths session0 uploadWorld)
  = Ok ["/tmp/a.png"; "/tmp/b.png"] /\
  subsequence ["/tmp/a.png"; "/tmp/b.png"] (stringsOf paths).
Proof.
  cbv zeta.
  pose proof (upload_keeps_order_and_state
                [JsString "/tmp/a.png"; JsString "/tmp/missing.png";
                 JsOther; JsString "/tmp/b.png"]
                session0 uploadWorld ["/tmp/a.png"; "/tmp/b.png"] eq_refl)
    as (H & _).
  split; [reflexivity | exact H].
Defined.

Lemma upload_with_dialogs_witness :
  let paths := [JsString "/tmp/a.png"; JsString "/tmp/missing.png";
                JsString "/tmp/b.png"] in
  let w := set_dialogs [Some "a.png uploaded"] uploadWorld in
  let r := uploadFilesToFileManager paths session0 w in
  existingFiles w paths = ["/tmp/a.png"; "/tmp/b.png"] /\
  dialogs w = map Some ["a.png uploaded"] /\
  result r = Throw (TimeoutExceeded 30000) /\
  choosers (sinceLog w (worldOf r)) = 2.
Proof.
  cbv zeta.
  pose proof (upload_with_dialogs
                [JsString "/tmp/a.png"; JsString "/tmp/missing.png";
                 JsString "/tmp/b.png"]
                session0 (set_dialogs [Some "a.png uploaded"] uploadWorld)
                (Handle 0) ["a.png uploaded"] eq_refl eq_refl) as (_ & H).
  cbv zeta in H.
  assert (Hlt : List.length ["a.png uploaded"]
                < List.length
                    (existingFiles
                       (set_dialogs [Some "a.png uploaded"] uploadWorld)
                       [JsString "/tmp/a.png"; JsString "/tmp/missing.png";
                        JsString "/tmp/b.png"]))
    by (vm_compute; repeat constructor).
  destruct (H Hlt) as (H1 & H2).
  split; [reflexivity|]. split; [reflexivity|].
  split; [exact H1 | exact H2].
Defined.
